(** * com.redhat.logging: the journal monitor service (src/main.c)

    A shallow embedding of the varlink service that exposes the systemd
    journal: the record translator ([journal_read_next_entry] and its
    helpers), the read-batch procedure ([monitor_read_entries]), the
    streaming dispatch ([monitor_dispatch]), the method handler
    ([com_redhat_logging_monitor]) and [main]: its command line, the set-up
    of the service and the event loop.

    The C functions become Rocq functions of the same name.  A function that
    returns [long r] and writes through an out-parameter returns the pair of
    [r] and the value of the out-parameter.  The libraries the program links
    against (libc, libsystemd's sd-journal, epoll, libvarlink) are not part of
    the repository; they are modelled here after their manual pages and,
    where these leave the behaviour open, after the implementation named at
    the model, each model under the name of the library call. *)

From Equations Require Import Equations.
From stdpp Require Import gmap strings list pretty.
From Stdlib Require Import Ascii ZArith Lia.

Local Open Scope Z_scope.

(** ** Constants of the system headers *)

Definition ENOENT : Z := 2.
Definition EINTR : Z := 4.
Definition EIO : Z := 5.
Definition EBADF : Z := 9.
Definition EEXIST : Z := 17.
Definition EINVAL : Z := 22.
Definition ERANGE : Z := 34.
Definition EBADMSG : Z := 74.
Definition EADDRNOTAVAIL : Z := 99.

Definition SIGINT : Z := 2.
Definition SIGTERM : Z := 15.

Definition EXIT_SUCCESS : Z := 0.

Definition INT_MAX : Z := 2 ^ 31 - 1.
Definition INT64_MIN : Z := - 2 ^ 63.
Definition INT64_MAX : Z := 2 ^ 63 - 1.

(** sd-journal.h: the wake-up kinds returned by [sd_journal_process]. *)
Definition SD_JOURNAL_NOP : Z := 0.
Definition SD_JOURNAL_APPEND : Z := 1.
Definition SD_JOURNAL_INVALIDATE : Z := 2.

(** varlink.h: the error enumeration starts at [VARLINK_ERROR_PANIC = 1];
    the call and reply flags are single bits. *)
Definition VARLINK_ERROR_PANIC : Z := 1.
Definition VARLINK_CALL_MORE : Z := 1.
Definition VARLINK_REPLY_CONTINUES : Z := 1.

(** main.c, lines 15-20: the exit codes of the service. *)
Definition ERROR_PANIC : Z := 1.
Definition ERROR_MISSING_ADDRESS : Z := 2.
Definition ERROR_MAX : Z := 3.

(** main.c, lines 37-46. *)
Definition priorities : list string :=
  ["debug"; "information"; "notice"; "warning";
   "error"; "alert"; "critical"; "emergency"]%string.

(** ** libc: strings *)

Definition is_nul (c : ascii) : bool := (N_of_ascii c =? 0)%N.

(** [isspace] in the C locale: space and the controls 9 to 13. *)
Definition isspace (c : ascii) : bool :=
  let n := N_of_ascii c in ((n =? 32) || ((9 <=? n) && (n <=? 13)))%N.

Definition isdigit (c : ascii) : bool :=
  let n := N_of_ascii c in ((48 <=? n) && (n <=? 57))%N.

Definition digit_value (c : ascii) : Z := Z.of_N (N_of_ascii c) - 48.

(** [strlen]: the strings of the model carry their length; a field name is a
    C literal and holds no NUL. *)
Definition strlen (s : string) : nat := String.length s.

(** [s + n] on a [char *]: the text from offset [n]. *)
Fixpoint string_drop (n : nat) (s : string) : string :=
  match n, s with
  | O, _ => s
  | S n', String _ s' => string_drop n' s'
  | S _, EmptyString => EmptyString
  end.

(** [strndup(s, n)]: a copy of at most [n] bytes of [s], ending at the first
    NUL byte when there is one among them. *)
Fixpoint strndup (s : string) (n : nat) : string :=
  match n, s with
  | S n', String c s' =>
      if is_nul c then EmptyString else String c (strndup s' n')
  | _, _ => EmptyString
  end.

(** ** libc: [strtoll] in base 10

    The subject sequence is optional white space, an optional sign and a
    non-empty run of decimal digits.  The model returns the converted number,
    clamped to the range of [long long], and the offset of [end] from the
    start of the text; the offset is 0 when no conversion is performed. *)

Fixpoint span_space (s : string) : nat :=
  match s with
  | String c s' => if isspace c then S (span_space s') else O
  | EmptyString => O
  end.

Fixpoint span_digits (s : string) : nat :=
  match s with
  | String c s' => if isdigit c then S (span_digits s') else O
  | EmptyString => O
  end.

Fixpoint digits_value (s : string) (acc : Z) : Z :=
  match s with
  | String c s' => if isdigit c then digits_value s' (10 * acc + digit_value c) else acc
  | EmptyString => acc
  end.

Definition clamp_int64 (n : Z) : Z := Z.max INT64_MIN (Z.min INT64_MAX n).

Definition strtoll (s : string) : Z * nat :=
  let ws := span_space s in
  let s1 := string_drop ws s in
  let '(neg, sg) :=
    match s1 with
    | String c _ =>
        if Ascii.eqb c "-" then (true, 1%nat)
        else if Ascii.eqb c "+" then (false, 1%nat)
        else (false, O)
    | EmptyString => (false, O)
    end in
  let s2 := string_drop sg s1 in
  let nd := span_digits s2 in
  if (nd =? 0)%nat then (0, O)
  else
    let v := digits_value s2 0 in
    (clamp_int64 (if neg then - v else v), (ws + sg + nd)%nat).

(** ** libc: [gmtime_r] and [strftime] *)

Record tm := {
  tm_year : Z;  (* the year itself, not the offset from 1900 *)
  tm_mon : Z;   (* 1 to 12 *)
  tm_mday : Z;
  tm_hour : Z;
  tm_min : Z;
  tm_sec : Z
}.

(** The proleptic Gregorian date of a day count from 1970-01-01. *)
Definition civil_from_days (days : Z) : Z * Z * Z :=
  let z := days + 719468 in
  let era := z / 146097 in
  let doe := z - era * 146097 in
  let yoe := (doe - doe / 1460 + doe / 36524 - doe / 146096) / 365 in
  let doy := doe - (365 * yoe + yoe / 4 - yoe / 100) in
  let mp := (5 * doy + 2) / 153 in
  let d := doy - (153 * mp + 2) / 5 + 1 in
  let m := if mp <? 10 then mp + 3 else mp - 9 in
  let y := yoe + era * 400 + (if m <=? 2 then 1 else 0) in
  (y, m, d).

(** [gmtime_r] fails (NULL, EOVERFLOW) when the year does not fit [int]. *)
Definition gmtime_r (time : Z) : option tm :=
  let '(y, m, d) := civil_from_days (time / 86400) in
  let s := time mod 86400 in
  if (y - 1900 <=? 2 ^ 31 - 1) && (- 2 ^ 31 <=? y - 1900) then
    Some {| tm_year := y; tm_mon := m; tm_mday := d;
            tm_hour := s / 3600; tm_min := (s mod 3600) / 60; tm_sec := s mod 60 |}
  else None.

Definition two_digits (n : Z) : string :=
  if n <? 10 then "0" +:+ pretty n else pretty n.

(** [strftime(string, max, "%Y-%m-%d %H:%M:%SZ", &tm)]; the buffer of the
    one caller (50 bytes) holds every date [gmtime_r] can return. *)
Definition strftime (t : tm) : string :=
  pretty (tm_year t) +:+ "-" +:+ two_digits (tm_mon t) +:+ "-" +:+
  two_digits (tm_mday t) +:+ " " +:+ two_digits (tm_hour t) +:+ ":" +:+
  two_digits (tm_min t) +:+ ":" +:+ two_digits (tm_sec t) +:+ "Z".

(** main.c, lines 104-116. *)
Definition format_time_rfc3339 (usec : Z) : Z * string :=
  let time := usec / 1000000 in
  match gmtime_r time with
  | None => (- EINVAL, EmptyString)
  | Some t => (0, strftime t)
  end.

(** ** libsystemd: the journal reader (sd-journal)

    A journal is the chronological sequence of the records its files hold at
    the moment.  A record has a cursor (the opaque text that identifies it),
    the wall-clock time of its reception in microseconds and its data, a
    sequence of [FIELD=value] items. *)

Record entry := Entry {
  e_cursor : string;
  e_realtime : Z;
  e_data : list (string * string)
}.

(** The read pointer.  The seek calls only record where to go; the next
    [sd_journal_next] or [sd_journal_previous] makes a record the current
    one ([LOCATION_DISCRETE]), and only then can data be read.  The library
    (libsystemd 252, [find_location_with_matches]) resolves a location that
    is not a record without regard to the direction of the step: the head to
    the first record, the tail to the last one, a cursor to its record. *)
Inductive location :=
  | LOCATION_HEAD
  | LOCATION_TAIL
  | LOCATION_SEEK (c : string)
  | LOCATION_DISCRETE (i : nat).

(** What [sd_journal_process] finds when the descriptor of the journal wakes
    the caller: records were appended at the end, or files were added,
    removed or rotated (the set of records is different), or nothing. *)
Inductive change :=
  | Append (added : list entry)
  | Invalidate (now : list entry)
  | Nop.

Inductive sd_call :=
  | In_seek_tail | In_seek_cursor | In_previous_skip | In_next
  | In_get_cursor | In_get_realtime_usec | In_get_data | In_process.

(** [j_fault c] is 0 when the call [c] works on this handle, and the negative
    errno-style code the call returns otherwise (I/O error, corrupt file, out
    of memory).  [j_changes] are the changes of the files the handle has
    not processed yet. *)
Record sd_journal := {
  j_entries : list entry;
  j_location : location;
  j_fd : Z;
  j_changes : list change;
  j_fault : sd_call → Z
}.

Definition set_location (j : sd_journal) (l : location) : sd_journal :=
  {| j_entries := j_entries j; j_location := l; j_fd := j_fd j;
     j_changes := j_changes j; j_fault := j_fault j |}.

Definition current_entry (j : sd_journal) : option entry :=
  match j_location j with
  | LOCATION_DISCRETE i => j_entries j !! i
  | _ => None
  end.

(** The index of the first record with cursor [c]. *)
Fixpoint find_cursor (c : string) (es : list entry) : option nat :=
  match es with
  | [] => None
  | e :: es' =>
      if String.eqb (e_cursor e) c then Some O
      else S <$> find_cursor c es'
  end.

(** Where [sd_journal_next] goes from a location: the first record from the
    head, the last record from the tail (so that a [sd_journal_next] right
    after [sd_journal_seek_tail] returns the newest record), the record
    after the current one, and the record of the cursor after a seek to it.
    For a cursor whose record is gone the library takes the closest
    following record; the model has no order on cursors and takes every
    record the journal still holds for newer than a removed one. *)
Definition next_index (j : sd_journal) : nat :=
  match j_location j with
  | LOCATION_HEAD => O
  | LOCATION_TAIL => pred (length (j_entries j))
  | LOCATION_SEEK c => default O (find_cursor c (j_entries j))
  | LOCATION_DISCRETE i => S i
  end.

(** Where [sd_journal_previous] goes: the first record from the head, the
    last record from the tail, the one before the current one, the record
    of the cursor after a seek to it (none when that record is gone). *)
Definition previous_index (j : sd_journal) : option nat :=
  match j_location j with
  | LOCATION_HEAD => Some O
  | LOCATION_TAIL =>
      match length (j_entries j) with O => None | S n => Some n end
  | LOCATION_SEEK c => find_cursor c (j_entries j)
  | LOCATION_DISCRETE i =>
      match i with O => None | S n => Some n end
  end.

(** [sd_journal_next]: 1 and the next record becomes current; 0 and the
    location stays when there is none; a negative code on failure. *)
Definition sd_journal_next (j : sd_journal) : Z * sd_journal :=
  if j_fault j In_next <? 0 then (j_fault j In_next, j)
  else
    let i := next_index j in
    if (i <? length (j_entries j))%nat
    then (1, set_location j (LOCATION_DISCRETE i))
    else (0, j).

Definition journal_previous (j : sd_journal) : Z * sd_journal :=
  match previous_index j with
  | Some i =>
      if (i <? length (j_entries j))%nat
      then (1, set_location j (LOCATION_DISCRETE i))
      else (0, j)
  | None => (0, j)
  end.

(** The loop of [sd_journal_previous_skip]: step back until [skip] records
    were passed or there is none before the current one; [c] counts. *)
Fixpoint previous_skip_loop (skip : nat) (c : Z) (j : sd_journal) : Z * sd_journal :=
  match skip with
  | O => (c, j)
  | S skip' =>
      let '(r, j') := journal_previous j in
      if r =? 0 then (c, j') else previous_skip_loop skip' (c + 1) j'
  end.

(** [sd_journal_previous_skip(j, skip)], [skip] a [uint64_t]: the number of
    records passed.  The library refuses a [skip] above [INT_MAX] with
    [-ERANGE] before it reads anything.  With [skip = 0] it only resolves a
    location that is not a record yet. *)
Definition sd_journal_previous_skip (j : sd_journal) (skip : Z) : Z * sd_journal :=
  if INT_MAX <? skip then (- ERANGE, j)
  else if j_fault j In_previous_skip <? 0 then (j_fault j In_previous_skip, j)
  else if skip =? 0 then
    match j_location j with
    | LOCATION_DISCRETE _ => (0, j)
    | _ => (0, snd (journal_previous j))
    end
  else previous_skip_loop (Z.to_nat skip) 0 j.

Definition sd_journal_seek_tail (j : sd_journal) : Z * sd_journal :=
  if j_fault j In_seek_tail <? 0 then (j_fault j In_seek_tail, j)
  else (0, set_location j LOCATION_TAIL).

Definition sd_journal_seek_cursor (j : sd_journal) (c : string) : Z * sd_journal :=
  if j_fault j In_seek_cursor <? 0 then (j_fault j In_seek_cursor, j)
  else (0, set_location j (LOCATION_SEEK c)).

(** The calls that read the current record return [-EADDRNOTAVAIL] when the
    read pointer is not at a record.  An out-parameter the call does not
    write is shown as the empty text (or 0); no caller reads it then. *)
Definition sd_journal_get_cursor (j : sd_journal) : Z * string :=
  if j_fault j In_get_cursor <? 0 then (j_fault j In_get_cursor, EmptyString)
  else match current_entry j with
       | Some e => (0, e_cursor e)
       | None => (- EADDRNOTAVAIL, EmptyString)
       end.

Definition sd_journal_get_realtime_usec (j : sd_journal) : Z * Z :=
  if j_fault j In_get_realtime_usec <? 0 then (j_fault j In_get_realtime_usec, 0)
  else match current_entry j with
       | Some e => (0, e_realtime e)
       | None => (- EADDRNOTAVAIL, 0)
       end.

Fixpoint find_field (field : string) (d : list (string * string)) : option string :=
  match d with
  | [] => None
  | (f, v) :: d' => if String.eqb f field then Some v else find_field field d'
  end.

(** [sd_journal_get_data(j, field, &data, &length)]: the item ["FIELD=value"]
    of the current record and its length, [-ENOENT] when the record has no
    such field. *)
Definition sd_journal_get_data (j : sd_journal) (field : string) : Z * string * nat :=
  if j_fault j In_get_data <? 0 then (j_fault j In_get_data, EmptyString, O)
  else match current_entry j with
       | None => (- EADDRNOTAVAIL, EmptyString, O)
       | Some e =>
           match find_field field (e_data e) with
           | None => (- ENOENT, EmptyString, O)
           | Some v =>
               let data := field +:+ "=" +:+ v in
               (0, data, String.length data)
           end
       end.

(** [sd_journal_process]: takes note of the oldest change not yet processed
    and returns its kind. *)
Definition sd_journal_process (j : sd_journal) : Z * sd_journal :=
  if j_fault j In_process <? 0 then (j_fault j In_process, j)
  else match j_changes j with
       | [] => (SD_JOURNAL_NOP, j)
       | ch :: rest =>
           let update es :=
             {| j_entries := es; j_location := j_location j; j_fd := j_fd j;
                j_changes := rest; j_fault := j_fault j |} in
           match ch with
           | Nop => (SD_JOURNAL_NOP, update (j_entries j))
           | Append added => (SD_JOURNAL_APPEND, update (j_entries j ++ added))
           | Invalidate now => (SD_JOURNAL_INVALIDATE, update now)
           end
       end.

Definition sd_journal_get_fd (j : sd_journal) : Z := j_fd j.

(** ** The record translator *)

(** The wire entry: the varlink object built for one record, with the keys
    [cursor], [time], [message] and, when set, [priority] and [process]. *)
Record WireEntry := {
  we_cursor : string;
  we_time : string;
  we_message : string;
  we_priority : option string;
  we_process : option string
}.

(** main.c, lines 65-83.  The second component is [*stringp]. *)
Definition journal_get_string (j : sd_journal) (field : string) : Z * string :=
  let '(r, data, length) := sd_journal_get_data j field in
  if r <? 0 then (r, EmptyString)
  else
    let field_length := (strlen field + 1)%nat in  (* include the '=' *)
    if (length <? field_length)%nat then (- EBADMSG, EmptyString)
    else (0, strndup (string_drop field_length data) (length - field_length)).

(** main.c, lines 85-102.  [number0] is the value [*numberp] holds before the
    call, the second component the value it holds after it. *)
Definition journal_get_int (j : sd_journal) (field : string) (number0 : Z) : Z * Z :=
  let '(r, string) := journal_get_string j field in
  if r <? 0 then (r, number0)
  else
    let '(number, end_) := strtoll string in
    if (end_ =? 0)%nat then (- EINVAL, number0)
    else (0, number).

(** main.c, lines 168-219: 1 and the wire entry of the next record, 0 when
    there is no further record, a negative code on failure. *)
Definition journal_read_next_entry (j : sd_journal) : Z * sd_journal * option WireEntry :=
  let '(r, j) := sd_journal_next j in
  if r <=? 0 then (r, j, None) else
  let '(r, cursor) := sd_journal_get_cursor j in
  if r <? 0 then (r, j, None) else
  let '(r, usec) := sd_journal_get_realtime_usec j in
  if r <? 0 then (r, j, None) else
  let '(r, timestr) := format_time_rfc3339 usec in
  if r <? 0 then (r, j, None) else
  let '(r, message) := journal_get_string j "MESSAGE" in
  if r <? 0 then (r, j, None) else
  let '(r, priority) := journal_get_int j "PRIORITY" (-1) in
  if (r <? 0) && negb (r =? - ENOENT) then (r, j, None) else
  let priority_name :=
    if (0 <=? priority) && (priority <=? 7)
    then priorities !! Z.to_nat priority else None in
  let process :=
    let '(r1, process) := journal_get_string j "SYSLOG_IDENTIFIER" in
    if r1 =? 0 then Some process
    else
      let '(r2, process) := journal_get_string j "_COMM" in
      if r2 =? 0 then Some process else None in
  (1, j,
   Some {| we_cursor := cursor;
           we_time := timestr;
           we_message := message;
           we_priority := priority_name;
           we_process := process |}).

(** ** The monitor *)

(** main.c, lines 27-35.  [call] names the varlink call the monitor holds a
    reference to; [journal] is the handle the monitor owns (NULL until
    [sd_journal_open] succeeded); [cursor] is NULL or the text of a cursor. *)
Record Monitor := {
  call : nat;
  journal : option sd_journal;
  cursor : option string;
  epoll_fd : Z
}.

(** The records [sd_journal_next] has still to pass before it returns 0. *)
Definition remaining (j : sd_journal) : nat :=
  (length (j_entries j) - next_index j)%nat.

Lemma remaining_set_location j i :
  (i < length (j_entries j))%nat → next_index j = i →
  (remaining (set_location j (LOCATION_DISCRETE i)) < remaining j)%nat.
Proof. unfold remaining. intros Hi ->. cbn [set_location j_entries next_index j_location]. lia. Qed.

Lemma sd_journal_next_remaining j r j' :
  sd_journal_next j = (r, j') → 0 < r → (remaining j' < remaining j)%nat.
Proof.
  unfold sd_journal_next.
  destruct (j_fault j In_next <? 0) eqn:Hf; [intros [= <- <-]; lia|].
  destruct (next_index j <? length (j_entries j))%nat eqn:Hi;
    intros [= <- <-] Hr; [|lia].
  apply remaining_set_location; [by apply Nat.ltb_lt | done].
Qed.

Lemma journal_read_next_entry_remaining j r j' entry :
  journal_read_next_entry j = (r, j', entry) → 0 < r →
  (remaining j' < remaining j)%nat.
Proof.
  unfold journal_read_next_entry.
  destruct (sd_journal_next j) as [r1 j1] eqn:Hn.
  destruct (r1 <=? 0) eqn:Hr1; [intros [= <- <- <-]; lia|].
  assert (Hrem : (remaining j1 < remaining j)%nat)
    by (eapply sd_journal_next_remaining; [done | lia]).
  repeat (match goal with
          | |- context [let '(_, _) := ?x in _] => destruct x
          | |- (if ?b then _ else _) = _ → _ => destruct b
          end); intros [= <- <- <-] ?; done || lia.
Qed.

(** A value together with the equation that it is the value of the
    expression, for the termination argument of the loop. *)
Definition inspect {A : Type} (x : A) : {y : A | x = y} := exist _ x eq_refl.

(** The loop of [monitor_read_entries] (main.c, lines 228-240).  The result
    is the last [r] (negative when the loop was left by [return], 0 when it
    was left by [break]), the journal, the array and [n_read]. *)
Equations? read_entries_loop (j : sd_journal) (entries : list WireEntry) (n_read : Z)
  : Z * sd_journal * list WireEntry * Z by wf (remaining j) lt :=
  read_entries_loop j entries n_read with inspect (journal_read_next_entry j) => {
    | exist _ (pair (pair r j') entry) Heq with Z_lt_dec r 0 => {
      | left _ := (r, j', entries, n_read);
      | right _ with Z.eq_dec r 0 => {
        | left _ := (r, j', entries, n_read);
        | right _ := read_entries_loop j' (entries ++ option_list entry) (n_read + 1) } } }.
Proof. eapply journal_read_next_entry_remaining; [eassumption | lia]. Qed.

Definition set_journal (monitor : Monitor) (j : option sd_journal) : Monitor :=
  {| call := call monitor; journal := j; cursor := cursor monitor;
     epoll_fd := epoll_fd monitor |}.

Definition set_cursor (monitor : Monitor) (c : option string) : Monitor :=
  {| call := call monitor; journal := journal monitor; cursor := c;
     epoll_fd := epoll_fd monitor |}.

(** main.c, lines 221-255: the read-batch procedure.  The result is the
    returned [long], the monitor after the call and [*entriesp] (shown empty
    where the function returns before it writes it).  With a NULL handle
    every sd-journal call returns [-EINVAL], so the first read fails. *)
Definition monitor_read_entries (monitor : Monitor) : Z * Monitor * list WireEntry :=
  match journal monitor with
  | None => (- VARLINK_ERROR_PANIC, monitor, [])
  | Some j =>
      let '(r, j, entries, n_read) := read_entries_loop j [] 0 in
      let monitor := set_journal monitor (Some j) in
      if r <? 0 then (- VARLINK_ERROR_PANIC, monitor, [])
      else
        let monitor := set_cursor monitor None in
        if 0 <? n_read then
          let '(r, c) := sd_journal_get_cursor j in
          if r <? 0 then (- VARLINK_ERROR_PANIC, monitor, [])
          else (n_read, set_cursor monitor (Some c), entries)
        else (n_read, monitor, entries)
  end.

(** ** libvarlink: the call object *)

Inductive Reply :=
  | Reply_entries (entries : list WireEntry) (flags : Z)
  | Reply_invalid_parameter (name : string).

(** A call in progress: its reference count, the replies sent on it (oldest
    first), the user data of the connection-closed callback when one is set,
    and [c_error]: 0 while the connection takes replies, else the negative
    code every reply function returns. *)
Record VarlinkCall := {
  c_refs : nat;
  c_replies : list Reply;
  c_closed_callback : option nat;
  c_error : Z
}.

Definition send (c : VarlinkCall) (reply : Reply) : Z * VarlinkCall :=
  if c_error c <? 0 then (c_error c, c)
  else (0, {| c_refs := c_refs c; c_replies := c_replies c ++ [reply];
              c_closed_callback := c_closed_callback c; c_error := c_error c |}).

Definition varlink_call_reply (c : VarlinkCall) (entries : list WireEntry) (flags : Z)
  : Z * VarlinkCall :=
  send c (Reply_entries entries flags).

Definition varlink_call_reply_invalid_parameter (c : VarlinkCall) (name : string)
  : Z * VarlinkCall :=
  send c (Reply_invalid_parameter name).

Definition varlink_call_ref (c : VarlinkCall) : VarlinkCall :=
  {| c_refs := S (c_refs c); c_replies := c_replies c;
     c_closed_callback := c_closed_callback c; c_error := c_error c |}.

Definition varlink_call_unref (c : VarlinkCall) : VarlinkCall :=
  {| c_refs := pred (c_refs c); c_replies := c_replies c;
     c_closed_callback := c_closed_callback c; c_error := c_error c |}.

Definition varlink_call_set_connection_closed_callback
  (c : VarlinkCall) (userdata : nat) : VarlinkCall :=
  {| c_refs := c_refs c; c_replies := c_replies c;
     c_closed_callback := Some userdata; c_error := c_error c |}.

(** ** Streaming dispatch *)

(** main.c, lines 275-285: the tail of [monitor_dispatch], reached on an
    append and after the repositioning on an invalidation. *)
Definition dispatch_read (monitor : Monitor) (c : VarlinkCall)
  : Z * Monitor * VarlinkCall :=
  let '(r, monitor, entries) := monitor_read_entries monitor in
  if r <? 0 then (r, monitor, c)
  else if r =? 0 then (0, monitor, c)
  else
    let '(r, c) := varlink_call_reply c entries VARLINK_REPLY_CONTINUES in
    (r, monitor, c).

(** An sd-journal call on [monitor->journal]: the library returns [-EINVAL]
    for a NULL handle. *)
Definition on_journal (f : sd_journal → Z * sd_journal) (monitor : Monitor)
  : Z * Monitor :=
  match journal monitor with
  | None => (- EINVAL, monitor)
  | Some j => let '(r, j) := f j in (r, set_journal monitor (Some j))
  end.

(** main.c, lines 257-286.  [c] is the call [monitor->call] refers to. *)
Definition monitor_dispatch (monitor : Monitor) (c : VarlinkCall)
  : Z * Monitor * VarlinkCall :=
  let '(event, monitor) := on_journal sd_journal_process monitor in
  if event =? SD_JOURNAL_INVALIDATE then
    let '(r, monitor) :=
      match cursor monitor with
      | Some cur => on_journal (λ j, sd_journal_seek_cursor j cur) monitor
      | None => on_journal sd_journal_seek_tail monitor
      end in
    if r <? 0 then (- VARLINK_ERROR_PANIC, monitor, c)
    else dispatch_read monitor c
  else if negb (event =? SD_JOURNAL_APPEND) then (0, monitor, c)
  else dispatch_read monitor c.

(** ** The process: epoll instance, monitors, calls *)

(** [data.ptr] of a registration: the service, NULL for the signal
    descriptor, or the address of a monitor. *)
Inductive epoll_ptr :=
  | Ptr_service
  | Ptr_null
  | Ptr_monitor (p : nat).

(** The interest list of the one epoll instance (descriptor to [data.ptr]),
    the live [Monitor] objects by address and the calls the transport knows
    by their number. *)
Record Process := {
  epoll : gmap Z epoll_ptr;
  monitors : gmap nat Monitor;
  calls : gmap nat VarlinkCall
}.

Definition set_epoll (st : Process) (ep : gmap Z epoll_ptr) : Process :=
  {| epoll := ep; monitors := monitors st; calls := calls st |}.

Definition set_monitors (st : Process) (ms : gmap nat Monitor) : Process :=
  {| epoll := epoll st; monitors := ms; calls := calls st |}.

Definition set_calls (st : Process) (cs : gmap nat VarlinkCall) : Process :=
  {| epoll := epoll st; monitors := monitors st; calls := cs |}.

(** [calloc(1, sizeof(Monitor))]: the all-zero object. *)
Definition zero_monitor : Monitor :=
  {| call := O; journal := None; cursor := None; epoll_fd := 0 |}.

(** [*monitor].  The program dereferences live monitors only; the model is
    total and reads the zero object elsewhere. *)
Definition deref (st : Process) (p : nat) : Monitor :=
  default zero_monitor (monitors st !! p).

Definition store (st : Process) (p : nat) (monitor : Monitor) : Process :=
  set_monitors st (<[p := monitor]> (monitors st)).

(** A reply function on the call numbered [call]; the transport refuses a
    call it does not know. *)
Definition on_call (f : VarlinkCall → Z * VarlinkCall) (st : Process) (call : nat)
  : Z * Process :=
  match calls st !! call with
  | None => (- EINVAL, st)
  | Some c => let '(r, c) := f c in (r, set_calls st (<[call := c]> (calls st)))
  end.

(** [epoll_ctl(epoll_fd, EPOLL_CTL_ADD, fd, &event)]: -1 with [errno] set for
    a descriptor that is invalid or registered already.  The result is the
    returned value, [errno] and the interest list. *)
Definition epoll_ctl_add (ep : gmap Z epoll_ptr) (fd : Z) (ptr : epoll_ptr)
  : Z * Z * gmap Z epoll_ptr :=
  if fd <? 0 then (-1, EBADF, ep)
  else match ep !! fd with
       | Some _ => (-1, EEXIST, ep)
       | None => (0, 0, <[fd := ptr]> ep)
       end.

(** main.c, lines 54-63. *)
Definition epoll_add (st : Process) (fd : Z) (ptr : epoll_ptr) : Z * Z * Process :=
  let '(r, errno, ep) := epoll_ctl_add (epoll st) fd ptr in
  (r, errno, set_epoll st ep).

(** [epoll_ctl(epoll_fd, EPOLL_CTL_DEL, fd, NULL)]; the one caller drops the
    result. *)
Definition epoll_ctl_del (ep : gmap Z epoll_ptr) (fd : Z) : gmap Z epoll_ptr :=
  delete fd ep.

(** main.c, lines 119-129.  [sd_journal_close] and [free] end the journal
    handle and the object: the address is no longer live. *)
Definition monitor_free (st : Process) (p : nat) : Process :=
  let monitor := deref st p in
  let ep :=
    match journal monitor with
    | Some j => epoll_ctl_del (epoll st) (sd_journal_get_fd j)
    | None => epoll st
    end in
  {| epoll := ep;
     monitors := delete p (monitors st);
     calls := alter varlink_call_unref (call monitor) (calls st) |}.

(** main.c, lines 131-134: the clean-up of a local [Monitor *]. *)
Definition monitor_freep (st : Process) (monitorp : option nat) : Process :=
  match monitorp with
  | Some p => monitor_free st p
  | None => st
  end.

(** Modelled from the spec: the macro [_cleanup_] of util.h, which is not
    among the sources.  Section 9 of the specification describes it as a
    scope-exit handler (open on success, free on any exit): a local declared
    [_cleanup_(monitor_freep) Monitor *monitor] is passed to [monitor_freep]
    on every exit of its scope, with the value it holds then. *)
Definition cleanup_monitor (st : Process) (monitor : option nat) : Process :=
  monitor_freep st monitor.

(** main.c, lines 136-140. *)
Definition monitor_canceled (st : Process) (userdata : nat) : Process :=
  monitor_free st userdata.

(** [sd_journal_open(&j, SD_JOURNAL_LOCAL_ONLY)]: [os_open] is what the
    system answers (negative: the journal cannot be opened), [files] the
    local journal as it is; a new handle is at the head. *)
Definition sd_journal_open (os_open : Z) (files : sd_journal) : Z * option sd_journal :=
  if os_open <? 0 then (os_open, None)
  else (0, Some (set_location files LOCATION_HEAD)).

(** main.c, lines 142-166.  The result is the returned [long], [*monitorp]
    (NULL unless the function succeeds) and the process. *)
Definition monitor_new (st : Process) (call : nat) (epoll_fd : Z)
    (os_open : Z) (files : sd_journal) : Z * option nat * Process :=
  let p := fresh (dom (monitors st)) in
  let monitor := {| call := call; journal := None; cursor := None;
                    epoll_fd := epoll_fd |} in
  let st := set_calls st (alter varlink_call_ref call (calls st)) in
  let st := store st p monitor in
  let '(r, j) := sd_journal_open os_open files in
  let monitor := set_journal monitor j in
  let st := store st p monitor in
  if r <? 0 then (r, None, cleanup_monitor st (Some p)) else
  let '(r, errno, st) :=
    epoll_add st (from_option sd_journal_get_fd (- EINVAL) (journal monitor))
              (Ptr_monitor p) in
  if r <? 0 then (- errno, None, cleanup_monitor st (Some p)) else
  let '(r, monitor) := on_journal sd_journal_seek_tail monitor in
  let st := store st p monitor in
  if r <? 0 then (r, None, cleanup_monitor st (Some p)) else
  (0, Some p, st).

(** main.c, lines 288-329: the handler of the method [Monitor].
    [parameters] holds the integer fields of the call's parameter object,
    [userdata] the epoll descriptor. *)
Definition com_redhat_logging_monitor (st : Process) (call : nat)
    (parameters : gmap string Z) (flags : Z) (userdata : Z)
    (os_open : Z) (files : sd_journal) : Z * Process :=
  let epoll_fd := userdata in
  let more := negb (Z.land flags VARLINK_CALL_MORE =? 0) in
  let '(r, monitor, st) := monitor_new st call epoll_fd os_open files in
  if r <? 0 then (r, cleanup_monitor st monitor) else
  match monitor with
  | None => (r, st)  (* [monitor_new] sets [*monitorp] when it returns 0 *)
  | Some p =>
  let initial_lines := default 10 (parameters !! "initial_lines"%string) in
  if initial_lines <? 0 then
    let '(r, st) :=
      on_call (λ c, varlink_call_reply_invalid_parameter c "initial_lines") st call in
    (r, cleanup_monitor st (Some p))
  else
  let '(r, m) :=
    on_journal (λ j, sd_journal_previous_skip j ((initial_lines + 1) `mod` 2 ^ 64))
               (deref st p) in
  let st := store st p m in
  if r <? 0 then (r, cleanup_monitor st (Some p)) else
  let '(r, m, entries) := monitor_read_entries m in
  let st := store st p m in
  if r <? 0 then (r, cleanup_monitor st (Some p)) else
  let '(r, st) :=
    on_call (λ c, varlink_call_reply c entries
                    (if more then VARLINK_REPLY_CONTINUES else 0)) st call in
  if r <? 0 then (r, cleanup_monitor st (Some p)) else
  if more then
    let st := set_calls st
      (alter (λ c, varlink_call_set_connection_closed_callback c p) call (calls st)) in
    (0, st)
  else (0, cleanup_monitor st (Some p))
  end.

(** ** The event loop *)

(** What the transport does inside [varlink_service_process_events]: it
    hands a new call of the method [Monitor] to the handler (with what the
    system answers to the handler's [sd_journal_open]), or it runs the
    connection-closed callback of a call whose client is gone. *)
Inductive upcall :=
  | Incoming (call : nat) (error : Z) (parameters : gmap string Z) (flags : Z)
             (os_open : Z) (files : sd_journal)
  | Closed (call : nat).

(** One wake-up of [epoll_wait(epoll_fd, &event, 1, -1)]: a failure with its
    [errno], no event, or one ready registration: the service descriptor
    (with the work the transport finds and the value
    [varlink_service_process_events] returns), the signal descriptor (with
    the size and the signal number [read] delivers) or a monitor. *)
Inductive wakeup :=
  | Wait_failed (errno : Z)
  | Wait_nothing
  | Ready_service (work : list upcall) (r : Z)
  | Ready_signal (size : Z) (signo : Z)
  | Ready_monitor (p : nat).

Inductive outcome :=
  | Running (st : Process)
  | Exited (status : Z) (st : Process).

(** main.c, lines 48-52. *)
Definition exit_error (error : Z) : Z := error.

Definition sizeof_signalfd_siginfo : Z := 128.

(** main.c, lines 342-351. *)
Definition read_signal (size signo : Z) : Z :=
  if negb (size =? sizeof_signalfd_siginfo) then - EIO else signo.

(** The transport creates the call object (one reference, its own) before
    it invokes the handler registered in [main] with the epoll descriptor as
    user data; a callback is run once. *)
Definition run_upcall (epoll_fd : Z) (st : Process) (u : upcall) : Process :=
  match u with
  | Incoming call error parameters flags os_open files =>
      let c := {| c_refs := 1; c_replies := []; c_closed_callback := None;
                  c_error := error |} in
      let st := set_calls st (<[call := c]> (calls st)) in
      snd (com_redhat_logging_monitor st call parameters flags epoll_fd os_open files)
  | Closed call =>
      match calls st !! call with
      | Some c =>
          match c_closed_callback c with
          | Some userdata =>
              let c := {| c_refs := c_refs c; c_replies := c_replies c;
                          c_closed_callback := None; c_error := c_error c |} in
              monitor_canceled (set_calls st (<[call := c]> (calls st))) userdata
          | None => st
          end
      | None => st
      end
  end.

Definition varlink_service_process_events (epoll_fd : Z) (st : Process)
    (work : list upcall) (r : Z) : Z * Process :=
  (r, foldl (run_upcall epoll_fd) st work).

(** [monitor_dispatch] on the monitor at address [p] of the process. *)
Definition dispatch_at (st : Process) (p : nat) : Z * Process :=
  let monitor := deref st p in
  let cid := call monitor in
  match calls st !! cid with
  | None => (0, st)
  | Some c =>
      let '(r, monitor, c) := monitor_dispatch monitor c in
      (r, set_calls (store st p monitor) (<[cid := c]> (calls st)))
  end.

(** main.c, lines 417-472: one iteration of the loop of [main]. *)
Definition main_step (epoll_fd : Z) (st : Process) (w : wakeup) : outcome :=
  match w with
  | Wait_failed errno =>
      if errno =? EINTR then Running st
      else Exited (exit_error ERROR_PANIC) st
  | Wait_nothing => Running st
  | Ready_service work r =>
      let '(r, st) := varlink_service_process_events epoll_fd st work r in
      if r =? 0 then Running st
      else if r =? - VARLINK_ERROR_PANIC then Exited (exit_error ERROR_PANIC) st
      else Running st
  | Ready_signal size signo =>
      let s := read_signal size signo in
      if (s =? SIGTERM) || (s =? SIGINT) then Exited EXIT_SUCCESS st
      else Exited (exit_error ERROR_PANIC) st
  | Ready_monitor p =>
      let '(r, st) := dispatch_at st p in
      if r =? 0 then Running st
      else if r =? - VARLINK_ERROR_PANIC then Exited (exit_error ERROR_PANIC) st
      else Running st
  end.

(** The loop, over the wake-ups the system delivers. *)
Fixpoint main_loop (epoll_fd : Z) (st : Process) (ws : list wakeup) : outcome :=
  match ws with
  | [] => Running st
  | w :: ws' =>
      match main_step epoll_fd st w with
      | Running st' => main_loop epoll_fd st' ws'
      | Exited status st' => Exited status st'
      end
  end.

(** ** libc: [getopt_long]

    The model follows getopt(3) as glibc implements it, for the features the
    one call of [main] can reach: short options with and without a required
    argument, long options with [no_argument] or [required_argument] and a
    NULL [flag], abbreviated long names, the argument ["--"] that ends the
    options, and the permutation of the arguments that are no options (they
    are skipped).  The environment variable POSIXLY_CORRECT is taken as
    unset. *)

(** An entry of the [struct option] table: the name, whether the option
    takes an argument ([required_argument]) and [val], the value the call
    returns for the option. *)
Record long_option := {
  lo_name : string;
  lo_has_arg : bool;
  lo_val : ascii
}.

(** What one call returns: the character and [optarg], which glibc sets to
    NULL at the begin of every call. *)
Definition getopt_result : Type := ascii * option string.

(** The declaration of the option character [c] in the option string:
    whether it takes an argument.  A colon and a semicolon are no option
    characters. *)
Fixpoint short_option (optstring : string) (c : ascii) : option bool :=
  match optstring with
  | EmptyString => None
  | String o rest =>
      if Ascii.eqb c ":" || Ascii.eqb c ";" then None
      else if Ascii.eqb o c then
        Some (match rest with
              | String next _ => Ascii.eqb next ":"
              | EmptyString => false
              end)
      else short_option rest c
  end.

(** The option characters of one argument, the dash left out: a result for
    each; an option with an argument takes the rest of the argument, and the
    next argument when nothing is left, which the second component asks
    for. *)
Fixpoint getopt_short (optstring : string) (cluster : string)
  : list getopt_result * option ascii :=
  match cluster with
  | EmptyString => ([], None)
  | String c rest =>
      match short_option optstring c with
      | None =>
          let '(results, wants) := getopt_short optstring rest in
          (("?"%char, None) :: results, wants)
      | Some false =>
          let '(results, wants) := getopt_short optstring rest in
          ((c, None) :: results, wants)
      | Some true =>
          match rest with
          | EmptyString => ([], Some c)
          | _ => ([(c, Some rest)], None)
          end
      end
  end.

(** ["name=value"] at the first equals sign. *)
Fixpoint split_equals (s : string) : string * option string :=
  match s with
  | EmptyString => (EmptyString, None)
  | String c rest =>
      if Ascii.eqb c "=" then (EmptyString, Some rest)
      else let '(name, value) := split_equals rest in (String c name, value)
  end.

(** The entry a long name stands for: the entry of that name, else the one
    entry the name is a prefix of; none when the name is unknown or
    ambiguous (entries that agree in [has_arg] and [val] are not). *)
Definition find_long (longopts : list long_option) (name : string)
  : option long_option :=
  match List.filter (λ o, String.eqb (lo_name o) name) longopts with
  | o :: _ => Some o
  | [] =>
      match List.filter (λ o, String.prefix name (lo_name o)) longopts with
      | [] => None
      | o :: others =>
          if forallb (λ o', Bool.eqb (lo_has_arg o') (lo_has_arg o)
                            && Ascii.eqb (lo_val o') (lo_val o)) others
          then Some o else None
      end
  end.

(** The results of the successive calls of
    [getopt_long(argc, argv, optstring, longopts, NULL)] until it returns
    -1; [args] are the arguments after [argv[0]]. *)
Fixpoint getopt_long (optstring : string) (longopts : list long_option)
    (args : list string) : list getopt_result :=
  let missing : getopt_result :=
    (match optstring with String ":" _ => ":" | _ => "?" end%char, None) in
  match args with
  | [] => []
  | arg :: rest =>
      if String.eqb arg "--" then []
      else if String.prefix "--" arg then
        let '(name, value) := split_equals (string_drop 2 arg) in
        match find_long longopts name with
        | None => ("?"%char, None) :: getopt_long optstring longopts rest
        | Some o =>
            match value, lo_has_arg o with
            | Some v, true =>
                (lo_val o, Some v) :: getopt_long optstring longopts rest
            | Some _, false =>
                ("?"%char, None) :: getopt_long optstring longopts rest
            | None, false =>
                (lo_val o, None) :: getopt_long optstring longopts rest
            | None, true =>
                match rest with
                | next :: rest' =>
                    (lo_val o, Some next) :: getopt_long optstring longopts rest'
                | [] => [missing]
                end
            end
        end
      else
        match arg with
        | String "-" (String c cluster) =>
            let '(results, wants) := getopt_short optstring (String c cluster) in
            match wants with
            | None => results ++ getopt_long optstring longopts rest
            | Some o =>
                match rest with
                | next :: rest' =>
                    results ++ (o, Some next) :: getopt_long optstring longopts rest'
                | [] => results ++ [missing]
                end
            end
        | _ => getopt_long optstring longopts rest
        end
  end.

(** ** The start of the service *)

(** main.c, lines 357-361. *)
Definition options : list long_option :=
  [ {| lo_name := "varlink"; lo_has_arg := true; lo_val := "v" |};
    {| lo_name := "help"; lo_has_arg := false; lo_val := "h" |} ].

(** main.c, lines 367-382: the loop over the options.  [address] is the
    local of that name (NULL is [None]); the result is [None] when the loop
    is left by the [return] of the case 'h', and else the address. *)
Fixpoint parse_options (results : list getopt_result) (address : option string)
  : option (option string) :=
  match results with
  | [] => Some address
  | (c, optarg) :: rest =>
      if Ascii.eqb c "h" then None
      else if Ascii.eqb c "v" then parse_options rest optarg
      else parse_options rest address
  end.

(** [sigset_t] as the list of its signals. *)
Definition sigemptyset : list Z := [].
Definition sigaddset (mask : list Z) (signo : Z) : list Z := signo :: mask.

(** main.c, lines 331-340.  [signalfd] is what the system answers for the
    mask; the result is the mask, which [sigprocmask] has blocked, and the
    descriptor. *)
Definition make_signalfd (signalfd : list Z → Z) : list Z * Z :=
  let mask := sigemptyset in
  let mask := sigaddset mask SIGTERM in
  let mask := sigaddset mask SIGINT in
  (mask, signalfd mask).

(** What the system and libvarlink answer while [main] sets the service up:
    [read(3, NULL, 0)], [varlink_service_new] for an address and a listen
    descriptor (the returned value and the descriptor of the service),
    [signalfd], [epoll_create1] and [varlink_service_add_interface]. *)
Record system := {
  sys_read3 : Z;
  sys_service_new : string → Z → Z * Z;
  sys_signalfd : list Z → Z;
  sys_epoll_create1 : Z;
  sys_add_interface : Z
}.

(** A process before it has registered or created anything. *)
Definition no_process : Process := {| epoll := ∅; monitors := ∅; calls := ∅ |}.

(** main.c, lines 353-475: [argv], the answers of the system to the set-up
    and the wake-ups the loop gets.  The texts written to the standard
    streams are left out, and so is the clean-up of the locals at a
    [return], which closes the descriptors and frees the service as the
    process ends. *)
Definition main (argv : list string) (sys : system) (ws : list wakeup) : outcome :=
  match parse_options (getopt_long ":vh" options (tail argv)) None with
  | None => Exited EXIT_SUCCESS no_process
  | Some None => Exited (exit_error ERROR_MISSING_ADDRESS) no_process
  | Some (Some address) =>
      (* An activator passed us our listen socket. *)
      let fd := if sys_read3 sys =? 0 then 3 else -1 in
      let '(r, service_fd) := sys_service_new sys address fd in
      if r <? 0 then Exited (exit_error ERROR_PANIC) no_process else
      let '(_, signal_fd) := make_signalfd (sys_signalfd sys) in
      if signal_fd <? 0 then Exited (exit_error ERROR_PANIC) no_process else
      let epoll_fd := sys_epoll_create1 sys in
      if epoll_fd <? 0 then Exited (exit_error ERROR_PANIC) no_process else
      let '(r, _, st) := epoll_add no_process service_fd Ptr_service in
      if r <? 0 then Exited (exit_error ERROR_PANIC) st else
      let '(r, _, st) := epoll_add st signal_fd Ptr_null in
      if r <? 0 then Exited (exit_error ERROR_PANIC) st else
      if sys_add_interface sys <? 0 then Exited (exit_error ERROR_PANIC) st else
      main_loop epoll_fd st ws
  end.

(** * The vocabulary of the properties *)

(** ** Texts *)

(** The C string a buffer holds: its bytes up to the first NUL. *)
Definition c_string (v : string) : string := strndup v (String.length v).

Fixpoint nul_free (v : string) : bool :=
  match v with
  | String c v' => negb (is_nul c) && nul_free v'
  | EmptyString => true
  end.

Fixpoint all_digits (s : string) : bool :=
  match s with
  | String c s' => isdigit c && all_digits s'
  | EmptyString => true
  end.

Definition starts_with_digit (s : string) : bool :=
  match s with
  | String c _ => isdigit c
  | EmptyString => false
  end.

(** ** What the translator yields for a record

    These definitions say in terms of the record alone what
    [journal_read_next_entry] computes when no library call fails; the
    lemmas [journal_read_next_entry_spec] and [journal_read_next_entry_inv]
    prove it of the code. *)

(** The name of a level: the table of [priorities] on 0..7. *)
Definition severity_name (priority : Z) : option string :=
  if (0 <=? priority) && (priority <=? 7) then priorities !! Z.to_nat priority
  else None.

(** The value the local [priority] holds after the look-up of PRIORITY. *)
Definition record_priority (e : entry) : Z :=
  match find_field "PRIORITY" (e_data e) with
  | Some text => fst (strtoll (c_string text))
  | None => -1
  end.

Definition record_process (e : entry) : option string :=
  match find_field "SYSLOG_IDENTIFIER" (e_data e) with
  | Some v => Some (c_string v)
  | None =>
      match find_field "_COMM" (e_data e) with
      | Some v => Some (c_string v)
      | None => None
      end
  end.

Definition wire_entry (e : entry) : WireEntry :=
  {| we_cursor := e_cursor e;
     we_time := snd (format_time_rfc3339 (e_realtime e));
     we_message := default EmptyString (c_string <$> find_field "MESSAGE" (e_data e));
     we_priority := severity_name (record_priority e);
     we_process := record_process e |}.

(** 0 when the record can be translated, else the code the translator
    returns for it. *)
Definition translation_error (e : entry) : Z :=
  if fst (format_time_rfc3339 (e_realtime e)) <? 0 then - EINVAL
  else match find_field "MESSAGE" (e_data e) with
       | None => - ENOENT
       | Some _ =>
           match find_field "PRIORITY" (e_data e) with
           | Some text =>
               if (snd (strtoll (c_string text)) =? 0)%nat then - EINVAL else 0
           | None => 0
           end
       end.

(** Every record of the list can be translated. *)
Definition translatable (es : list entry) : Prop :=
  ∀ k e, es !! k = Some e → translation_error e = 0.

(** A record as the journal stores it: the time stamp is a [uint64_t]. *)
Definition entry_wf (e : entry) : Prop := 0 ≤ e_realtime e < 2 ^ 64.

(** No call the translator makes fails by itself on this handle. *)
Definition reads_work (j : sd_journal) : Prop :=
  (j_fault j In_next <? 0) = false ∧
  (j_fault j In_get_cursor <? 0) = false ∧
  (j_fault j In_get_realtime_usec <? 0) = false ∧
  (j_fault j In_get_data <? 0) = false.

(** The position the read pointer ends at when all remaining records are
    read. *)
Definition end_of_journal (j : sd_journal) : sd_journal :=
  if (next_index j <? length (j_entries j))%nat
  then set_location j (LOCATION_DISCRETE (length (j_entries j) - 1))
  else j.

(** The read pointer is not a cursor whose record is gone. *)
Definition cursor_known (j : sd_journal) : Prop :=
  ∀ c, j_location j = LOCATION_SEEK c → is_Some (find_cursor c (j_entries j)).

(** ** Calls and replies *)

Definition add_reply (c : VarlinkCall) (reply : Reply) : VarlinkCall :=
  {| c_refs := c_refs c; c_replies := c_replies c ++ [reply];
     c_closed_callback := c_closed_callback c; c_error := c_error c |}.

(** The replies sent so far on the call [cid]. *)
Definition replies_of (st : Process) (cid : nat) : list Reply :=
  default [] (c_replies <$> calls st !! cid).

(** The calls [cs'] are the calls [cs] but for the call [cid], whose
    closed-connection callback is the same. *)
Definition calls_like (cid : nat) (cs cs' : gmap nat VarlinkCall) : Prop :=
  (∀ cid', cid' ≠ cid → cs' !! cid' = cs !! cid') ∧
  c_closed_callback <$> cs' !! cid = c_closed_callback <$> cs !! cid.

(** ** Sessions *)

(** [monitor_new] fails: the journal does not open, or its descriptor is
    invalid, or the seek to the tail fails. *)
Definition set_up_fails (os_open : Z) (files : sd_journal) : bool :=
  (os_open <? 0) || (j_fd files <? 0) || (j_fault files In_seek_tail <? 0).

(** A monitor of the call [cid] whose journal is open on the descriptor
    [fd]. *)
Definition opened (fd : Z) (cid : nat) (m : Monitor) : Prop :=
  call m = cid ∧ ∃ j, journal m = Some j ∧ j_fd j = fd.

(** The process [st] with one more monitor [m] at the address [p], its
    journal descriptor [fd] registered, and the calls [cs]. *)
Definition with_session (st : Process) (fd : Z) (p : nat) (m : Monitor)
    (cs : gmap nat VarlinkCall) : Process :=
  {| epoll := <[fd := Ptr_monitor p]> (epoll st);
     monitors := <[p := m]> (monitors st);
     calls := cs |}.

(** The monitor at [p] is registered. *)
Definition registered (st : Process) (p : nat) : Prop :=
  ∃ fd, epoll st !! fd = Some (Ptr_monitor p).

(** The monitor at [p] is live, its reader is open and its session
    negotiated continuous streaming: the call it holds has the
    closed-connection callback set for it. *)
Definition streaming (st : Process) (p : nat) : Prop :=
  ∃ m j c, monitors st !! p = Some m ∧ journal m = Some j ∧
           calls st !! call m = Some c ∧ c_closed_callback c = Some p.

(** The invariant of the loop: a registration with a monitor address is
    that of a live monitor with its journal open on that descriptor; a live
    monitor is registered under the descriptor of its journal and its call
    has the callback set for it; a callback is set for a live monitor of
    that call. *)
Record consistent (st : Process) : Prop := {
  registered_live : ∀ fd p,
    epoll st !! fd = Some (Ptr_monitor p) →
    ∃ m, monitors st !! p = Some m ∧ opened fd (call m) m;
  live_registered : ∀ p m,
    monitors st !! p = Some m →
    ∃ j c, journal m = Some j ∧
           epoll st !! j_fd j = Some (Ptr_monitor p) ∧
           calls st !! call m = Some c ∧ c_closed_callback c = Some p;
  callback_live : ∀ cid c p,
    calls st !! cid = Some c → c_closed_callback c = Some p →
    ∃ m, monitors st !! p = Some m ∧ call m = cid
}.

(** ** The loop and the system around it *)

Definition exit_status (o : outcome) : option Z :=
  match o with
  | Running _ => None
  | Exited status _ => Some status
  end.

Definition process_of (o : outcome) : Process :=
  match o with
  | Running st => st
  | Exited _ st => st
  end.

(** The process when the loop of [main] starts (main.c, lines 405-409): the
    service and the signal descriptor are registered, nothing else is
    there. *)
Definition started (service_fd signal_fd : Z) : Process :=
  {| epoll := <[signal_fd := Ptr_null]> {[ service_fd := Ptr_service ]};
     monitors := ∅; calls := ∅ |}.

(** What the system guarantees of the work it hands in: a new call has a
    number no call has, and a new journal handle a descriptor that is not
    registered. *)
Definition upcall_ok (st : Process) (u : upcall) : Prop :=
  match u with
  | Incoming cid _ _ _ _ files =>
      calls st !! cid = None ∧ epoll st !! j_fd files = None
  | Closed _ => True
  end.

Fixpoint upcalls_ok (epfd : Z) (st : Process) (work : list upcall) : Prop :=
  match work with
  | [] => True
  | u :: work' => upcall_ok st u ∧ upcalls_ok epfd (run_upcall epfd st u) work'
  end.

(** [epoll_wait] reports registered descriptors only. *)
Definition wakeup_ok (epfd : Z) (st : Process) (w : wakeup) : Prop :=
  match w with
  | Ready_service work _ => upcalls_ok epfd st work
  | Ready_monitor p => registered st p
  | _ => True
  end.

Fixpoint wakeups_ok (epfd : Z) (st : Process) (ws : list wakeup) : Prop :=
  match ws with
  | [] => True
  | w :: ws' =>
      wakeup_ok epfd st w ∧
      match main_step epfd st w with
      | Running st' => wakeups_ok epfd st' ws'
      | Exited _ _ => True
      end
  end.

(** ** Numbers and time stamps as texts *)

(** White space only. *)
Fixpoint all_space (s : string) : bool :=
  match s with
  | String c s' => isspace c && all_space s'
  | EmptyString => true
  end.

(** The sign a number is written with. *)
Inductive sign_text : string → bool → Prop :=
  | sign_none : sign_text "" false
  | sign_plus : sign_text "+" false
  | sign_minus : sign_text "-" true.

(** A text of two decimal digits. *)
Definition two_digit_text (s : string) : bool :=
  match s with
  | String a (String b EmptyString) => isdigit a && isdigit b
  | _ => false
  end.

(** A text of four decimal digits. *)
Definition four_digit_text (s : string) : bool :=
  match s with
  | String a (String b (String c (String d EmptyString))) =>
      isdigit a && isdigit b && isdigit c && isdigit d
  | _ => false
  end.

(** A text of the form [YYYY-MM-DD hh:mm:ssZ]. *)
Definition timestamp_text (s : string) : bool :=
  match s with
  | String y1 (String y2 (String y3 (String y4 (String "-"
      (String m1 (String m2 (String "-" (String d1 (String d2 (String " "
      (String h1 (String h2 (String ":" (String n1 (String n2 (String ":"
      (String s1 (String s2 (String "Z" EmptyString))))))))))))))))))) =>
      forallb isdigit [y1; y2; y3; y4; m1; m2; d1; d2; h1; h2; n1; n2; s1; s2]
  | _ => false
  end.

(** The day count of a date of the proleptic Gregorian calendar, from
    1970-01-01: the inverse of [civil_from_days]. *)
Definition days_from_civil (y m d : Z) : Z :=
  let y := if m <=? 2 then y - 1 else y in
  let era := y / 400 in
  let yoe := y - era * 400 in
  let doy := (153 * (if 2 <? m then m - 3 else m + 9) + 2) / 5 + d - 1 in
  let doe := yoe * 365 + yoe / 4 - yoe / 100 + doy in
  era * 146097 + doe - 719468.

(** The seconds since the epoch of a broken-down time ([timegm]). *)
Definition timegm (t : tm) : Z :=
  days_from_civil (tm_year t) (tm_mon t) (tm_mday t) * 86400
  + tm_hour t * 3600 + tm_min t * 60 + tm_sec t.

(** A broken-down time whose year is not negative and whose other fields
    have two digits at most, as [gmtime_r] returns it for a time that is
    not negative. *)
Definition tm_valid (t : tm) : Prop :=
  0 ≤ tm_year t ∧ 0 ≤ tm_mon t ≤ 99 ∧ 0 ≤ tm_mday t ≤ 99 ∧
  0 ≤ tm_hour t ≤ 99 ∧ 0 ≤ tm_min t ≤ 99 ∧ 0 ≤ tm_sec t ≤ 99.

(** ** A monitor over several wake-ups *)

(** [n] wake-ups of a monitor in a row, as the loop of [main] runs them: the
    next one only after a dispatch that returned 0. *)
Fixpoint dispatches (n : nat) (m : Monitor) (c : VarlinkCall)
  : Z * Monitor * VarlinkCall :=
  match n with
  | O => (0, m, c)
  | S n' =>
      let '(r, m', c') := monitor_dispatch m c in
      if r =? 0 then dispatches n' m' c' else (r, m', c')
  end.

(** The read pointer is at the last record of the journal. *)
Definition at_last_record (j : sd_journal) : Prop :=
  ∃ i, j_location j = LOCATION_DISCRETE i ∧ S i = length (j_entries j).

(** The entries a list of replies carries, in the order they were sent. *)
Definition reply_entries (replies : list Reply) : list WireEntry :=
  concat ((λ reply, match reply with
                    | Reply_entries entries _ => entries
                    | Reply_invalid_parameter _ => []
                    end) <$> replies).

(** The reply of a streaming dispatch for a batch of records; none for an
    empty batch. *)
Definition batch_reply (batch : list entry) : list Reply :=
  match batch with
  | [] => []
  | _ => [Reply_entries (wire_entry <$> batch) VARLINK_REPLY_CONTINUES]
  end.

(** ** The command line *)

(** The result is that of the option character [c]. *)
Definition is_option (c : ascii) (r : getopt_result) : bool := Ascii.eqb r.1 c.

(** * Sample data

    Three records, with the levels 6, 3 and none, and handles on them on
    which every call works. *)

Definition no_fault : sd_call → Z := λ _, 0.

Definition boot_ok : entry :=
  Entry "s=1;i=1" 1700000000000000
        [("MESSAGE", "boot ok"); ("PRIORITY", "6"); ("_COMM", "systemd")]%string.

Definition disk_warn : entry :=
  Entry "s=1;i=2" 1700000001500000
        [("PRIORITY", "3"); ("MESSAGE", "disk warn");
         ("SYSLOG_IDENTIFIER", "smartd"); ("_COMM", "smartd-bin")]%string.

Definition heartbeat : entry :=
  Entry "s=1;i=3" 1700000002999999 [("MESSAGE", "heartbeat")]%string.

Definition three_records : list entry := [boot_ok; disk_warn; heartbeat].

(** A record whose PRIORITY has text after the number, one whose PRIORITY
    has no number, and one without a MESSAGE field. *)
Definition odd_level : entry :=
  Entry "s=1;i=4" 1700000003000000
        [("MESSAGE", "fan"); ("PRIORITY", "3extra")]%string.

Definition no_level : entry :=
  Entry "s=1;i=5" 1700000004000000
        [("MESSAGE", "noise"); ("PRIORITY", "high")]%string.

Definition no_message : entry :=
  Entry "s=1;i=6" 1700000005000000 [("PRIORITY", "3")]%string.

Definition sample_journal (es : list entry) (l : location) : sd_journal :=
  {| j_entries := es; j_location := l; j_fd := 7; j_changes := [];
     j_fault := no_fault |}.

(** A new handle on the three records with changes still to process. *)
Definition tailing (fd : Z) (changes : list change) : sd_journal :=
  {| j_entries := three_records; j_location := LOCATION_HEAD; j_fd := fd;
     j_changes := changes; j_fault := no_fault |}.

Definition sample_monitor (es : list entry) (l : location) (c : option string)
  : Monitor :=
  {| call := 1; journal := Some (sample_journal es l); cursor := c;
     epoll_fd := 4 |}.

(** A process with the service and signal descriptors registered and one
    call, numbered 1, that takes replies. *)
Definition idle_process : Process :=
  {| epoll := {[ 3 := Ptr_service; 5 := Ptr_null ]};
     monitors := ∅;
     calls := {[ 1%nat := {| c_refs := 1; c_replies := [];
                             c_closed_callback := None; c_error := 0 |} ]} |}.

(** A run of the loop: a call that asks for more replies, a wake-up of its
    monitor, a call that does not, and the first client going away. *)
Definition sample_run : list wakeup :=
  [Ready_service [Incoming 1 0 ∅ 1 0 (tailing 7 [Append [odd_level]])] 0;
   Ready_monitor 0;
   Ready_service [Incoming 2 0 ∅ 0 0 (tailing 8 [])] 0;
   Ready_service [Closed 1] 0].

(** Two clients asked for a stream: the calls 1 and 2, with the monitors at
    the addresses 0 and 1.  A record that has no message is about to
    appear in the journal of the first. *)
Definition two_sessions : Process :=
  foldl (run_upcall 4)
    {| epoll := {[ 3 := Ptr_service; 5 := Ptr_null ]}; monitors := ∅;
       calls := ∅ |}
    [Incoming 1 0 ∅ 1 0 (tailing 7 [Append [no_message]]);
     Incoming 2 0 ∅ 1 0 (tailing 8 [])].

(** A monitor that delivered the three records and holds the cursor of the
    last; the journal is rotated: the oldest record is gone and a new one
    is there. *)
Definition resumed_monitor : Monitor :=
  {| call := 1;
     journal := Some {| j_entries := three_records;
                        j_location := LOCATION_DISCRETE 2; j_fd := 7;
                        j_changes := [Invalidate [disk_warn; heartbeat; odd_level]];
                        j_fault := no_fault |};
     cursor := Some "s=1;i=3"%string;
     epoll_fd := 4 |}.

Definition open_call : VarlinkCall :=
  {| c_refs := 2; c_replies := []; c_closed_callback := Some O; c_error := 0 |}.

(** * Lemmas *)

(** ** Texts *)

Lemma c_string_nul_free v : nul_free v = true → c_string v = v.
Proof.
  unfold c_string. induction v as [|c v IH]; simpl; [done|].
  intros [Hc Hv]%andb_true_iff. apply negb_true_iff in Hc. rewrite Hc.
  by rewrite IH.
Qed.

Lemma string_length_append a b :
  String.length (a +:+ b) = (String.length a + String.length b)%nat.
Proof. induction a as [|c a IH]; simpl; [done|]. by rewrite IH. Qed.

Lemma string_drop_field field c v :
  string_drop (String.length field + 1) (field +:+ String c v) = v.
Proof. induction field as [|d field IH]; simpl; done. Qed.

(** ** The helpers of the translator at a current record *)

Section current.
Variable j : sd_journal.
Variable e : entry.
Hypothesis Hcur : current_entry j = Some e.
Hypothesis Hdata : (j_fault j In_get_data <? 0) = false.

Lemma journal_get_string_current field :
  journal_get_string j field =
  match find_field field (e_data e) with
  | Some v => (0, c_string v)
  | None => (- ENOENT, EmptyString)
  end.
Proof.
  unfold journal_get_string, sd_journal_get_data. rewrite Hdata, Hcur.
  destruct (find_field field (e_data e)) as [v|]; [|done].
  cbn [Z.ltb Z.compare]. unfold strlen.
  change ("=" +:+ v) with (String "=" v).
  rewrite string_length_append. cbn [String.length].
  destruct (_ <? _)%nat eqn:Hlt; [apply Nat.ltb_lt in Hlt; lia|].
  rewrite string_drop_field. unfold c_string. do 2 f_equal. lia.
Qed.

Lemma journal_get_int_current field number0 :
  journal_get_int j field number0 =
  match find_field field (e_data e) with
  | Some text =>
      if (snd (strtoll (c_string text)) =? 0)%nat then (- EINVAL, number0)
      else (0, fst (strtoll (c_string text)))
  | None => (- ENOENT, number0)
  end.
Proof.
  unfold journal_get_int. rewrite journal_get_string_current.
  destruct (find_field field (e_data e)) as [v|]; [|done].
  cbn [Z.ltb Z.compare]. by destruct (strtoll (c_string v)).
Qed.
End current.

(** ** The translator, record by record *)

Lemma format_time_rfc3339_fst usec :
  fst (format_time_rfc3339 usec) = 0 ∨ fst (format_time_rfc3339 usec) = - EINVAL.
Proof. unfold format_time_rfc3339. destruct (gmtime_r _); simpl; auto. Qed.

Lemma translation_error_nonpos e : translation_error e ≤ 0.
Proof.
  unfold translation_error.
  destruct (_ <? 0); [done|].
  destruct (find_field "MESSAGE" _); [|done].
  destruct (find_field "PRIORITY" _); [|done].
  by destruct (_ =? _)%nat.
Qed.

Lemma journal_read_next_entry_spec j :
  reads_work j →
  journal_read_next_entry j =
  match j_entries j !! next_index j with
  | None => (0, j, None)
  | Some e =>
      let j' := set_location j (LOCATION_DISCRETE (next_index j)) in
      if translation_error e =? 0 then (1, j', Some (wire_entry e))
      else (translation_error e, j', None)
  end.
Proof.
  intros (Hn & Hc & Hu & Hd).
  unfold journal_read_next_entry, sd_journal_next. rewrite Hn.
  destruct (next_index j <? length (j_entries j))%nat eqn:Hi.
  2:{ apply Nat.ltb_ge in Hi. by rewrite (lookup_ge_None_2 _ _ Hi). }
  apply Nat.ltb_lt in Hi.
  destruct (lookup_lt_is_Some_2 _ _ Hi) as [e He]. rewrite He.
  set (j' := set_location j (LOCATION_DISCRETE (next_index j))).
  assert (Hcur : current_entry j' = Some e) by done.
  cbn [Z.leb Z.compare].
  unfold sd_journal_get_cursor, sd_journal_get_realtime_usec.
  change (j_fault j') with (j_fault j). rewrite Hc, Hu, Hcur.
  cbn [Z.ltb Z.compare].
  rewrite !(journal_get_string_current j' e Hcur Hd).
  rewrite (journal_get_int_current j' e Hcur Hd).
  unfold translation_error, wire_entry, record_priority, record_process,
    severity_name.
  destruct (format_time_rfc3339 (e_realtime e)) as [rt timestr] eqn:Ht.
  pose proof (format_time_rfc3339_fst (e_realtime e)) as Hrt.
  rewrite Ht in Hrt. cbn [fst snd] in *.
  destruct Hrt as [-> | ->]; [|done]. cbn [Z.ltb Z.compare].
  destruct (find_field "MESSAGE" (e_data e)) as [message|]; [|done].
  cbn [Z.ltb Z.compare].
  destruct (find_field "PRIORITY" (e_data e)) as [text|].
  - destruct (snd (strtoll (c_string text)) =? 0)%nat; [done|].
    cbn [Z.ltb Z.eqb Z.compare andb].
    destruct (find_field "SYSLOG_IDENTIFIER" (e_data e)),
      (find_field "_COMM" (e_data e)); done.
  - cbn [Z.ltb Z.eqb Z.compare andb negb ENOENT Z.opp Pos.eqb].
    destruct (find_field "SYSLOG_IDENTIFIER" (e_data e)),
      (find_field "_COMM" (e_data e)); done.
Qed.

(** Whatever the handle, the translator yields an entry only with 1, and
    then no call failed. *)
Lemma journal_read_next_entry_works j r j' w :
  journal_read_next_entry j = (r, j', Some w) → reads_work j.
Proof.
  unfold journal_read_next_entry, sd_journal_next, reads_work.
  destruct (j_fault j In_next <? 0) eqn:Hn.
  { destruct (_ <=? 0) eqn:?; [done | lia]. }
  destruct (next_index j <? length (j_entries j))%nat; [|done].
  set (j1 := set_location j _). cbn [Z.leb Z.compare].
  unfold sd_journal_get_cursor, sd_journal_get_realtime_usec.
  change (j_fault j1) with (j_fault j).
  destruct (j_fault j In_get_cursor <? 0) eqn:Hc; [by rewrite Hc|].
  destruct (current_entry j1); [|done]. cbn [Z.ltb Z.compare].
  destruct (j_fault j In_get_realtime_usec <? 0) eqn:Hu; [by rewrite Hu|].
  cbn [Z.ltb Z.compare].
  destruct (format_time_rfc3339 _) as [rt ?]. destruct (rt <? 0); [done|].
  unfold journal_get_string at 1. unfold sd_journal_get_data.
  change (j_fault j1) with (j_fault j).
  destruct (j_fault j In_get_data <? 0) eqn:Hd; [|done].
  simpl. by rewrite ?Hd.
Qed.

Lemma journal_read_next_entry_inv j r j' w :
  journal_read_next_entry j = (r, j', Some w) →
  ∃ e, j_entries j !! next_index j = Some e ∧
       j' = set_location j (LOCATION_DISCRETE (next_index j)) ∧
       r = 1 ∧ translation_error e = 0 ∧ w = wire_entry e ∧ reads_work j.
Proof.
  intros H. pose proof (journal_read_next_entry_works _ _ _ _ H) as Hw.
  rewrite (journal_read_next_entry_spec _ Hw) in H.
  destruct (j_entries j !! next_index j) as [e|]; [|done].
  exists e. cbn zeta in H.
  destruct (translation_error e =? 0) eqn:He; [|done].
  apply Z.eqb_eq in He. by injection H as <- <- <-.
Qed.

(** The translator returns 1 with an entry, or at most 0 without one; when
    it returns 0 the journal is as before and has no further record. *)
Lemma journal_read_next_entry_cases j r j' o :
  journal_read_next_entry j = (r, j', o) →
  (r = 1 ∧ is_Some o) ∨ (r < 0 ∧ o = None) ∨
  (r = 0 ∧ o = None ∧ j' = j ∧ (length (j_entries j) ≤ next_index j)%nat).
Proof.
  destruct o as [w|].
  { intros (e & _ & _ & -> & _)%journal_read_next_entry_inv. left. eauto. }
  intros H. right. destruct (Z.lt_trichotomy r 0) as [?|[->|Hpos]]; [by left| |].
  - right. revert H. unfold journal_read_next_entry, sd_journal_next.
    destruct (j_fault j In_next <? 0) eqn:Hn.
    { destruct (_ <=? 0) eqn:?; [|lia]. intros [= Hr _]. lia. }
    destruct (next_index j <? length (j_entries j))%nat eqn:Hi.
    2:{ apply Nat.ltb_ge in Hi. by intros [= <-]. }
    cbn [Z.leb Z.compare].
    repeat (match goal with
            | |- context [let '(_, _) := ?x in _] => destruct x as [? ?] eqn:?
            | |- (if ?b then _ else _) = _ → _ => destruct b eqn:?
            end); intros [= -> _]; lia.
  - exfalso. revert H. unfold journal_read_next_entry.
    destruct (sd_journal_next j) as [r1 j1].
    destruct (r1 <=? 0) eqn:?; [intros [= -> _]; lia|].
    repeat (match goal with
            | |- context [let '(_, _) := ?x in _] => destruct x as [? ?] eqn:?
            | |- (if ?b then _ else _) = _ → _ => destruct b eqn:?
            end); intros [= -> _]; lia.
Qed.

(** ** The loop of the read-batch procedure *)

Lemma read_entries_loop_step j entries n_read :
  read_entries_loop j entries n_read =
  let '(r, j', entry) := journal_read_next_entry j in
  if r <? 0 then (r, j', entries, n_read)
  else if r =? 0 then (r, j', entries, n_read)
  else read_entries_loop j' (entries ++ option_list entry) (n_read + 1).
Proof.
  funelim (read_entries_loop j entries n_read); rewrite Heq.
  - by destruct (Z.ltb_spec r 0); [|lia].
  - subst r. done.
  - destruct (Z.ltb_spec r 0); [lia|]. destruct (Z.eqb_spec r 0); [lia|].
    done.
Qed.

(** Induction on the records the loop has still to read. *)
Lemma remaining_ind (P : sd_journal → Prop) :
  (∀ j, (∀ j', (remaining j' < remaining j)%nat → P j') → P j) → ∀ j, P j.
Proof.
  intros H j. remember (remaining j) as m eqn:Hm. revert j Hm.
  induction m as [m IH] using lt_wf_ind. intros j ->.
  apply H. intros j' Hlt. by apply (IH (remaining j')).
Qed.

(** The loop only moves the read pointer. *)
Lemma journal_read_next_entry_frame j r j' o :
  journal_read_next_entry j = (r, j', o) →
  ∃ l, j' = set_location j l.
Proof.
  assert (Hid : j = set_location j (j_location j)) by by destruct j.
  unfold journal_read_next_entry, sd_journal_next.
  destruct (j_fault j In_next <? 0) eqn:Hn.
  { destruct (_ <=? 0) eqn:?; [|lia]. intros [= _ <- _]; eauto. }
  destruct (next_index j <? length (j_entries j))%nat.
  2:{ cbn [Z.leb Z.compare]. intros [= _ <- _]; eauto. }
  cbn [Z.leb Z.compare].
  repeat (match goal with
          | |- context [let '(_, _) := ?x in _] => destruct x as [? ?]
          | |- (if ?b then _ else _) = _ → _ => destruct b
          end); intros [= _ <- _]; eauto.
Qed.

Lemma read_entries_loop_frame j :
  ∀ entries n_read r j' entries' n_read',
    read_entries_loop j entries n_read = (r, j', entries', n_read') →
    ∃ l, j' = set_location j l.
Proof.
  induction j as [j IH] using remaining_ind. intros entries n_read r j' entries' n_read'.
  rewrite read_entries_loop_step.
  destruct (journal_read_next_entry j) as [[r1 j1] o] eqn:H1.
  destruct (journal_read_next_entry_frame _ _ _ _ H1) as [l1 ->].
  destruct (r1 <? 0) eqn:?; [intros [= _ <- _ _]; eauto|].
  destruct (r1 =? 0) eqn:?; [intros [= _ <- _ _]; eauto|].
  intros H. apply IH in H as [l ->]; [by eauto|].
  eapply journal_read_next_entry_remaining; [done | lia].
Qed.

(** What the loop returns: at most 0; the array grows by the batch and
    [n_read] by its length; after a [break] (0) the read pointer is at the
    record of the last entry of a batch that is not empty, and where it was
    when the batch is empty. *)
Lemma read_entries_loop_batch j :
  ∀ entries n_read r j' entries' n_read',
    read_entries_loop j entries n_read = (r, j', entries', n_read') →
    r ≤ 0 ∧
    ∃ batch, entries' = entries ++ batch ∧
             n_read' = n_read + Z.of_nat (length batch) ∧
             (r = 0 → batch = [] → j' = j) ∧
             (r = 0 → batch ≠ [] →
              ∃ e, current_entry j' = Some e ∧
                   last batch = Some (wire_entry e) ∧ reads_work j').
Proof.
  induction j as [j IH] using remaining_ind. intros entries n_read r j' entries' n_read'.
  rewrite read_entries_loop_step.
  destruct (journal_read_next_entry j) as [[r1 j1] o] eqn:H1.
  destruct (journal_read_next_entry_cases _ _ _ _ H1)
    as [[-> [w ->]] | [[Hr ->] | (-> & -> & -> & Hlen)]].
  - cbn [Z.ltb Z.eqb Z.compare option_list].
    intros H. pose proof H as (Hle & batch & -> & -> & Hnil & Hlast)%IH.
    2:{ eapply journal_read_next_entry_remaining; [done | lia]. }
    split; [done|]. exists (w :: batch).
    split; [by rewrite <- app_assoc|]. split; [simpl length; lia|].
    split; [done|]. intros Hr _.
    destruct batch as [|w' batch'].
    + rewrite (Hnil Hr eq_refl).
      apply journal_read_next_entry_inv in H1 as (e & He & -> & _ & _ & -> & Hw).
      exists e. done.
    + destruct (Hlast Hr) as (e & ? & ? & ?); [done|]. exists e. done.
  - destruct (Z.ltb_spec r1 0); [|lia].
    intros [= <- <- <- <-]. split; [lia|]. exists [].
    rewrite app_nil_r. split; [done|]. split; [simpl; lia|]. split; [lia|done].
  - cbn [Z.ltb Z.eqb Z.compare]. intros [= <- <- <- <-]. split; [done|].
    exists []. rewrite app_nil_r. split; [done|]. split; [simpl; lia|]. done.
Qed.

(** ** The read-batch procedure *)

(** [monitor_read_entries] returns [-VARLINK_ERROR_PANIC] without a batch,
    or the length of the batch; in the second case the stored cursor is
    that of the last entry of the batch, and none when the batch is empty. *)
Lemma monitor_read_entries_result monitor r monitor' entries :
  monitor_read_entries monitor = (r, monitor', entries) →
  (r = - VARLINK_ERROR_PANIC ∧ entries = []) ∨
  (r = Z.of_nat (length entries) ∧
   cursor monitor' = we_cursor <$> last entries ∧
   ∃ j l, journal monitor = Some j ∧
          journal monitor' = Some (set_location j l) ∧
          (entries = [] → l = j_location j)).
Proof.
  unfold monitor_read_entries.
  destruct (journal monitor) as [j|] eqn:Hj; [|intros [= <- <- <-]; by left].
  destruct (read_entries_loop j [] 0) as [[[r0 j'] batch] n_read] eqn:Hloop.
  pose proof (read_entries_loop_frame _ _ _ _ _ _ _ Hloop) as [l ->].
  apply read_entries_loop_batch in Hloop
    as (Hle & batch' & [= ->] & -> & Hnil & Hlast).
  destruct (Z.ltb_spec r0 0); [intros [= <- <- <-]; by left|].
  assert (r0 = 0) as -> by lia.
  destruct batch' as [|w batch'].
  - cbn [length Z.of_nat Z.add Z.ltb Z.compare]. intros [= <- <- <-]. right.
    split; [done|]. split; [done|]. exists j, l. split; [done|]. split; [done|].
    intros _. specialize (Hnil eq_refl eq_refl). by rewrite <- Hnil.
  - destruct (Z.ltb_spec 0 (0 + Z.of_nat (length (w :: batch')))) as [_|Hn];
      [|simpl length in Hn; lia].
    destruct Hlast as (e & Hcur & Hl & (_ & Hc & _)); [done..|].
    unfold sd_journal_get_cursor. rewrite Hc, Hcur. cbn [Z.ltb Z.compare].
    intros [= <- <- <-]. right. split; [apply Z.add_0_l|]. rewrite Hl.
    split; [done|]. exists j, l. done.
Qed.

(** A record the translator cannot translate makes the loop return a
    negative code, wherever it is among the records still to read. *)
Lemma read_entries_loop_fails j :
  ∀ entries n_read k e,
    (next_index j ≤ k)%nat → j_entries j !! k = Some e →
    translation_error e ≠ 0 →
    (read_entries_loop j entries n_read).1.1.1 < 0.
Proof.
  induction j as [j IH] using remaining_ind. intros entries n_read k e Hk He Herr.
  rewrite read_entries_loop_step.
  destruct (journal_read_next_entry j) as [[r1 j1] o] eqn:H1.
  destruct (journal_read_next_entry_cases _ _ _ _ H1)
    as [[-> [w ->]] | [[Hr ->] | (-> & -> & -> & Hlen)]].
  - cbn [Z.ltb Z.eqb Z.compare].
    pose proof (journal_read_next_entry_remaining _ _ _ _ H1) as Hrem.
    apply journal_read_next_entry_inv in H1 as (e' & He' & -> & _ & Herr' & _).
    apply (IH _ (Hrem ltac:(lia)) _ _ k e); [|done..].
    cbn [next_index set_location j_location].
    destruct (decide (k = next_index j)) as [->|]; [|lia]. congruence.
  - by destruct (Z.ltb_spec r1 0); [|lia].
  - apply lookup_lt_Some in He. lia.
Qed.

(** ** [strtoll] on a text that starts with digits *)

Lemma isdigit_not_space_sign c :
  isdigit c = true →
  isspace c = false ∧ Ascii.eqb c "-" = false ∧ Ascii.eqb c "+" = false.
Proof. destruct c as [[] [] [] [] [] [] [] []]; by vm_compute. Qed.

Lemma append_empty (s : string) : EmptyString +:+ s = s.
Proof. reflexivity. Qed.

Lemma append_String c (s t : string) : String c s +:+ t = String c (s +:+ t).
Proof. reflexivity. Qed.

Lemma span_digits_append ds rest :
  all_digits ds = true → starts_with_digit rest = false →
  span_digits (ds +:+ rest) = String.length ds.
Proof.
  intros Hds Hrest.
  induction ds as [|c ds IH]; rewrite ?append_empty, ?append_String.
  - destruct rest as [|c rest]; [done|].
    cbn [span_digits starts_with_digit] in *. by rewrite Hrest.
  - cbn [span_digits all_digits String.length] in *.
    apply andb_true_iff in Hds as [-> Hds]. by rewrite IH.
Qed.

Lemma digits_value_append ds rest acc :
  all_digits ds = true → starts_with_digit rest = false →
  digits_value (ds +:+ rest) acc = digits_value ds acc.
Proof.
  intros Hds Hrest. revert acc.
  induction ds as [|c ds IH]; intros acc; rewrite ?append_empty, ?append_String.
  - destruct rest as [|c rest]; [done|].
    cbn [digits_value starts_with_digit] in *. by rewrite Hrest.
  - cbn [digits_value all_digits] in *.
    apply andb_true_iff in Hds as [-> Hds]. by rewrite IH.
Qed.

(** A non-empty run of digits followed by anything that is not a digit: the
    number of the digits is converted and [end] points behind them. *)
Lemma strtoll_leading_digits ds rest :
  ds ≠ EmptyString → all_digits ds = true → starts_with_digit rest = false →
  strtoll (ds +:+ rest) = (clamp_int64 (digits_value ds 0), String.length ds).
Proof.
  intros Hne Hds Hrest. destruct ds as [|c ds]; [done|].
  pose proof Hds as Hds'. cbn [all_digits] in Hds'.
  apply andb_true_iff in Hds' as [Hc _].
  destruct (isdigit_not_space_sign c Hc) as (Hsp & Hm & Hp).
  unfold strtoll. rewrite append_String.
  cbn [span_space string_drop]. rewrite Hsp. cbn [string_drop].
  rewrite Hm, Hp. cbn [string_drop]. rewrite <- append_String.
  rewrite span_digits_append, digits_value_append by done.
  done.
Qed.

(** ** The time stamp of a record is always formatted

    [usec] is a [uint64_t]: the year of [usec / 1000000] fits [int], so
    [gmtime_r] does not fail. *)

Lemma civil_year_bounds days :
  0 ≤ days ≤ 2 ^ 28 → 0 ≤ (civil_from_days days).1.1 ≤ 2 ^ 20.
Proof.
  intros Hd. unfold civil_from_days. cbn [fst].
  set (z := days + 719468).
  set (era := z / 146097).
  set (doe := z - era * 146097).
  set (yoe := (doe - doe / 1460 + doe / 36524 - doe / 146096) / 365).
  assert (0 ≤ era ≤ 2000 ∧ 0 ≤ doe < 146097) as [Hera Hdoe].
  { subst doe era z. change (2 ^ 28) with 268435456 in Hd.
    Z.div_mod_to_equations. lia. }
  assert (0 ≤ yoe ≤ 400) as Hyoe.
  { subst yoe. clearbody doe. clear - Hdoe. Z.div_mod_to_equations. lia. }
  clearbody yoe era. change (2 ^ 20) with 1048576.
  destruct (_ <=? 2); lia.
Qed.

Lemma format_time_rfc3339_ok usec :
  0 ≤ usec < 2 ^ 64 → fst (format_time_rfc3339 usec) = 0.
Proof.
  intros Hu. unfold format_time_rfc3339, gmtime_r.
  assert (0 ≤ usec / 1000000 / 86400 ≤ 2 ^ 28) as Hdays.
  { change (2 ^ 64) with 18446744073709551616 in Hu.
    change (2 ^ 28) with 268435456.
    assert (0 ≤ usec / 1000000 ≤ 18446744073710)
      by (Z.div_mod_to_equations; lia).
    generalize dependent (usec / 1000000). intros. Z.div_mod_to_equations. lia. }
  pose proof (civil_year_bounds _ Hdays) as Hy.
  destruct (civil_from_days _) as [[y m] d]. cbn [fst] in Hy.
  change (2 ^ 20) with 1048576 in Hy.
  destruct (Z.leb_spec (y - 1900) (2 ^ 31 - 1)) as [_|Hc];
    [|change (2 ^ 31) with 2147483648 in Hc; lia].
  destruct (Z.leb_spec (- 2 ^ 31) (y - 1900)) as [_|Hc];
    [|change (2 ^ 31) with 2147483648 in Hc; lia].
  done.
Qed.

(** When no call fails by itself, a record with a message whose PRIORITY, if
    it has one, starts with a number is translated. *)
Lemma journal_read_next_entry_translates j e :
  reads_work j → j_entries j !! next_index j = Some e → entry_wf e →
  is_Some (find_field "MESSAGE" (e_data e)) →
  (∀ text, find_field "PRIORITY" (e_data e) = Some text →
           snd (strtoll (c_string text)) ≠ O) →
  journal_read_next_entry j =
  (1, set_location j (LOCATION_DISCRETE (next_index j)), Some (wire_entry e)).
Proof.
  intros Hw He Hwf [message Hm] Hp.
  rewrite (journal_read_next_entry_spec _ Hw), He. cbn zeta.
  assert (translation_error e = 0) as ->; [|done].
  unfold translation_error.
  rewrite (format_time_rfc3339_ok _ Hwf), Hm. cbn [Z.ltb Z.compare].
  destruct (find_field "PRIORITY" (e_data e)) as [text|]; [|done].
  specialize (Hp text eq_refl).
  by destruct (Nat.eqb_spec (snd (strtoll (c_string text))) 0).
Qed.

(** ** The severity table *)



(** ** Reading all the records that are left *)

Lemma set_location_set_location j l l' :
  set_location (set_location j l) l' = set_location j l'.
Proof. done. Qed.

Lemma set_location_id j : set_location j (j_location j) = j.
Proof. by destruct j. Qed.

Lemma read_entries_loop_all j :
  ∀ entries n_read,
    reads_work j →
    (∀ k e, (next_index j ≤ k)%nat → j_entries j !! k = Some e →
            translation_error e = 0) →
    read_entries_loop j entries n_read =
    (0, end_of_journal j,
     entries ++ (wire_entry <$> drop (next_index j) (j_entries j)),
     n_read + Z.of_nat (length (j_entries j) - next_index j)).
Proof.
  induction j as [j IH] using remaining_ind. intros entries n_read Hw Hall.
  rewrite read_entries_loop_step, (journal_read_next_entry_spec _ Hw).
  unfold end_of_journal.
  destruct (j_entries j !! next_index j) as [e|] eqn:He.
  - cbn zeta. rewrite (Hall _ e (le_n _) He). cbn [Z.eqb Z.ltb Z.compare option_list].
    pose proof (lookup_lt_Some _ _ _ He) as Hlt.
    set (j1 := set_location j (LOCATION_DISCRETE (next_index j))).
    rewrite (IH j1).
    + destruct (Nat.ltb_spec (next_index j) (length (j_entries j))); [|lia].
      rewrite (drop_S _ _ _ He). unfold end_of_journal.
      cbn [j1 next_index set_location j_location j_entries].
      rewrite <- app_assoc. cbn [fmap list_fmap app option_list].
      assert ((if (S (next_index j) <? length (j_entries j))%nat
               then set_location j1 (LOCATION_DISCRETE (length (j_entries j) - 1))
               else j1)
              = set_location j (LOCATION_DISCRETE (length (j_entries j) - 1)))
        as ->.
      { destruct (Nat.ltb_spec (S (next_index j)) (length (j_entries j))); [done|].
        unfold j1. do 2 f_equal. lia. }
      f_equal. clear - Hlt. lia.
    + by apply remaining_set_location.
    + done.
    + intros k e' Hk. apply Hall. cbn [j1 next_index set_location j_location] in Hk.
      lia.
  - apply lookup_ge_None in He.
    destruct (Nat.ltb_spec (next_index j) (length (j_entries j))); [lia|].
    cbn [Z.eqb Z.ltb Z.compare]. rewrite drop_ge by done.
    rewrite app_nil_r. do 2 f_equal. lia.
Qed.

(** ** Positioning for the initial batch *)

Lemma previous_skip_loop_discrete j skip c i :
  (i < length (j_entries j))%nat →
  previous_skip_loop skip c (set_location j (LOCATION_DISCRETE i)) =
  (c + Z.of_nat (skip `min` i),
   set_location j (LOCATION_DISCRETE (i - skip `min` i))).
Proof.
  revert c i. induction skip as [|skip IH]; intros c i Hi.
  - cbn [previous_skip_loop]. rewrite Nat.min_0_l, Nat.sub_0_r. f_equal. lia.
  - cbn [previous_skip_loop]. unfold journal_previous.
    cbn [previous_index set_location j_location j_entries].
    destruct i as [|i].
    + cbn [Z.eqb]. rewrite Nat.min_0_r. f_equal. lia.
    + destruct (Nat.ltb_spec i (length (j_entries j))); [|lia].
      cbn [Z.eqb]. rewrite set_location_set_location, IH by lia.
      rewrite <- Nat.succ_min_distr. cbn [Nat.sub].
      f_equal. lia.
Qed.

(** From the tail, [skip >= 1] steps back: the read pointer stays at the
    tail of an empty journal, and else is [min skip m] records before the
    end, at the first record when there are no more than [skip]. *)
Lemma sd_journal_previous_skip_tail j skip :
  (j_fault j In_previous_skip <? 0) = false → 1 ≤ skip ≤ INT_MAX →
  let m := length (j_entries j) in
  sd_journal_previous_skip (set_location j LOCATION_TAIL) skip =
  (Z.of_nat (Z.to_nat skip `min` m),
   match m with
   | O => set_location j LOCATION_TAIL
   | S _ => set_location j (LOCATION_DISCRETE (m - Z.to_nat skip `min` m))
   end).
Proof.
  intros Hf Hs m. unfold sd_journal_previous_skip.
  destruct (Z.ltb_spec INT_MAX skip); [lia|].
  change (j_fault (set_location j LOCATION_TAIL)) with (j_fault j). rewrite Hf.
  destruct (Z.eqb_spec skip 0); [lia|].
  destruct (Z.to_nat skip) as [|sk] eqn:Hsk; [lia|].
  cbn [previous_skip_loop]. unfold journal_previous.
  cbn [previous_index set_location j_location j_entries]. fold m.
  destruct m as [|m'] eqn:Hm; [by rewrite Nat.min_0_r|].
  destruct (Nat.ltb_spec m' (S m')); [|lia]. cbn [Z.eqb].
  rewrite set_location_set_location, previous_skip_loop_discrete by lia.
  rewrite <- Nat.succ_min_distr. cbn [Nat.sub].
  f_equal. lia.
Qed.

(** ** The process while a handler owns a registered monitor *)

Lemma Process_eta (st : Process) :
  {| epoll := epoll st; monitors := monitors st; calls := calls st |} = st.
Proof. by destruct st. Qed.

Lemma fresh_monitor (st : Process) :
  monitors st !! fresh (dom (monitors st)) = None.
Proof. apply not_elem_of_dom, is_fresh. Qed.

Lemma varlink_call_unref_ref c : varlink_call_unref (varlink_call_ref c) = c.
Proof. by destruct c. Qed.

Lemma unref_ref_calls (cs : gmap nat VarlinkCall) call :
  alter varlink_call_unref call (alter varlink_call_ref call cs) = cs.
Proof.
  rewrite alter_alter_eq. apply alter_id. intros c _. apply varlink_call_unref_ref.
Qed.

Lemma deref_with_session st fd p m cs : deref (with_session st fd p m cs) p = m.
Proof. unfold deref, with_session. cbn [monitors]. by rewrite lookup_insert_eq. Qed.

Lemma store_with_session st fd p m cs m' :
  store (with_session st fd p m cs) p m' = with_session st fd p m' cs.
Proof.
  unfold store, with_session, set_monitors. cbn [monitors epoll calls].
  by rewrite insert_insert_eq.
Qed.

Lemma on_call_with_session f st fd p m cs cid :
  on_call f (with_session st fd p m cs) cid =
  match cs !! cid with
  | None => (- EINVAL, with_session st fd p m cs)
  | Some c => let '(r, c') := f c in (r, with_session st fd p m (<[cid := c']> cs))
  end.
Proof.
  unfold on_call. cbn [with_session calls].
  destruct (cs !! cid) as [c|]; [|done]. by destruct (f c).
Qed.

Lemma monitor_free_with_session st fd p m cs j :
  monitors st !! p = None → epoll st !! fd = None →
  journal m = Some j → j_fd j = fd →
  monitor_free (with_session st fd p m cs) p =
  {| epoll := epoll st; monitors := monitors st;
     calls := alter varlink_call_unref (call m) cs |}.
Proof.
  intros Hp Hfd Hj Hjfd. unfold monitor_free. rewrite deref_with_session, Hj.
  unfold epoll_ctl_del, sd_journal_get_fd. rewrite Hjfd.
  cbn [with_session epoll monitors calls].
  by rewrite !delete_insert_id.
Qed.

(** [monitor_new] on a descriptor that is not registered yet: a failure
    leaves the process as it was; a success adds the monitor, at the tail of
    its journal, with the descriptor registered and one more reference to
    the call. *)
Lemma monitor_new_cases st cid epfd os_open files :
  epoll st !! j_fd files = None →
  let p := fresh (dom (monitors st)) in
  let m := {| call := cid; journal := Some (set_location files LOCATION_TAIL);
              cursor := None; epoll_fd := epfd |} in
  if (os_open <? 0) || (j_fd files <? 0) || (j_fault files In_seek_tail <? 0)
  then ∃ r, r < 0 ∧ monitor_new st cid epfd os_open files = (r, None, st)
  else monitor_new st cid epfd os_open files =
       (0, Some p,
        with_session st (j_fd files) p m (alter varlink_call_ref cid (calls st))).
Proof.
  intros Hfd p m. pose proof (fresh_monitor st) as Hp. fold p in Hp.
  unfold monitor_new, sd_journal_open, epoll_add, epoll_ctl_add, on_journal,
    sd_journal_seek_tail, cleanup_monitor, monitor_freep, monitor_free, deref,
    store,
    epoll_ctl_del, sd_journal_get_fd, with_session.
  fold p. clearbody p.
  destruct (Z.ltb_spec os_open 0) as [Hopen|Hopen]; simpl.
  { exists os_open. split; [done|]. rewrite !lookup_insert_eq. simpl.
    rewrite insert_insert_eq, delete_insert_id, unref_ref_calls by done.
    destruct (Z.ltb_spec os_open 0); [|lia]. by rewrite Process_eta. }
  rewrite insert_insert_eq.
  destruct (Z.ltb_spec (j_fd files) 0) as [Hneg|Hnonneg]; simpl.
  { exists (- EBADF). split; [done|]. rewrite !lookup_insert_eq. simpl.
    rewrite delete_insert_id, delete_id, unref_ref_calls by done.
    by rewrite Process_eta. }
  rewrite Hfd. simpl.
  destruct (Z.ltb_spec (j_fault files In_seek_tail) 0) as [Hf|Hf]; simpl.
  { exists (j_fault files In_seek_tail). split; [done|].
    destruct (Z.ltb_spec (j_fault files In_seek_tail) 0); [|lia].
    rewrite insert_insert_eq, !lookup_insert_eq. simpl.
    rewrite !delete_insert_id, unref_ref_calls by done.
    by rewrite Process_eta. }
  by rewrite insert_insert_eq.
Qed.

Lemma previous_skip_loop_frame skip :
  ∀ c j, ∃ l, (previous_skip_loop skip c j).2 = set_location j l.
Proof.
  induction skip as [|skip IH]; intros c j; cbn [previous_skip_loop].
  - exists (j_location j). by rewrite set_location_id.
  - unfold journal_previous.
    destruct (previous_index j) as [i|].
    + destruct (i <? length (j_entries j))%nat; cbn [Z.eqb].
      * destruct (IH (c + 1) (set_location j (LOCATION_DISCRETE i))) as [l Hl].
        exists l. by rewrite Hl.
      * exists (j_location j). by rewrite set_location_id.
    + exists (j_location j). by rewrite set_location_id.
Qed.

Lemma sd_journal_previous_skip_frame j skip :
  ∃ l, (sd_journal_previous_skip j skip).2 = set_location j l.
Proof.
  unfold sd_journal_previous_skip.
  destruct (INT_MAX <? skip); [exists (j_location j); by rewrite set_location_id|].
  destruct (_ <? 0); [exists (j_location j); by rewrite set_location_id|].
  destruct (skip =? 0); [|apply previous_skip_loop_frame].
  unfold journal_previous.
  destruct (j_location j) eqn:Hl; cbn [snd];
    try (destruct (previous_index j) as [i|];
         [destruct (i <? length (j_entries j))%nat|]; cbn [snd]);
    eauto; exists (j_location j); by rewrite set_location_id.
Qed.

Lemma on_journal_opened f fd cid m :
  (∀ j, ∃ l, (f j).2 = set_location j l) →
  opened fd cid m → opened fd cid (on_journal f m).2.
Proof.
  intros Hf (Hc & j & Hj & Hfd). unfold on_journal. rewrite Hj.
  destruct (Hf j) as [l Hl]. destruct (f j) as [r j']. cbn [snd] in *. subst j'.
  split; [done|]. by exists (set_location j l).
Qed.

Lemma monitor_read_entries_opened fd cid m :
  opened fd cid m → opened fd cid (monitor_read_entries m).1.2.
Proof.
  intros (Hc & j & Hj & Hfd). unfold monitor_read_entries. rewrite Hj.
  destruct (read_entries_loop j [] 0) as [[[r0 j'] batch] n_read] eqn:Hloop.
  apply read_entries_loop_frame in Hloop as [l ->].
  assert (opened fd cid (set_journal m (Some (set_location j l)))) as Ho.
  { split; [done|]. by exists (set_location j l). }
  destruct (r0 <? 0); [done|]. destruct (0 <? n_read); [|done].
  destruct (sd_journal_get_cursor _) as [r c]. by destruct (r <? 0).
Qed.

(** ** The handler, path by path *)

Lemma freed_session st fd p m cs cid :
  monitors st !! p = None → epoll st !! fd = None → opened fd cid m →
  monitor_freep (with_session st fd p m cs) (Some p) =
  {| epoll := epoll st; monitors := monitors st;
     calls := alter varlink_call_unref cid cs |}.
Proof.
  intros Hp Hfd (Hc & j & Hj & Hjfd). cbn [monitor_freep].
  rewrite (monitor_free_with_session _ _ _ _ _ j) by done. by rewrite Hc.
Qed.

Lemma calls_like_refl cid cs : calls_like cid cs cs.
Proof. done. Qed.

Lemma calls_like_trans cid cs1 cs2 cs3 :
  calls_like cid cs1 cs2 → calls_like cid cs2 cs3 → calls_like cid cs1 cs3.
Proof.
  intros [H1 H1'] [H2 H2']. split; [|congruence].
  intros cid' Hne. by rewrite H2, H1.
Qed.

Lemma calls_like_alter f cid cs :
  (∀ c, c_closed_callback (f c) = c_closed_callback c) →
  calls_like cid cs (alter f cid cs).
Proof.
  intros Hf. split.
  - intros cid' Hne. by rewrite lookup_alter_ne.
  - rewrite lookup_alter_eq. destruct (cs !! cid) as [c|]; cbn; [|done].
    by rewrite Hf.
Qed.

Lemma calls_like_insert cid cs c c' :
  cs !! cid = Some c → c_closed_callback c' = c_closed_callback c →
  calls_like cid cs (<[cid := c']> cs).
Proof.
  intros Hc Hcb. split.
  - intros cid' Hne. by rewrite lookup_insert_ne.
  - rewrite lookup_insert_eq, Hc. cbn. by rewrite Hcb.
Qed.

Lemma send_callback c reply :
  c_closed_callback (send c reply).2 = c_closed_callback c.
Proof. unfold send. by destruct (_ <? 0). Qed.

Lemma calls_like_unref cid cs : calls_like cid cs (alter varlink_call_unref cid cs).
Proof. by apply calls_like_alter. Qed.

Lemma calls_like_ref cid cs : calls_like cid cs (alter varlink_call_ref cid cs).
Proof. by apply calls_like_alter. Qed.

(** On a descriptor that is not registered yet, the handler leaves a
    monitor behind only on the one path that sets the closed-connection
    callback; on every other path the interest list and the monitors are
    as before the call.  It touches no other call. *)
Lemma handler_outcome st cid parameters flags userdata os_open files :
  epoll st !! j_fd files = None →
  let p := fresh (dom (monitors st)) in
  let more := negb (Z.land flags VARLINK_CALL_MORE =? 0) in
  let initial_lines := default 10 (parameters !! "initial_lines"%string) in
  let res := com_redhat_logging_monitor st cid parameters flags userdata os_open files in
  (∀ cid', cid' ≠ cid → calls res.2 !! cid' = calls st !! cid') ∧
  ((0 ≤ initial_lines ∧ res.1 = 0 ∧ more = true ∧
    ∃ m c, opened (j_fd files) cid m ∧
           epoll res.2 = <[j_fd files := Ptr_monitor p]> (epoll st) ∧
           monitors res.2 = <[p := m]> (monitors st) ∧
           calls res.2 !! cid = Some c ∧ c_closed_callback c = Some p) ∨
   ((initial_lines < 0 ∨ res.1 < 0 ∨ more = false) ∧
    epoll res.2 = epoll st ∧ monitors res.2 = monitors st ∧
    c_closed_callback <$> calls res.2 !! cid
    = c_closed_callback <$> calls st !! cid)).
Proof.
  intros Hfd p more initial_lines res.
  pose proof (fresh_monitor st) as Hp. fold p in Hp.
  pose proof (monitor_new_cases st cid userdata os_open files Hfd) as Hnew.
  cbn zeta in Hnew. fold p in Hnew.
  subst res. unfold com_redhat_logging_monitor, cleanup_monitor.
  fold more initial_lines.
  destruct (_ || _).
  { destruct Hnew as (r & Hr & ->). destruct (Z.ltb_spec r 0); [|lia].
    split; [done|]. right. cbn. split; [right; left; lia|done]. }
  rewrite Hnew. cbn [Z.ltb Z.compare].
  set (m0 := {| call := cid |}).
  set (cs0 := alter varlink_call_ref cid (calls st)).
  assert (opened (j_fd files) cid m0) as Ho0.
  { split; [done|]. by exists (set_location files LOCATION_TAIL). }
  assert (calls_like cid (calls st) cs0) as Hcs0 by apply calls_like_ref.
  clearbody m0 cs0. clear Hnew.
  assert (∀ m cs r,
            opened (j_fd files) cid m → calls_like cid (calls st) cs →
            initial_lines < 0 ∨ r < 0 ∨ more = false →
            let res := (r, monitor_freep (with_session st (j_fd files) p m cs)
                             (Some p)) in
            (∀ cid', cid' ≠ cid → calls res.2 !! cid' = calls st !! cid') ∧
            ((0 ≤ initial_lines ∧ res.1 = 0 ∧ more = true ∧
              ∃ m c, opened (j_fd files) cid m ∧
                     epoll res.2 = <[j_fd files := Ptr_monitor p]> (epoll st) ∧
                     monitors res.2 = <[p := m]> (monitors st) ∧
                     calls res.2 !! cid = Some c ∧ c_closed_callback c = Some p) ∨
             ((initial_lines < 0 ∨ res.1 < 0 ∨ more = false) ∧
              epoll res.2 = epoll st ∧ monitors res.2 = monitors st ∧
              c_closed_callback <$> calls res.2 !! cid
              = c_closed_callback <$> calls st !! cid))) as Hfree.
  { intros m cs r Ho Hcs Hr. cbn zeta. cbn [fst snd].
    rewrite (freed_session _ _ _ _ _ cid) by done. cbn [epoll monitors calls].
    destruct (calls_like_trans _ _ _ _ Hcs (calls_like_unref cid cs)) as [Ha Hb].
    split; [done|]. by right. }
  destruct (Z.ltb_spec initial_lines 0) as [Hk|Hk].
  { rewrite on_call_with_session.
    destruct (cs0 !! cid) as [c|] eqn:Hc; [|by apply Hfree; auto].
    unfold varlink_call_reply_invalid_parameter.
    pose proof (send_callback c (Reply_invalid_parameter "initial_lines")) as Hs.
    destruct (send c _) as [r c']. cbn [snd] in Hs.
    apply Hfree; [done| |by left].
    eapply calls_like_trans; [done|]. by eapply calls_like_insert. }
  rewrite deref_with_session.
  set (skip := (initial_lines + 1) `mod` 2 ^ 64).
  pose proof (on_journal_opened (λ j, sd_journal_previous_skip j skip) _ _ m0
                (λ j, sd_journal_previous_skip_frame j skip) Ho0) as Ho1.
  destruct (on_journal _ m0) as [r1 m1]. cbn [snd] in Ho1.
  rewrite store_with_session.
  destruct (Z.ltb_spec r1 0); [by apply Hfree; auto|].
  pose proof (monitor_read_entries_opened _ _ m1 Ho1) as Ho2.
  destruct (monitor_read_entries m1) as [[r2 m2] entries]. cbn [fst snd] in Ho2.
  rewrite store_with_session.
  destruct (Z.ltb_spec r2 0); [by apply Hfree; auto|].
  rewrite on_call_with_session.
  destruct (cs0 !! cid) as [c|] eqn:Hc.
  2:{ cbn [Z.ltb Z.compare EINVAL Z.opp]. apply Hfree; [done..|]. right. left. done. }
  unfold varlink_call_reply.
  pose proof (send_callback c (Reply_entries entries
                (if more then VARLINK_REPLY_CONTINUES else 0))) as Hs.
  destruct (send c _) as [r3 c3]. cbn [snd] in Hs.
  assert (calls_like cid (calls st) (<[cid:=c3]> cs0)) as Hcs3.
  { eapply calls_like_trans; [done|]. by eapply calls_like_insert. }
  destruct (Z.ltb_spec r3 0); [by apply Hfree; auto|].
  destruct more eqn:Hmore; [|by apply Hfree; auto].
  unfold set_calls. cbn [fst snd with_session epoll monitors calls]. split.
  - intros cid' Hne. rewrite lookup_alter_ne by done. by apply Hcs3.
  - left. split; [done|]. split; [done|]. split; [done|].
    eexists m2, _. split; [done|]. split; [done|]. split; [done|].
    rewrite lookup_alter_eq, lookup_insert_eq. cbn. done.
Qed.

Lemma send_ref c reply :
  send (varlink_call_ref c) reply =
  if c_error c <? 0 then (c_error c, varlink_call_ref c)
  else (0, varlink_call_ref (add_reply c reply)).
Proof. unfold send. cbn [varlink_call_ref c_error]. by destruct (_ <? 0). Qed.

(** The calls after a reply on the referenced call and the release of the
    reference. *)
Lemma unref_after_reply (cs : gmap nat VarlinkCall) cid c0 c' :
  cs !! cid = Some c0 →
  alter varlink_call_unref cid
    (<[cid := varlink_call_ref c']> (alter varlink_call_ref cid cs))
  = <[cid := c']> cs.
Proof.
  intros Hc. by rewrite alter_insert_eq, insert_alter_eq, varlink_call_unref_ref.
Qed.

(** The handler on a negative [initial_lines]. *)
Lemma handler_invalid_parameter st cid c0 parameters flags userdata os_open files :
  epoll st !! j_fd files = None → calls st !! cid = Some c0 →
  default 10 (parameters !! "initial_lines"%string) < 0 →
  let res := com_redhat_logging_monitor st cid parameters flags userdata
               os_open files in
  if set_up_fails os_open files then res.1 < 0 ∧ res.2 = st
  else if c_error c0 <? 0 then res = (c_error c0, st)
  else res = (0, set_calls st
                   (<[cid := add_reply c0 (Reply_invalid_parameter "initial_lines")]>
                      (calls st))).
Proof.
  intros Hfd Hc Hk res.
  pose proof (fresh_monitor st) as Hp.
  pose proof (monitor_new_cases st cid userdata os_open files Hfd) as Hnew.
  cbn zeta in Hnew.
  subst res. unfold com_redhat_logging_monitor, cleanup_monitor, set_up_fails.
  destruct (_ || _).
  { destruct Hnew as (r & Hr & ->). by destruct (Z.ltb_spec r 0); [|lia]. }
  rewrite Hnew. cbn [Z.ltb Z.compare].
  destruct (Z.ltb_spec (default 10 (parameters !! "initial_lines"%string)) 0);
    [|lia].
  rewrite on_call_with_session, lookup_alter_eq, Hc. cbn [fmap option_fmap option_map].
  unfold varlink_call_reply_invalid_parameter. rewrite send_ref.
  destruct (c_error c0 <? 0).
  - rewrite (freed_session _ _ _ _ _ cid); [|done..|].
    2:{ split; [done|]. by eexists. }
    rewrite (unref_after_reply _ _ c0), insert_id by done.
    by rewrite Process_eta.
  - rewrite (freed_session _ _ _ _ _ cid); [|done..|].
    2:{ split; [done|]. by eexists. }
    by rewrite (unref_after_reply _ _ c0).
Qed.

(** The read-batch when nothing fails: all the records after the read
    pointer, in their order. *)
Lemma monitor_read_entries_all m j :
  journal m = Some j → reads_work j → translatable (j_entries j) →
  monitor_read_entries m =
  (Z.of_nat (length (j_entries j) - next_index j),
   {| call := call m; journal := Some (end_of_journal j);
      cursor := e_cursor <$> last (drop (next_index j) (j_entries j));
      epoll_fd := epoll_fd m |},
   wire_entry <$> drop (next_index j) (j_entries j)).
Proof.
  intros Hj Hw Hall. unfold monitor_read_entries. rewrite Hj.
  rewrite read_entries_loop_all by eauto. cbn [Z.ltb Z.compare app].
  unfold end_of_journal.
  destruct (Nat.ltb_spec (next_index j) (length (j_entries j))) as [Hlt|Hge].
  - destruct (Z.ltb_spec 0 (0 + Z.of_nat (length (j_entries j) - next_index j)));
      [|lia].
    destruct Hw as (_ & Hc & _). unfold sd_journal_get_cursor.
    change (j_fault (set_location j _)) with (j_fault j). rewrite Hc.
    unfold current_entry. cbn [set_location j_location j_entries].
    destruct (lookup_lt_is_Some_2 (j_entries j) (length (j_entries j) - 1))
      as [e He]; [lia|].
    rewrite He. cbn [Z.ltb Z.compare].
    assert (last (drop (next_index j) (j_entries j)) = Some e) as ->.
    { rewrite last_lookup, length_drop, lookup_drop. rewrite <- He. f_equal. lia. }
    unfold set_cursor, set_journal. cbn [call journal cursor epoll_fd fmap option_fmap option_map e_cursor]. f_equal; lia.
  - rewrite drop_ge by done.
    replace (length (j_entries j) - next_index j)%nat with O by lia.
    cbn. done.
Qed.

(** The handler when nothing fails: the reply holds the records after the
    position [sd_journal_previous_skip] reached from the tail. *)
Lemma handler_initial_batch st cid c0 parameters flags userdata os_open files :
  epoll st !! j_fd files = None → calls st !! cid = Some c0 →
  (c_error c0 <? 0) = false → set_up_fails os_open files = false →
  (j_fault files In_previous_skip <? 0) = false → reads_work files →
  translatable (j_entries files) →
  let k := default 10 (parameters !! "initial_lines"%string) in
  0 ≤ k < INT_MAX →
  let m := length (j_entries files) in
  let more := negb (Z.land flags VARLINK_CALL_MORE =? 0) in
  let entries :=
    wire_entry <$> drop (m - Z.to_nat k `min` (m - 1)) (j_entries files) in
  let res := com_redhat_logging_monitor st cid parameters flags userdata
               os_open files in
  res.1 = 0 ∧
  ∃ c', calls res.2 !! cid = Some c' ∧
        c_replies c' = c_replies c0 ++
          [Reply_entries entries (if more then VARLINK_REPLY_CONTINUES else 0)].
Proof.
  intros Hfd Hc Herr Hup Hskip Hw Hall k Hk m more entries res.
  enough (∃ st', res = (0, st') ∧
            ∃ c', calls st' !! cid = Some c' ∧
                  c_replies c' = c_replies c0 ++
                    [Reply_entries entries
                       (if more then VARLINK_REPLY_CONTINUES else 0)])
    as (st' & -> & H); [done|].
  pose proof (fresh_monitor st) as Hp.
  pose proof (monitor_new_cases st cid userdata os_open files Hfd) as Hnew.
  cbn zeta in Hnew. unfold set_up_fails in Hup. rewrite Hup in Hnew.
  subst res. unfold com_redhat_logging_monitor, cleanup_monitor. fold k more.
  rewrite Hnew. cbn [Z.ltb Z.compare].
  destruct (Z.ltb_spec k 0); [lia|].
  rewrite deref_with_session. unfold on_journal at 1. cbn [journal].
  assert ((k + 1) `mod` 2 ^ 64 = k + 1) as ->.
  { apply Z.mod_small. unfold INT_MAX in Hk.
    change (2 ^ 64) with 18446744073709551616. lia. }
  rewrite sd_journal_previous_skip_tail by (done || lia).
  fold m. rewrite store_with_session.
  destruct (Z.ltb_spec (Z.of_nat (Z.to_nat (k + 1) `min` m)) 0); [lia|].
  set (j1 := match m with
             | O => set_location files LOCATION_TAIL
             | S _ => set_location files
                        (LOCATION_DISCRETE (m - Z.to_nat (k + 1) `min` m))
             end).
  assert (next_index j1 = (m - Z.to_nat k `min` (m - 1))%nat ∧
          j_entries j1 = j_entries files ∧ j_fault j1 = j_fault files ∧
          j_fd j1 = j_fd files) as (Hnext & Hes & Hfault & Hjfd).
  { unfold j1. destruct m as [|m'] eqn:Hm;
      cbn [next_index set_location j_location j_entries j_fault j_fd];
      (split; [fold m; lia|done]). }
  unfold set_journal at 1. cbn [call cursor epoll_fd].
  erewrite monitor_read_entries_all; [|done|by unfold reads_work; rewrite Hfault|by rewrite Hes].
  rewrite Hnext, Hes. fold m entries.
  rewrite store_with_session.
  destruct (Z.ltb_spec (Z.of_nat (m - (m - Z.to_nat k `min` (m - 1)))) 0); [lia|].
  rewrite on_call_with_session, lookup_alter_eq, Hc.
  cbn [fmap option_fmap option_map]. unfold varlink_call_reply.
  rewrite send_ref, Herr. cbn [Z.ltb Z.compare].
  destruct more.
  - eexists. split; [done|]. unfold set_calls. cbn [snd calls with_session].
    rewrite lookup_alter_eq, lookup_insert_eq. eexists. split; [done|]. done.
  - rewrite (freed_session _ _ _ _ _ cid); [|done..|].
    2:{ split; [done|]. eexists. split; [done|]. unfold end_of_journal.
        by destruct (_ <? _)%nat. }
    rewrite (unref_after_reply _ _ c0) by done. eexists. split; [done|].
    cbn [snd calls]. rewrite lookup_insert_eq. by eexists.
Qed.

(** ** The invariant of the loop *)

Lemma three_records_translatable : translatable three_records.
Proof.
  intros k e He. destruct k as [|[|[|k]]]; simpl in He; by simplify_eq.
Qed.

Lemma consistent_iff st p : consistent st → registered st p ↔ streaming st p.
Proof.
  intros [H1 H2 H3]. split.
  - intros [fd Hfd]. destruct (H1 _ _ Hfd) as (m & Hm & _).
    destruct (H2 _ _ Hm) as (j & c & Hj & _ & Hc & Hcb). by exists m, j, c.
  - intros (m & j & c & Hm & _). destruct (H2 _ _ Hm) as (j' & _ & _ & Hep & _).
    by exists (j_fd j').
Qed.

Lemma started_consistent service_fd signal_fd :
  consistent (started service_fd signal_fd).
Proof.
  split.
  - intros fd p. unfold started. cbn [epoll].
    rewrite lookup_insert. case_decide; [done|].
    rewrite lookup_singleton. by case_decide.
  - intros p m. unfold started. cbn [monitors]. by rewrite lookup_empty.
  - intros cid c p. unfold started. cbn [calls]. by rewrite lookup_empty.
Qed.

Lemma on_journal_keeps_fd f fd cid m :
  (∀ j, j_fd (f j).2 = j_fd j) →
  opened fd cid m → opened fd cid (on_journal f m).2.
Proof.
  intros Hf (Hc & j & Hj & Hfd). unfold on_journal. rewrite Hj.
  specialize (Hf j). destruct (f j) as [r j']. cbn [snd] in *.
  split; [done|]. exists j'. split; [done|]. congruence.
Qed.

Lemma sd_journal_process_fd j : j_fd (sd_journal_process j).2 = j_fd j.
Proof.
  unfold sd_journal_process. destruct (_ <? 0); [done|].
  destruct (j_changes j) as [|[| |] rest]; done.
Qed.

Lemma sd_journal_seek_cursor_fd c j : j_fd (sd_journal_seek_cursor j c).2 = j_fd j.
Proof. unfold sd_journal_seek_cursor. by destruct (_ <? 0). Qed.

Lemma sd_journal_seek_tail_fd j : j_fd (sd_journal_seek_tail j).2 = j_fd j.
Proof. unfold sd_journal_seek_tail. by destruct (_ <? 0). Qed.

Lemma dispatch_read_keeps fd cid m c :
  opened fd cid m →
  opened fd cid (dispatch_read m c).1.2 ∧
  c_closed_callback (dispatch_read m c).2 = c_closed_callback c.
Proof.
  intros Ho. unfold dispatch_read.
  pose proof (monitor_read_entries_opened _ _ _ Ho) as Ho'.
  destruct (monitor_read_entries m) as [[r m'] entries]. cbn [fst snd] in Ho'.
  destruct (r <? 0); [done|]. destruct (r =? 0); [done|].
  unfold varlink_call_reply.
  pose proof (send_callback c (Reply_entries entries VARLINK_REPLY_CONTINUES)) as Hs.
  by destruct (send c _).
Qed.

Lemma monitor_dispatch_keeps fd cid m c :
  opened fd cid m →
  opened fd cid (monitor_dispatch m c).1.2 ∧
  c_closed_callback (monitor_dispatch m c).2 = c_closed_callback c.
Proof.
  intros Ho. unfold monitor_dispatch.
  pose proof (on_journal_keeps_fd sd_journal_process _ _ _ sd_journal_process_fd Ho)
    as Ho1.
  destruct (on_journal sd_journal_process m) as [event m1]. cbn [snd] in Ho1.
  destruct (event =? SD_JOURNAL_INVALIDATE).
  - assert (opened fd cid
              (match cursor m1 with
               | Some cur => on_journal (λ j, sd_journal_seek_cursor j cur) m1
               | None => on_journal sd_journal_seek_tail m1
               end).2) as Ho2.
    { destruct (cursor m1) as [cur|].
      - apply on_journal_keeps_fd; [|done]. intros j. apply sd_journal_seek_cursor_fd.
      - apply on_journal_keeps_fd; [|done]. apply sd_journal_seek_tail_fd. }
    destruct (match cursor m1 with Some _ => _ | None => _ end) as [r2 m2].
    cbn [snd] in Ho2. destruct (r2 <? 0); [done|]. by apply dispatch_read_keeps.
  - destruct (negb _); [done|]. by apply dispatch_read_keeps.
Qed.

Lemma consistent_dispatch st p :
  consistent st → registered st p → consistent (dispatch_at st p).2.
Proof.
  intros [H1 H2 H3] [fd Hfd].
  destruct (H1 _ _ Hfd) as (m & Hm & Ho).
  destruct (H2 _ _ Hm) as (j & c & Hj & Hep & Hc & Hcb).
  unfold dispatch_at, deref. rewrite Hm. cbn [default id]. cbn zeta. rewrite Hc.
  destruct (monitor_dispatch_keeps _ _ _ c Ho) as [Ho' Hcb'].
  destruct (monitor_dispatch m c) as [[r m'] c']. cbn [fst snd] in *.
  destruct Ho' as (Hcall & j' & Hj' & Hjfd).
  unfold set_calls, store, set_monitors. cbn [epoll monitors calls].
  split; cbn [epoll monitors calls].
  - intros fd' q Hq. destruct (decide (q = p)) as [->|Hne].
    + rewrite lookup_insert_eq. exists m'. split; [done|].
      destruct (H1 _ _ Hq) as (m0 & Hm0 & Ho0). rewrite Hm in Hm0.
      injection Hm0 as <-. destruct Ho0 as (_ & j0 & Hj0 & Hfd0).
      split; [done|]. exists j'. split; [done|].
      destruct Ho as (_ & j1 & Hj1 & Hfd1). congruence.
    + rewrite lookup_insert_ne by done. by apply H1.
  - intros q mq. destruct (decide (q = p)) as [->|Hne].
    + rewrite lookup_insert_eq. intros [= <-]. exists j', c'.
      split; [done|]. rewrite Hcall, lookup_insert_eq.
      split; [|split; [done|congruence]].
      destruct Ho as (_ & j1 & Hj1 & Hfd1). rewrite Hjfd. 
      assert (j1 = j) as -> by congruence. congruence.
    + rewrite lookup_insert_ne by done. intros Hmq.
      destruct (H2 _ _ Hmq) as (jq & cq & Hjq & Hepq & Hcq & Hcbq).
      exists jq. destruct (decide (call mq = call m)) as [Heq|Hneq].
      * rewrite Heq in Hcq. rewrite Hc in Hcq. injection Hcq as <-. congruence.
      * exists cq. by rewrite lookup_insert_ne.
  - intros cid c0 q. destruct (decide (cid = call m)) as [->|Hneq].
    + rewrite lookup_insert_eq. intros [= <-] Hq. rewrite Hcb', Hcb in Hq.
      injection Hq as <-. exists m'. by rewrite lookup_insert_eq.
    + rewrite lookup_insert_ne by done. intros Hc0 Hq.
      destruct (H3 _ _ _ Hc0 Hq) as (mq & Hmq & Hcq).
      destruct (decide (q = p)) as [->|Hne].
      * rewrite Hm in Hmq. injection Hmq as <-. done.
      * exists mq. by rewrite lookup_insert_ne.
Qed.

Lemma consistent_closed epfd st cid :
  consistent st → consistent (run_upcall epfd st (Closed cid)).
Proof.
  intros Hst. pose proof Hst as [H1 H2 H3]. cbn [run_upcall].
  destruct (calls st !! cid) as [c|] eqn:Hc; [|done].
  destruct (c_closed_callback c) as [p|] eqn:Hcb; [|done].
  destruct (H3 _ _ _ Hc Hcb) as (m & Hm & Hcall).
  destruct (H2 _ _ Hm) as (j & c' & Hj & Hep & Hc' & Hcb').
  unfold monitor_canceled, monitor_free, deref, set_calls.
  cbn [epoll monitors calls]. rewrite Hm. cbn [default id]. rewrite Hj, Hcall.
  unfold epoll_ctl_del, sd_journal_get_fd. rewrite alter_insert_eq.
  split; cbn [epoll monitors calls].
  - intros fd q. rewrite lookup_delete. case_decide as Hfd; [done|]. intros Hq.
    destruct (H1 _ _ Hq) as (mq & Hmq & Hoq). exists mq. split; [|done].
    rewrite lookup_delete_ne; [done|]. intros ->.
    rewrite Hm in Hmq. injection Hmq as <-.
    destruct Hoq as (_ & jq & Hjq & Hfdq). congruence.
  - intros q mq. rewrite lookup_delete. case_decide as Hq; [done|]. intros Hmq.
    destruct (H2 _ _ Hmq) as (jq & cq & Hjq & Hepq & Hcq & Hcbq).
    exists jq, cq. split; [done|]. split.
    + rewrite lookup_delete_ne; [done|]. intros Heq. rewrite Heq in Hep.
      congruence.
    + rewrite lookup_insert_ne; [done|]. intros Heq. rewrite <- Heq in Hcq.
      congruence.
  - intros cid' c0 q. rewrite lookup_insert. case_decide as Hcid.
    + intros [= <-]. done.
    + intros Hc0 Hq. destruct (H3 _ _ _ Hc0 Hq) as (mq & Hmq & Hcq).
      exists mq. split; [|done]. rewrite lookup_delete_ne; [done|].
      intros ->. congruence.
Qed.

Lemma consistent_incoming epfd st cid error parameters flags os_open files :
  consistent st → calls st !! cid = None → epoll st !! j_fd files = None →
  consistent (run_upcall epfd st
                (Incoming cid error parameters flags os_open files)).
Proof.
  intros [H1 H2 H3] Hcid Hfd. cbn [run_upcall].
  set (c0 := {| c_refs := 1 |}).
  set (st1 := set_calls st (<[cid := c0]> (calls st))).
  pose proof (fresh_monitor st) as Hp.
  destruct (handler_outcome st1 cid parameters flags epfd os_open files Hfd)
    as [Hother Hout].
  cbn zeta in Hother, Hout.
  destruct (com_redhat_logging_monitor st1 cid parameters flags epfd os_open files)
    as [r st2].
  cbn [fst snd st1 set_calls epoll monitors calls] in *.
  assert (∀ q mq, monitors st !! q = Some mq → call mq ≠ cid) as Hcalls.
  { intros q mq Hmq Heq. destruct (H2 _ _ Hmq) as (_ & c & _ & _ & Hc & _).
    congruence. }
  destruct Hout as [(_ & _ & _ & m & c & Ho & Hep & Hmon & Hc & Hcb) |
                    (_ & Hep & Hmon & Hcb)].
  - set (p := fresh (dom (monitors st))) in *.
    destruct Ho as (Hcall & j & Hj & Hjfd).
    split; rewrite ?Hep, ?Hmon.
    + intros fd q. rewrite lookup_insert. case_decide as Hfdq.
      * intros [= <-]. exists m. rewrite lookup_insert_eq. subst fd.
        split; [done|]. split; [done|]. by exists j.
      * intros Hq. destruct (H1 _ _ Hq) as (mq & Hmq & Hoq). exists mq.
        split; [|done]. rewrite lookup_insert_ne; [done|]. congruence.
    + intros q mq. rewrite lookup_insert. case_decide as Hq.
      * intros [= <-]. subst q. exists j, c. rewrite Hjfd, lookup_insert_eq, Hcall.
        done.
      * intros Hmq. destruct (H2 _ _ Hmq) as (jq & cq & Hjq & Hepq & Hcq & Hcbq).
        exists jq, cq. split; [done|]. split.
        -- rewrite lookup_insert_ne; [done|]. congruence.
        -- rewrite (Hother (call mq)) by eauto.
           rewrite lookup_insert_ne; [done|]. intros Heq. by eapply Hcalls.
    + intros cid' c' q Hc' Hq. destruct (decide (cid' = cid)) as [->|Hne].
      * assert (c' = c) as -> by congruence. assert (q = p) as -> by congruence.
        exists m. by rewrite lookup_insert_eq.
      * rewrite Hother, lookup_insert_ne in Hc' by done.
        destruct (H3 _ _ _ Hc' Hq) as (mq & Hmq & Hcq). exists mq.
        split; [|done]. rewrite lookup_insert_ne; [done|]. congruence.
  - rewrite lookup_insert_eq in Hcb. cbn in Hcb.
    split; rewrite ?Hep, ?Hmon.
    + done.
    + intros q mq Hmq. destruct (H2 _ _ Hmq) as (jq & cq & Hjq & Hepq & Hcq & Hcbq).
      exists jq, cq. split; [done|]. split; [done|].
      rewrite (Hother (call mq)) by eauto.
      rewrite lookup_insert_ne; [done|]. intros Heq. by eapply Hcalls.
    + intros cid' c' q Hc' Hq. destruct (decide (cid' = cid)) as [->|Hne].
      * rewrite Hc' in Hcb. cbn in Hcb. congruence.
      * rewrite Hother, lookup_insert_ne in Hc' by done. by eapply H3.
Qed.

Lemma consistent_upcalls epfd work :
  ∀ st, consistent st → upcalls_ok epfd st work →
        consistent (foldl (run_upcall epfd) st work).
Proof.
  induction work as [|u work IH]; intros st Hst Hok; [done|].
  cbn [foldl]. destruct Hok as [Hu Hok]. apply IH; [|done].
  destruct u as [cid error parameters flags os_open files | cid].
  - destruct Hu as [Hcid Hfd]. by apply consistent_incoming.
  - by apply consistent_closed.
Qed.

Lemma consistent_step epfd st w :
  consistent st → wakeup_ok epfd st w →
  consistent (process_of (main_step epfd st w)).
Proof.
  intros Hst Hok. destruct w as [errno | | work r | size signo | p];
    cbn [main_step wakeup_ok] in *.
  - by destruct (errno =? EINTR).
  - done.
  - unfold varlink_service_process_events.
    pose proof (consistent_upcalls _ _ _ Hst Hok).
    destruct (r =? 0); [done|]. by destruct (r =? _).
  - by destruct (_ || _).
  - pose proof (consistent_dispatch _ _ Hst Hok).
    destruct (dispatch_at st p) as [r st']. cbn [snd] in *.
    destruct (r =? 0); [done|]. by destruct (r =? _).
Qed.

Lemma consistent_loop epfd ws :
  ∀ st, consistent st → wakeups_ok epfd st ws →
        consistent (process_of (main_loop epfd st ws)).
Proof.
  induction ws as [|w ws IH]; intros st Hst Hok; [done|].
  cbn [main_loop]. destruct Hok as [Hw Hok].
  pose proof (consistent_step _ _ _ Hst Hw) as Hstep.
  destruct (main_step epfd st w) as [st'|status st']; cbn [process_of] in *.
  - by apply IH.
  - done.
Qed.

(** [monitor_new] registers the descriptor of every monitor it creates,
    before the handler looks at the flags of the call; when the handler
    returns, the monitor is still there, registered, with its journal open
    and the closed-connection callback set, only if the call asked for more
    replies, the parameter was valid and the first reply was sent; on every
    other return nothing of it is left. *)
Lemma handler_registration st cid parameters flags userdata os_open files :
  epoll st !! j_fd files = None →
  let p := fresh (dom (monitors st)) in
  let more := negb (Z.land flags VARLINK_CALL_MORE =? 0) in
  let created := (monitor_new st cid userdata os_open files).2 in
  let res := com_redhat_logging_monitor st cid parameters flags userdata
               os_open files in
  (set_up_fails os_open files = false →
   epoll created !! j_fd files = Some (Ptr_monitor p) ∧
   ∃ m, monitors created !! p = Some m ∧ opened (j_fd files) cid m) ∧
  (set_up_fails os_open files = true → created = st) ∧
  ((more = true ∧ res.1 = 0 ∧
    epoll res.2 = <[j_fd files := Ptr_monitor p]> (epoll st) ∧
    ∃ m c, monitors res.2 = <[p := m]> (monitors st) ∧
           opened (j_fd files) cid m ∧
           calls res.2 !! cid = Some c ∧ c_closed_callback c = Some p) ∨
   (epoll res.2 = epoll st ∧ monitors res.2 = monitors st)) ∧
  (more = false → epoll res.2 = epoll st ∧ monitors res.2 = monitors st).
Proof.
  intros Hfd p more created res.
  pose proof (monitor_new_cases st cid userdata os_open files Hfd) as Hnew.
  cbn zeta in Hnew. fold p in Hnew. fold (set_up_fails os_open files) in Hnew.
  pose proof (handler_outcome st cid parameters flags userdata os_open files Hfd)
    as [_ Hout].
  cbn zeta in Hout. fold p more res in Hout.
  pose proof (fresh_monitor st) as Hp. fold p in Hp.
  split; [|split; [|split]].
  - intros Hup. rewrite Hup in Hnew. subst created. rewrite Hnew.
    cbn [snd with_session epoll monitors]. rewrite !lookup_insert_eq.
    split; [done|]. eexists. split; [done|]. split; [done|]. by eexists.
  - intros Hup. rewrite Hup in Hnew. destruct Hnew as (r & _ & Hnew).
    subst created. by rewrite Hnew.
  - destruct Hout as [(_ & Hr & Hmore & m & c & Ho & Hep & Hmon & Hc & Hcb) |
                      (_ & Hep & Hmon & _)]; [left|by right].
    split; [done|]. split; [done|]. split; [done|]. by exists m, c.
  - intros Hmore.
    destruct Hout as [(_ & _ & Hmore' & _) | (_ & Hep & Hmon & _)];
      [congruence|done].
Qed.

(** ** The streaming dispatch *)

Lemma find_cursor_Some c es i :
  find_cursor c es = Some i → ∃ e, es !! i = Some e ∧ e_cursor e = c.
Proof.
  revert i. induction es as [|e es IH]; intros i; cbn [find_cursor]; [done|].
  destruct (String.eqb_spec (e_cursor e) c) as [Heq|Hne].
  - intros [= <-]. by exists e.
  - destruct (find_cursor c es) as [i'|]; [|done].
    intros [= <-]. by apply IH.
Qed.

(** The read-batch of the dispatch fails only with the panic code. *)
Lemma dispatch_read_failure m c :
  (monitor_read_entries m).1.1 < 0 →
  dispatch_read m c = (- VARLINK_ERROR_PANIC, (monitor_read_entries m).1.2, c).
Proof.
  unfold dispatch_read.
  destruct (monitor_read_entries m) as [[r m'] entries] eqn:Hread.
  cbn [fst snd]. intros Hr.
  apply monitor_read_entries_result in Hread as [[-> _] | [-> _]]; [done | lia].
Qed.

(** A dispatch that does not return 0 has sent nothing; the monitor keeps
    its call. *)
Lemma dispatch_read_call m c r m' c' :
  dispatch_read m c = (r, m', c') → (r ≠ 0 → c' = c).
Proof.
  unfold dispatch_read.
  destruct (monitor_read_entries m) as [[r0 m0] entries].
  destruct (r0 <? 0); [by intros [= <- <- <-]|].
  destruct (r0 =? 0); [by intros [= <- <- <-]|].
  unfold varlink_call_reply, send.
  destruct (c_error c <? 0); intros [= <- <- <-]; done.
Qed.

Lemma monitor_dispatch_call m c r m' c' :
  monitor_dispatch m c = (r, m', c') → (r ≠ 0 → c' = c).
Proof.
  unfold monitor_dispatch.
  destruct (on_journal sd_journal_process m) as [event m1].
  destruct (event =? SD_JOURNAL_INVALIDATE).
  - destruct (match cursor m1 with Some _ => _ | None => _ end) as [r2 m2].
    destruct (r2 <? 0); [by intros [= <- <- <-]|]. apply dispatch_read_call.
  - destruct (negb _); [by intros [= <- <- <-]|]. apply dispatch_read_call.
Qed.

(** ** The text of a field *)

Lemma sd_journal_get_data_inv j field data len :
  sd_journal_get_data j field = (0, data, len) →
  ∃ e v, current_entry j = Some e ∧ find_field field (e_data e) = Some v ∧
         data = field +:+ "=" +:+ v ∧ len = String.length data.
Proof.
  unfold sd_journal_get_data.
  destruct (Z.ltb_spec (j_fault j In_get_data) 0) as [Hf|Hf]; [intros [= ? ? ?]; lia|].
  destruct (current_entry j) as [e|] eqn:Hcur; [|done].
  destruct (find_field field (e_data e)) as [v|] eqn:Hv; [|done].
  intros [= <- <-]. by exists e, v.
Qed.

Lemma c_string_append a b :
  nul_free a = true → c_string (a +:+ b) = a +:+ c_string b.
Proof.
  unfold c_string. induction a as [|c a IH]; [done|].
  rewrite append_String. cbn [nul_free String.length strndup].
  intros [Hc Ha]%andb_true_iff. apply negb_true_iff in Hc. rewrite Hc.
  by rewrite IH.
Qed.

Lemma c_string_nul b : c_string (String "000" b) = EmptyString.
Proof. done. Qed.

Lemma c_string_cut a b :
  nul_free a = true → c_string (a +:+ String "000" b) = a.
Proof.
  intros Ha. rewrite c_string_append, c_string_nul by done.
  clear. induction a as [|c a IH]; [done|]. rewrite append_String. by rewrite IH.
Qed.

(** ** [strtoll] with white space and a sign *)

Lemma isspace_not_nul c : isspace c = true → is_nul c = false.
Proof. destruct c as [[] [] [] [] [] [] [] []]; by vm_compute. Qed.

Lemma isdigit_not_nul c : isdigit c = true → is_nul c = false.
Proof. destruct c as [[] [] [] [] [] [] [] []]; by vm_compute. Qed.

Lemma all_space_nul_free ws : all_space ws = true → nul_free ws = true.
Proof.
  induction ws as [|c ws IH]; [done|]. cbn [all_space nul_free].
  intros [Hc Hws]%andb_true_iff. by rewrite (isspace_not_nul _ Hc), IH.
Qed.

Lemma all_digits_nul_free ds : all_digits ds = true → nul_free ds = true.
Proof.
  induction ds as [|c ds IH]; [done|]. cbn [all_digits nul_free].
  intros [Hc Hds]%andb_true_iff. by rewrite (isdigit_not_nul _ Hc), IH.
Qed.

Lemma span_space_append ws x :
  all_space ws = true →
  match x with String c _ => isspace c = false | EmptyString => True end →
  span_space (ws +:+ x) = String.length ws ∧
  string_drop (String.length ws) (ws +:+ x) = x.
Proof.
  intros Hws Hx. induction ws as [|c ws IH]; rewrite ?append_empty, ?append_String.
  - destruct x as [|c x]; [done|]. cbn [span_space]. by rewrite Hx.
  - cbn [all_space] in Hws. apply andb_true_iff in Hws as [Hc Hws].
    cbn [span_space String.length string_drop]. rewrite Hc.
    destruct (IH Hws) as [-> ->]. done.
Qed.

Lemma starts_with_digit_c_string rest :
  starts_with_digit rest = false → starts_with_digit (c_string rest) = false.
Proof.
  destruct rest as [|c rest]; [done|]. unfold c_string.
  cbn [String.length strndup starts_with_digit]. by destruct (is_nul c).
Qed.

Lemma strtoll_signed ws sg neg ds rest :
  all_space ws = true → sign_text sg neg →
  ds ≠ EmptyString → all_digits ds = true → starts_with_digit rest = false →
  strtoll (ws +:+ sg +:+ ds +:+ rest) =
  (clamp_int64 (if neg then - digits_value ds 0 else digits_value ds 0),
   (String.length ws + String.length sg + String.length ds)%nat).
Proof.
  intros Hws Hsg Hne Hds Hrest. destruct ds as [|c ds]; [done|].
  pose proof Hds as Hds'. cbn [all_digits] in Hds'.
  apply andb_true_iff in Hds' as [Hc _].
  destruct (isdigit_not_space_sign c Hc) as (Hsp & Hm & Hp).
  unfold strtoll.
  destruct (span_space_append ws (sg +:+ String c ds +:+ rest) Hws) as [-> ->].
  { destruct Hsg; rewrite ?append_empty, ?append_String; done. }
  destruct Hsg; rewrite ?append_empty, ?append_String.
  - rewrite Hm, Hp. cbn [string_drop]. rewrite <- append_String.
    rewrite span_digits_append, digits_value_append by done.
    cbn [String.length Nat.eqb]. done.
  - change ("+" =? "-")%char with false. change ("+" =? "+")%char with true.
    cbn [string_drop]. rewrite append_empty, <- append_String.
    rewrite span_digits_append, digits_value_append by done.
    cbn [String.length Nat.eqb]. done.
  - change ("-" =? "-")%char with true.
    cbn [string_drop]. rewrite append_empty, <- append_String.
    rewrite span_digits_append, digits_value_append by done.
    cbn [String.length Nat.eqb]. done.
Qed.

Lemma sign_text_nul_free sg neg : sign_text sg neg → nul_free sg = true.
Proof. by destruct 1. Qed.

Lemma clamp_int64_range n : INT64_MIN ≤ clamp_int64 n ≤ INT64_MAX.
Proof. unfold clamp_int64, INT64_MIN, INT64_MAX. lia. Qed.

(** ** The time stamp as a text *)

Lemma two_digits_text n : 0 ≤ n ≤ 99 → two_digit_text (two_digits n) = true.
Proof.
  intros Hn.
  assert (forallb (λ k, two_digit_text (two_digits (Z.of_nat k))) (seq 0 100) = true)
    as Hall by (vm_compute; reflexivity).
  rewrite forallb_forall in Hall.
  rewrite <- (Z2Nat.id n) by lia. apply Hall, in_seq. lia.
Qed.

Lemma pretty_four_digits y : 1000 ≤ y ≤ 9999 → four_digit_text (pretty y) = true.
Proof.
  intros Hy.
  assert (forallb (λ k, four_digit_text (pretty (1000 + Z.of_nat k)))
            (seq 0 (Z.to_nat 9000)) = true)
    as Hall by (vm_compute; reflexivity).
  rewrite forallb_forall in Hall.
  replace y with (1000 + Z.of_nat (Z.to_nat (y - 1000))) by lia.
  apply Hall, in_seq. lia.
Qed.

Lemma pretty_N_go_length k :
  ∀ x s, (x < 10 ^ N.of_nat k)%N →
         (String.length (pretty_N_go x s) ≤ String.length s + k)%nat.
Proof.
  induction k as [|k IH]; intros x s Hx.
  - assert (x = 0%N) as -> by (cbn in Hx; lia). rewrite pretty_N_go_0. lia.
  - destruct (decide (x = 0)%N) as [->|Hne]; [rewrite pretty_N_go_0; lia|].
    rewrite pretty_N_go_step by lia.
    etrans; [apply IH|cbn [String.length]; lia].
    rewrite Nat2N.inj_succ, N.pow_succ_r' in Hx.
    apply N.Div0.div_lt_upper_bound. lia.
Qed.

Lemma pretty_Z_length k y :
  0 ≤ y < 10 ^ Z.of_nat (S k) → (String.length (pretty y) ≤ S k)%nat.
Proof.
  intros Hy. destruct y as [|p|p]; [cbn; lia| |lia].
  unfold pretty, pretty_Z, pretty, pretty_positive, pretty, pretty_N.
  destruct (decide (N.pos p = 0)%N); [done|].
  etrans; [apply (pretty_N_go_length (S k))|cbn [String.length]; lia].
  assert (Z.of_N (N.pos p) < Z.of_N (10 ^ N.of_nat (S k))); [|lia].
  rewrite N2Z.inj_pow, nat_N_Z. cbn [Z.of_N]. lia.
Qed.

Lemma civil_from_days_fields days :
  0 ≤ days →
  let '(y, m, d) := civil_from_days days in
  1 ≤ m ≤ 12 ∧ 1 ≤ d ≤ 31 ∧ 1970 ≤ y ∧ (days ≤ 2932896 → y ≤ 9999).
Proof.
  intros Hd. unfold civil_from_days.
  set (z := days + 719468).
  set (era := z / 146097).
  set (doe := z - era * 146097).
  set (yoe := (doe - doe / 1460 + doe / 36524 - doe / 146096) / 365).
  set (doy := doe - (365 * yoe + yoe / 4 - yoe / 100)).
  set (mp := (5 * doy + 2) / 153).
  set (d := doy - (153 * mp + 2) / 5 + 1).
  assert (0 ≤ doe < 146097) as Hdoe.
  { subst doe era z. Z.div_mod_to_equations. lia. }
  assert (0 ≤ yoe ≤ 399 ∧ 0 ≤ doy ≤ 365) as [Hyoe Hdoy].
  { subst doy yoe. clearbody doe. clear - Hdoe. Z.div_mod_to_equations. lia. }
  assert (0 ≤ mp ≤ 11 ∧ 1 ≤ d ≤ 31) as [Hmp Hday].
  { subst d mp. clearbody doy. clear - Hdoy. Z.div_mod_to_equations. lia. }
  assert (1970 ≤ yoe + era * 400 + (if mp <? 10 then 0 else 1) ∧
          (days ≤ 2932896 →
           yoe + era * 400 + (if mp <? 10 then 0 else 1) ≤ 9999)) as Hy.
  { subst mp doy yoe doe era z. clear - Hd.
    destruct (_ <? 10) eqn:Hmp; Z.div_mod_to_equations; lia. }
  clearbody d mp yoe era.
  destruct (Z.ltb_spec mp 10).
  - destruct (Z.leb_spec (mp + 3) 2); [lia|]. rewrite Z.add_0_r in Hy. lia.
  - destruct (Z.leb_spec (mp - 9) 2); [|lia]. lia.
Qed.

Lemma two_digit_text_inv s :
  two_digit_text s = true →
  ∃ a b, s = String a (String b EmptyString) ∧ isdigit a = true ∧ isdigit b = true.
Proof.
  destruct s as [|a [|b [|c s]]]; try done. cbn [two_digit_text].
  intros [Ha Hb]%andb_true_iff. by exists a, b.
Qed.

Lemma four_digit_text_inv s :
  four_digit_text s = true →
  ∃ a b c d, s = String a (String b (String c (String d EmptyString))) ∧
             isdigit a = true ∧ isdigit b = true ∧ isdigit c = true ∧
             isdigit d = true.
Proof.
  destruct s as [|a [|b [|c [|d [|e s]]]]]; try done. cbn [four_digit_text].
  intros [[[Ha Hb]%andb_true_iff Hc]%andb_true_iff Hd]%andb_true_iff.
  by exists a, b, c, d.
Qed.

(** The fields [gmtime_r] fills for the seconds of a [uint64_t] of
    microseconds. *)
Lemma gmtime_r_fields time :
  0 ≤ time ≤ 18446744073709 →
  ∃ t, gmtime_r time = Some t ∧
       1970 ≤ tm_year t ≤ 2 ^ 20 ∧ (time < 253402300800 → tm_year t ≤ 9999) ∧
       1 ≤ tm_mon t ≤ 12 ∧ 1 ≤ tm_mday t ≤ 31 ∧ 0 ≤ tm_hour t ≤ 23 ∧
       0 ≤ tm_min t ≤ 59 ∧ 0 ≤ tm_sec t ≤ 59.
Proof.
  intros Ht. unfold gmtime_r.
  assert (0 ≤ time / 86400 ≤ 2 ^ 28) as Hdays.
  { change (2 ^ 28) with 268435456. Z.div_mod_to_equations. lia. }
  pose proof (civil_year_bounds _ Hdays) as Hyear.
  pose proof (civil_from_days_fields (time / 86400) (proj1 Hdays)) as Hf.
  destruct (civil_from_days (time / 86400)) as [[y m] d]. cbn [fst] in Hyear.
  destruct Hf as (Hm & Hd & Hy & Hy').
  change (2 ^ 20) with 1048576 in *.
  destruct (Z.leb_spec (y - 1900) (2 ^ 31 - 1)) as [_|Hc];
    [|change (2 ^ 31) with 2147483648 in Hc; lia].
  destruct (Z.leb_spec (- 2 ^ 31) (y - 1900)) as [_|Hc];
    [|change (2 ^ 31) with 2147483648 in Hc; lia].
  eexists. split; [done|]. cbn [tm_year tm_mon tm_mday tm_hour tm_min tm_sec].
  split; [lia|]. split.
  { intros Hlt. apply Hy'. clear - Ht Hlt. Z.div_mod_to_equations. lia. }
  split; [done|]. split; [done|].
  clear. Z.div_mod_to_equations. lia.
Qed.

Lemma days_from_civil_from_days days :
  let '(y, m, d) := civil_from_days days in days_from_civil y m d = days.
Proof.
  unfold civil_from_days.
  set (z := days + 719468).
  set (era := z / 146097).
  set (doe := z - era * 146097).
  set (yoe := (doe - doe / 1460 + doe / 36524 - doe / 146096) / 365).
  set (doy := doe - (365 * yoe + yoe / 4 - yoe / 100)).
  set (mp := (5 * doy + 2) / 153).
  set (d := doy - (153 * mp + 2) / 5 + 1).
  assert (0 ≤ doe < 146097) as Hdoe.
  { subst doe era z. Z.div_mod_to_equations. lia. }
  assert (0 ≤ yoe ≤ 399 ∧ 0 ≤ doy ≤ 365) as [Hyoe Hdoy].
  { subst doy yoe. clearbody doe. clear - Hdoe. Z.div_mod_to_equations. lia. }
  assert (0 ≤ mp ≤ 11) as Hmp.
  { subst mp. clearbody doy. clear - Hdoy. Z.div_mod_to_equations. lia. }
  unfold days_from_civil.
  assert ((if (if mp <? 10 then mp + 3 else mp - 9) <=? 2
           then yoe + era * 400
                + (if (if mp <? 10 then mp + 3 else mp - 9) <=? 2 then 1 else 0) - 1
           else yoe + era * 400
                + (if (if mp <? 10 then mp + 3 else mp - 9) <=? 2 then 1 else 0))
          = yoe + era * 400) as ->.
  { destruct (_ <=? 2); lia. }
  assert ((if 2 <? (if mp <? 10 then mp + 3 else mp - 9)
           then (if mp <? 10 then mp + 3 else mp - 9) - 3
           else (if mp <? 10 then mp + 3 else mp - 9) + 9) = mp) as ->.
  { destruct (Z.ltb_spec mp 10).
    - destruct (Z.ltb_spec 2 (mp + 3)); lia.
    - destruct (Z.ltb_spec 2 (mp - 9)); lia. }
  assert ((yoe + era * 400) / 400 = era) as ->.
  { clear - Hyoe. Z.div_mod_to_equations. lia. }
  replace (yoe + era * 400 - era * 400) with yoe by lia.
  subst d doy z doe. lia.
Qed.

Lemma timegm_gmtime_r time t : gmtime_r time = Some t → timegm t = time.
Proof.
  unfold gmtime_r, timegm.
  pose proof (days_from_civil_from_days (time / 86400)) as Hd.
  destruct (civil_from_days (time / 86400)) as [[y m] d].
  destruct (_ && _); [|done]. intros [= <-].
  cbn [tm_year tm_mon tm_mday tm_hour tm_min tm_sec]. rewrite Hd.
  clear. Z.div_mod_to_equations. lia.
Qed.

Lemma two_digits_inj n n' :
  0 ≤ n ≤ 99 → 0 ≤ n' ≤ 99 → two_digits n = two_digits n' → n = n'.
Proof.
  intros Hn Hn'.
  assert (forallb (λ k, forallb (λ k',
            implb (String.eqb (two_digits (Z.of_nat k)) (two_digits (Z.of_nat k')))
                  (k =? k')%nat) (seq 0 100)) (seq 0 100) = true)
    as Hall by (vm_compute; reflexivity).
  rewrite forallb_forall in Hall.
  specialize (Hall (Z.to_nat n)). rewrite forallb_forall in Hall.
  specialize (Hall ltac:(apply in_seq; lia) (Z.to_nat n') ltac:(apply in_seq; lia)).
  rewrite !Z2Nat.id in Hall by lia. intros Heq. rewrite Heq in Hall.
  rewrite String.eqb_refl in Hall. cbn [implb] in Hall.
  apply Nat.eqb_eq in Hall. lia.
Qed.

Lemma string_app_inj (a a' b b' : string) :
  String.length a = String.length a' → a +:+ b = a' +:+ b' → a = a' ∧ b = b'.
Proof.
  revert a'. induction a as [|c a IH]; intros [|c' a']; try done.
  cbn [String.length]. rewrite !append_String. intros [= Hlen] [= -> Heq].
  destruct (IH _ Hlen Heq) as [-> ->]. done.
Qed.

Lemma two_digits_length n : 0 ≤ n ≤ 99 → String.length (two_digits n) = 2%nat.
Proof.
  intros Hn. destruct (two_digit_text_inv _ (two_digits_text n Hn))
    as (a & b & -> & _). done.
Qed.

Lemma two_digits_same_length n n' :
  0 ≤ n ≤ 99 → 0 ≤ n' ≤ 99 →
  String.length (two_digits n) = String.length (two_digits n').
Proof. intros Hn Hn'. by rewrite (two_digits_length n), (two_digits_length n'). Qed.

Lemma strftime_length t :
  tm_valid t → String.length (strftime t) = (String.length (pretty (tm_year t)) + 16)%nat.
Proof.
  intros (_ & ? & ? & ? & ? & ?). unfold strftime.
  rewrite !string_length_append, !two_digits_length by done. cbn [String.length]. lia.
Qed.

Lemma strftime_inj t t' :
  tm_valid t → tm_valid t' → strftime t = strftime t' → t = t'.
Proof.
  intros Hv Hv' Heq.
  pose proof (f_equal String.length Heq) as Hlen.
  rewrite !strftime_length in Hlen by done.
  destruct Hv as (? & ? & ? & ? & ? & ?), Hv' as (? & ? & ? & ? & ? & ?).
  unfold strftime in Heq.
  apply string_app_inj in Heq as [Hy Heq]; [|lia].
  apply (inj pretty) in Hy.
  change ("-" +:+ ?x) with (String "-" x) in Heq. injection Heq as Heq.
  apply string_app_inj in Heq as [Hm Heq]. 2:{ by apply two_digits_same_length. }
  injection Heq as Heq. rewrite ?append_empty in Heq.
  apply string_app_inj in Heq as [Hd Heq]. 2:{ by apply two_digits_same_length. }
  injection Heq as Heq. rewrite ?append_empty in Heq.
  apply string_app_inj in Heq as [Hh Heq]. 2:{ by apply two_digits_same_length. }
  injection Heq as Heq. rewrite ?append_empty in Heq.
  apply string_app_inj in Heq as [Hn Heq]. 2:{ by apply two_digits_same_length. }
  injection Heq as Heq. rewrite ?append_empty in Heq.
  apply string_app_inj in Heq as [Hs _]. 2:{ by apply two_digits_same_length. }
  apply two_digits_inj in Hm, Hd, Hh, Hn, Hs; [|done..].
  destruct t, t'. cbn in *. by subst.
Qed.

(** ** Batches in a row *)

Lemma read_entries_loop_end j :
  ∀ entries n_read j' entries' n_read',
    read_entries_loop j entries n_read = (0, j', entries', n_read') →
    journal_read_next_entry j' = (0, j', None).
Proof.
  induction j as [j IH] using remaining_ind. intros entries n_read j' entries' n_read'.
  rewrite read_entries_loop_step.
  destruct (journal_read_next_entry j) as [[r1 j1] o] eqn:H1.
  destruct (journal_read_next_entry_cases _ _ _ _ H1)
    as [[-> [w ->]] | [[Hr ->] | (-> & -> & -> & Hlen)]].
  - cbn [Z.ltb Z.eqb Z.compare]. apply IH.
    eapply journal_read_next_entry_remaining; [done | lia].
  - destruct (Z.ltb_spec r1 0); [|lia]. intros Heq. injection Heq as ? ? ? ?. lia.
  - cbn [Z.ltb Z.eqb Z.compare]. intros Heq. injection Heq as <- ? ?. done.
Qed.

Lemma set_journal_id m j : journal m = Some j → set_journal m (Some j) = m.
Proof. destruct m. cbn. by intros ->. Qed.

Lemma monitor_read_entries_frame m :
  call (monitor_read_entries m).1.2 = call m ∧
  epoll_fd (monitor_read_entries m).1.2 = epoll_fd m.
Proof.
  unfold monitor_read_entries. destruct (journal m) as [j|]; [|done].
  destruct (read_entries_loop j [] 0) as [[[r0 j'] batch] n_read].
  destruct (r0 <? 0); [done|]. destruct (0 <? n_read); [|done].
  destruct (sd_journal_get_cursor j') as [r c]. by destruct (r <? 0).
Qed.

Lemma on_journal_frame f m :
  call (on_journal f m).2 = call m ∧ epoll_fd (on_journal f m).2 = epoll_fd m ∧
  cursor (on_journal f m).2 = cursor m.
Proof. unfold on_journal. destruct (journal m); [|done]. by destruct (f _). Qed.

Lemma dispatch_read_reply m c :
  let '(r, m', c') := dispatch_read m c in
  call m' = call m ∧ epoll_fd m' = epoll_fd m ∧
  ((c' = c ∧ (r = 0 ∨ r = - VARLINK_ERROR_PANIC ∨ (r = c_error c ∧ c_error c < 0))) ∨
   ∃ entries, entries ≠ [] ∧ r = 0 ∧
     c' = add_reply c (Reply_entries entries VARLINK_REPLY_CONTINUES) ∧
     cursor m' = we_cursor <$> last entries).
Proof.
  unfold dispatch_read.
  pose proof (monitor_read_entries_frame m) as [Hcall Hfd].
  destruct (monitor_read_entries m) as [[r m'] entries] eqn:Hread.
  cbn [fst snd] in Hcall, Hfd.
  apply monitor_read_entries_result in Hread
    as [[-> ->] | (-> & Hcur & _)].
  { cbn. split; [done|]. split; [done|]. left. auto. }
  destruct (Z.ltb_spec (Z.of_nat (length entries)) 0); [lia|].
  destruct (Z.eqb_spec (Z.of_nat (length entries)) 0) as [H0|H0].
  { split; [done|]. split; [done|]. left. auto. }
  unfold varlink_call_reply, send.
  destruct (Z.ltb_spec (c_error c) 0).
  { split; [done|]. split; [done|]. left. auto. }
  split; [done|]. split; [done|]. right. exists entries.
  split; [|done]. intros ->. done.
Qed.

Lemma monitor_read_entries_from m j :
  journal m = Some j → reads_work j →
  (∀ k e, (next_index j ≤ k)%nat → j_entries j !! k = Some e →
          translation_error e = 0) →
  monitor_read_entries m =
  (Z.of_nat (length (j_entries j) - next_index j),
   {| call := call m; journal := Some (end_of_journal j);
      cursor := e_cursor <$> last (drop (next_index j) (j_entries j));
      epoll_fd := epoll_fd m |},
   wire_entry <$> drop (next_index j) (j_entries j)).
Proof.
  intros Hj Hw Hall. unfold monitor_read_entries. rewrite Hj.
  rewrite read_entries_loop_all by eauto. cbn [Z.ltb Z.compare app].
  unfold end_of_journal.
  destruct (Nat.ltb_spec (next_index j) (length (j_entries j))) as [Hlt|Hge].
  - destruct (Z.ltb_spec 0 (0 + Z.of_nat (length (j_entries j) - next_index j)));
      [|lia].
    destruct Hw as (_ & Hc & _). unfold sd_journal_get_cursor.
    change (j_fault (set_location j _)) with (j_fault j). rewrite Hc.
    unfold current_entry. cbn [set_location j_location j_entries].
    destruct (lookup_lt_is_Some_2 (j_entries j) (length (j_entries j) - 1))
      as [e He]; [lia|].
    rewrite He. cbn [Z.ltb Z.compare].
    assert (last (drop (next_index j) (j_entries j)) = Some e) as ->.
    { rewrite last_lookup, length_drop, lookup_drop. rewrite <- He. f_equal. lia. }
    unfold set_cursor, set_journal.
    cbn [call journal cursor epoll_fd fmap option_fmap option_map e_cursor].
    f_equal; lia.
  - rewrite drop_ge by done.
    replace (length (j_entries j) - next_index j)%nat with O by lia.
    cbn. done.
Qed.

(** One wake-up for appended records: the batch is read, and sent when it
    is not empty. *)
Lemma dispatch_append_read m c j batch rest :
  journal m = Some j → at_last_record j →
  j_changes j = Append batch :: rest →
  (j_fault j In_process <? 0) = false → reads_work j →
  translatable batch →
  ∃ m' j',
    monitor_dispatch m c =
    (let '(r, c') :=
       match batch with
       | [] => (0, c)
       | _ => varlink_call_reply c (wire_entry <$> batch) VARLINK_REPLY_CONTINUES
       end in (r, m', c')) ∧
    journal m' = Some j' ∧ at_last_record j' ∧
    j_entries j' = j_entries j ++ batch ∧ j_changes j' = rest ∧
    j_fault j' = j_fault j ∧
    cursor m' = e_cursor <$> last batch ∧ call m' = call m.
Proof.
  intros Hj (i & Hloc & Hi) Hch Hp Hw Hall.
  unfold monitor_dispatch, on_journal at 1. rewrite Hj.
  unfold sd_journal_process. rewrite Hp, Hch.
  cbn [Z.eqb SD_JOURNAL_INVALIDATE SD_JOURNAL_APPEND Pos.eqb negb].
  set (j1 := {| j_entries := j_entries j ++ batch; j_location := j_location j;
                j_fd := j_fd j; j_changes := rest; j_fault := j_fault j |}).
  assert (next_index j1 = length (j_entries j)) as Hnext.
  { unfold next_index. cbn [j1 j_location]. by rewrite Hloc. }
  unfold dispatch_read.
  rewrite (monitor_read_entries_from _ j1); [|done|done|].
  2:{ intros k e Hk. rewrite Hnext in Hk. cbn [j1 j_entries].
      rewrite lookup_app_r by done. apply Hall. }
  rewrite Hnext. cbn [j1 j_entries]. rewrite drop_app_length, length_app.
  replace (length (j_entries j) + length batch - length (j_entries j))%nat
    with (length batch) by lia.
  destruct (Z.ltb_spec (Z.of_nat (length batch)) 0); [lia|].
  assert (at_last_record (end_of_journal j1)) as Hlast.
  { unfold end_of_journal. rewrite Hnext. unfold j1 at 1. cbn [j_entries].
    rewrite length_app.
    destruct (Nat.ltb_spec (length (j_entries j))
                (length (j_entries j) + length batch)).
    - eexists. split; [done|]. cbn [set_location j1 j_entries].
      rewrite length_app. lia.
    - exists i. split; [done|]. cbn [j1 j_entries]. rewrite length_app. lia. }
  assert (j_entries (end_of_journal j1) = j_entries j ++ batch ∧
          j_changes (end_of_journal j1) = rest ∧
          j_fault (end_of_journal j1) = j_fault j) as (He & Hc' & Hf').
  { unfold end_of_journal. by destruct (_ <? _)%nat. }
  destruct batch as [|e batch'].
  - cbn [length Z.of_nat Z.eqb].
    eexists _, _. split; [done|]. cbn [journal cursor call]. done.
  - destruct (Z.eqb_spec (Z.of_nat (length (e :: batch'))) 0) as [H0|_];
      [simpl in H0; lia|].
    destruct (varlink_call_reply c _ _) as [r c'].
    eexists _, _. split; [done|]. cbn [journal cursor call]. done.
Qed.

Lemma dispatch_append m c j batch rest :
  journal m = Some j → at_last_record j →
  j_changes j = Append batch :: rest →
  (j_fault j In_process <? 0) = false → reads_work j →
  translatable batch → (c_error c <? 0) = false →
  ∃ m' j',
    monitor_dispatch m c = (0, m', foldl add_reply c (batch_reply batch)) ∧
    journal m' = Some j' ∧ at_last_record j' ∧
    j_entries j' = j_entries j ++ batch ∧ j_changes j' = rest ∧
    j_fault j' = j_fault j ∧
    cursor m' = e_cursor <$> last batch.
Proof.
  intros Hj Hlast Hch Hp Hw Hall Herr.
  destruct (dispatch_append_read m c j batch rest Hj Hlast Hch Hp Hw Hall)
    as (m' & j' & Hd & Hj' & Hlast' & He & Hch' & Hf & Hcur & _).
  exists m', j'. split; [|done]. rewrite Hd.
  destruct batch; [done|]. unfold varlink_call_reply, send. by rewrite Herr.
Qed.

Lemma foldl_add_reply c replies :
  c_replies (foldl add_reply c replies) = c_replies c ++ replies ∧
  c_error (foldl add_reply c replies) = c_error c ∧
  c_refs (foldl add_reply c replies) = c_refs c ∧
  c_closed_callback (foldl add_reply c replies) = c_closed_callback c.
Proof.
  revert c. induction replies as [|reply replies IH]; intros c; cbn [foldl].
  - by rewrite app_nil_r.
  - destruct (IH (add_reply c reply)) as (-> & -> & -> & ->).
    cbn [add_reply c_replies c_error c_refs c_closed_callback].
    by rewrite <- app_assoc.
Qed.

Lemma reply_entries_app a b :
  reply_entries (a ++ b) = reply_entries a ++ reply_entries b.
Proof. unfold reply_entries. by rewrite fmap_app, concat_app. Qed.

Lemma reply_entries_batches batches :
  reply_entries (concat (batch_reply <$> batches)) = wire_entry <$> concat batches.
Proof.
  induction batches as [|batch batches IH]; [done|].
  cbn [fmap list_fmap concat]. rewrite reply_entries_app, fmap_app, IH.
  f_equal. destruct batch; [done|]. unfold reply_entries. cbn. by rewrite app_nil_r.
Qed.

Lemma dispatches_appends batches :
  ∀ m c j,
    journal m = Some j → at_last_record j →
    j_changes j = Append <$> batches →
    (j_fault j In_process <? 0) = false → reads_work j →
    translatable (concat batches) → (c_error c <? 0) = false →
    ∃ m' j',
      dispatches (length batches) m c
      = (0, m', foldl add_reply c (concat (batch_reply <$> batches))) ∧
      journal m' = Some j' ∧ at_last_record j' ∧
      j_entries j' = j_entries j ++ concat batches ∧ j_changes j' = [] ∧
      (batches ≠ [] → cursor m' = e_cursor <$> (last batches ≫= last)).
Proof.
  induction batches as [|batch batches IH]; intros m c j Hj Hlast Hch Hp Hw Hall Herr.
  - exists m, j. cbn. by rewrite app_nil_r.
  - cbn [fmap list_fmap] in Hch.
    destruct (dispatch_append m c j batch (Append <$> batches) Hj Hlast Hch Hp Hw)
      as (m1 & j1 & Hd & Hj1 & Hlast1 & He1 & Hch1 & Hf1 & Hcur1); [|done|].
    { intros k e He. apply (Hall k). cbn [concat]. by apply lookup_app_l_Some. }
    destruct (foldl_add_reply c (batch_reply batch)) as (_ & Herr1 & _).
    destruct (IH m1 (foldl add_reply c (batch_reply batch)) j1)
      as (m' & j' & Hd' & Hj' & Hlast' & He' & Hch' & Hcur'); [done|done|done| | | | |].
    + by rewrite Hf1.
    + unfold reads_work. by rewrite Hf1.
    + intros k e He. apply (Hall (length batch + k)%nat). cbn [concat].
      by rewrite lookup_app_r, Nat.add_comm, Nat.add_sub by lia.
    + by rewrite Herr1.
    + exists m', j'. cbn [length dispatches]. rewrite Hd. cbn [Z.eqb].
      rewrite Hd'. cbn [fmap list_fmap concat]. rewrite foldl_app.
      split; [done|]. split; [done|]. split; [done|]. split.
      { rewrite He', He1. cbn [concat]. by rewrite app_assoc. }
      split; [done|]. intros _. destruct batches as [|b bs].
      * cbn in Hd'. injection Hd' as <-. by rewrite Hcur1.
      * rewrite Hcur' by done. done.
Qed.

(** ** The handler, exactly *)

(** [monitor_new] on a descriptor that is not registered yet, step by step:
    the code of the first step that fails, with the process as it was; else
    the new monitor. *)
Lemma monitor_new_result st cid epfd os_open files :
  epoll st !! j_fd files = None →
  let p := fresh (dom (monitors st)) in
  let m := {| call := cid; journal := Some (set_location files LOCATION_TAIL);
              cursor := None; epoll_fd := epfd |} in
  monitor_new st cid epfd os_open files =
  if os_open <? 0 then (os_open, None, st)
  else if j_fd files <? 0 then (- EBADF, None, st)
  else if j_fault files In_seek_tail <? 0
       then (j_fault files In_seek_tail, None, st)
       else (0, Some p,
             with_session st (j_fd files) p m
               (alter varlink_call_ref cid (calls st))).
Proof.
  intros Hfd p m. pose proof (fresh_monitor st) as Hp. fold p in Hp.
  unfold monitor_new, sd_journal_open, epoll_add, epoll_ctl_add, on_journal,
    sd_journal_seek_tail, cleanup_monitor, monitor_freep, monitor_free, deref,
    store, epoll_ctl_del, sd_journal_get_fd, with_session.
  fold p. clearbody p.
  destruct (Z.ltb_spec os_open 0) as [Hopen|Hopen]; simpl.
  { rewrite !lookup_insert_eq. simpl.
    rewrite insert_insert_eq, delete_insert_id, unref_ref_calls by done.
    destruct (Z.ltb_spec os_open 0); [|lia]. by rewrite Process_eta. }
  rewrite insert_insert_eq.
  destruct (Z.ltb_spec (j_fd files) 0) as [Hneg|Hnonneg]; simpl.
  { rewrite !lookup_insert_eq. simpl.
    rewrite delete_insert_id, delete_id, unref_ref_calls by done.
    by rewrite Process_eta. }
  rewrite Hfd. simpl.
  destruct (Z.ltb_spec (j_fault files In_seek_tail) 0) as [Hf|Hf]; simpl.
  { destruct (Z.ltb_spec (j_fault files In_seek_tail) 0); [|lia].
    rewrite insert_insert_eq, !lookup_insert_eq. simpl.
    rewrite !delete_insert_id, unref_ref_calls by done.
    by rewrite Process_eta. }
  by rewrite insert_insert_eq.
Qed.

(** The handler on a call the transport knows, when the monitor can be set
    up and [initial_lines] is not negative: the result on each path. *)
Lemma handler_paths st cid c0 parameters flags userdata os_open files :
  epoll st !! j_fd files = None → calls st !! cid = Some c0 →
  set_up_fails os_open files = false →
  let k := default 10 (parameters !! "initial_lines"%string) in
  0 ≤ k →
  let p := fresh (dom (monitors st)) in
  let more := negb (Z.land flags VARLINK_CALL_MORE =? 0) in
  let m0 := {| call := cid; journal := Some (set_location files LOCATION_TAIL);
               cursor := None; epoll_fd := userdata |} in
  let positioned :=
    on_journal (λ j, sd_journal_previous_skip j ((k + 1) `mod` 2 ^ 64)) m0 in
  let batch := monitor_read_entries positioned.2 in
  com_redhat_logging_monitor st cid parameters flags userdata os_open files =
  if positioned.1 <? 0 then (positioned.1, st)
  else if batch.1.1 <? 0 then (batch.1.1, st)
  else if c_error c0 <? 0 then (c_error c0, st)
  else if more then
    (0, with_session st (j_fd files) p batch.1.2
          (<[cid := varlink_call_set_connection_closed_callback
                      (varlink_call_ref
                         (add_reply c0 (Reply_entries batch.2 VARLINK_REPLY_CONTINUES)))
                      p]> (calls st)))
  else (0, set_calls st (<[cid := add_reply c0 (Reply_entries batch.2 0)]> (calls st))).
Proof.
  intros Hfd Hc Hup k Hk p more m0 positioned batch.
  pose proof (fresh_monitor st) as Hp. fold p in Hp.
  pose proof (monitor_new_cases st cid userdata os_open files Hfd) as Hnew.
  cbn zeta in Hnew. unfold set_up_fails in Hup. rewrite Hup in Hnew.
  fold p m0 in Hnew.
  unfold com_redhat_logging_monitor, cleanup_monitor. fold k more.
  rewrite Hnew. cbn [Z.ltb Z.compare].
  destruct (Z.ltb_spec k 0); [lia|].
  rewrite deref_with_session.
  assert (opened (j_fd files) cid m0) as Ho0.
  { split; [done|]. by exists (set_location files LOCATION_TAIL). }
  pose proof (on_journal_opened
                (λ j, sd_journal_previous_skip j ((k + 1) `mod` 2 ^ 64)) _ _ m0
                (λ j, sd_journal_previous_skip_frame j _) Ho0) as Ho1.
  subst batch positioned.
  destruct (on_journal _ m0) as [r1 m1]. cbn [fst snd] in *.
  pose proof (monitor_read_entries_opened _ _ _ Ho1) as Ho2.
  rewrite store_with_session.
  assert (∀ m, opened (j_fd files) cid m →
               monitor_freep
                 (with_session st (j_fd files) p m
                    (alter varlink_call_ref cid (calls st))) (Some p) = st) as Hfree.
  { intros m Ho. rewrite (freed_session _ _ _ _ _ cid) by done.
    by rewrite unref_ref_calls, Process_eta. }
  destruct (r1 <? 0); [by rewrite Hfree|].
  destruct (monitor_read_entries m1) as [[r2 m2] entries]. cbn [fst snd] in *.
  rewrite store_with_session.
  destruct (r2 <? 0); [by rewrite Hfree|].
  rewrite on_call_with_session, lookup_alter_eq, Hc.
  cbn [fmap option_fmap option_map]. unfold varlink_call_reply.
  rewrite send_ref. destruct (c_error c0 <? 0) eqn:Herr.
  { rewrite Herr. rewrite (freed_session _ _ _ _ _ cid) by done.
    rewrite (unref_after_reply _ _ c0), insert_id by done.
    by rewrite Process_eta. }
  cbn [Z.ltb Z.compare]. destruct more.
  - unfold set_calls, with_session. cbn [epoll monitors calls].
    by rewrite alter_insert_eq, insert_alter_eq.
  - rewrite (freed_session _ _ _ _ _ cid) by done.
    by rewrite (unref_after_reply _ _ c0).
Qed.

Lemma previous_skip_loop_nonneg skip :
  ∀ c j, 0 ≤ c → 0 ≤ (previous_skip_loop skip c j).1.
Proof.
  induction skip as [|skip IH]; intros c j Hc; cbn [previous_skip_loop]; [done|].
  destruct (journal_previous j) as [r j']. destruct (r =? 0); [done|].
  apply IH. lia.
Qed.

Lemma sd_journal_previous_skip_code j skip :
  (sd_journal_previous_skip j skip).1 < 0 →
  ((sd_journal_previous_skip j skip).1 = - ERANGE ∧ INT_MAX < skip) ∨
  (sd_journal_previous_skip j skip).1 = j_fault j In_previous_skip.
Proof.
  unfold sd_journal_previous_skip.
  destruct (Z.ltb_spec INT_MAX skip); [by left|]. right. revert H0.
  destruct (j_fault j In_previous_skip <? 0); [done|].
  destruct (skip =? 0).
  - destruct (j_location j); cbn; lia.
  - pose proof (previous_skip_loop_nonneg (Z.to_nat skip) 0 j). lia.
Qed.

Local Ltac failed_path :=
  cbn [fst snd]; split; [first [done | lia | by vm_compute]|split; [done|auto 10]].

(** The handler on a call the transport knows and a descriptor that is not
    registered: it fails and leaves the process as it found it, or it sends
    one reply and leaves nothing else, or it sends the first reply of a
    stream and leaves the session. *)
Lemma handler_shape st cid c0 parameters flags userdata os_open files :
  epoll st !! j_fd files = None → calls st !! cid = Some c0 →
  let k := default 10 (parameters !! "initial_lines"%string) in
  let p := fresh (dom (monitors st)) in
  let more := negb (Z.land flags VARLINK_CALL_MORE =? 0) in
  let res := com_redhat_logging_monitor st cid parameters flags userdata
               os_open files in
  (res.1 < 0 ∧ res.2 = st ∧
   (res.1 = os_open ∨ res.1 = - EBADF ∨ res.1 = j_fault files In_seek_tail ∨
    (res.1 = - ERANGE ∧ INT_MAX ≤ k) ∨
    res.1 = j_fault files In_previous_skip ∨ res.1 = - VARLINK_ERROR_PANIC ∨
    res.1 = c_error c0)) ∨
  (res.1 = 0 ∧
   ∃ reply,
     res.2 = set_calls st (<[cid := add_reply c0 reply]> (calls st)) ∧
     ((k < 0 ∧ reply = Reply_invalid_parameter "initial_lines") ∨
      (0 ≤ k ∧ more = false ∧ ∃ entries, reply = Reply_entries entries 0))) ∨
  (res.1 = 0 ∧ 0 ≤ k ∧ more = true ∧
   ∃ m entries,
     opened (j_fd files) cid m ∧
     res.2 = with_session st (j_fd files) p m
               (<[cid := varlink_call_set_connection_closed_callback
                           (varlink_call_ref
                              (add_reply c0
                                 (Reply_entries entries VARLINK_REPLY_CONTINUES)))
                           p]> (calls st))).
Proof.
  intros Hfd Hc k p more res.
  destruct (set_up_fails os_open files) eqn:Hup.
  { left. subst res. unfold com_redhat_logging_monitor, cleanup_monitor.
    rewrite (monitor_new_result st cid userdata os_open files Hfd).
    unfold set_up_fails in Hup.
    destruct (Z.ltb_spec os_open 0).
    { destruct (Z.ltb_spec os_open 0); [|lia]. failed_path. }
    destruct (Z.ltb_spec (j_fd files) 0).
    { failed_path. }
    destruct (Z.ltb_spec (j_fault files In_seek_tail) 0); [|done].
    destruct (Z.ltb_spec (j_fault files In_seek_tail) 0); [|lia].
    failed_path. }
  destruct (Z.lt_ge_cases k 0) as [Hk|Hk].
  { pose proof (handler_invalid_parameter st cid c0 parameters flags userdata
                  os_open files Hfd Hc Hk) as H.
    cbn zeta in H. fold res in H. rewrite Hup in H.
    destruct (Z.ltb_spec (c_error c0) 0).
    - left. rewrite H. failed_path.
    - right. left. rewrite H. split; [done|]. eexists. split; [done|]. by left. }
  pose proof (handler_paths st cid c0 parameters flags userdata os_open files
                Hfd Hc Hup Hk) as H.
  cbn zeta in H. fold k p more res in H.
  set (m0 := {| call := cid |}) in *.
  assert (opened (j_fd files) cid m0) as Ho0.
  { split; [done|]. by exists (set_location files LOCATION_TAIL). }
  pose proof (on_journal_opened
                (λ j, sd_journal_previous_skip j ((k + 1) `mod` 2 ^ 64)) _ _ m0
                (λ j, sd_journal_previous_skip_frame j _) Ho0) as Ho1.
  assert ((on_journal
             (λ j, sd_journal_previous_skip j ((k + 1) `mod` 2 ^ 64)) m0).1 < 0 →
          ((on_journal
              (λ j, sd_journal_previous_skip j ((k + 1) `mod` 2 ^ 64)) m0).1
           = - ERANGE ∧ INT_MAX ≤ k) ∨
          (on_journal
             (λ j, sd_journal_previous_skip j ((k + 1) `mod` 2 ^ 64)) m0).1
          = j_fault files In_previous_skip) as Hcode.
  { unfold on_journal. cbn [m0 journal].
    pose proof (sd_journal_previous_skip_code (set_location files LOCATION_TAIL)
                  ((k + 1) `mod` 2 ^ 64)) as Hs.
    destruct (sd_journal_previous_skip _ _) as [r j']. cbn [fst] in *.
    intros Hr. destruct (Hs Hr) as [[-> Hbig] | ->]; [left|by right].
    split; [done|].
    pose proof (Z.mod_le (k + 1) (2 ^ 64) ltac:(lia) ltac:(done)). lia. }
  destruct (on_journal _ m0) as [r1 m1]. cbn [fst snd] in *.
  destruct (Z.ltb_spec r1 0).
  { left. rewrite H. cbn [fst snd]. split; [done|]. split; [done|].
    destruct Hcode as [Hcode|Hcode]; [done|auto 10..]. }
  pose proof (monitor_read_entries_opened _ _ _ Ho1) as Ho2.
  destruct (monitor_read_entries m1) as [[r2 m2] entries] eqn:Hread.
  cbn [fst snd] in *.
  destruct (Z.ltb_spec r2 0).
  { left. rewrite H. cbn [fst snd]. split; [done|]. split; [done|].
    apply monitor_read_entries_result in Hread as [[-> _] | [-> _]]; [auto 10|lia]. }
  destruct (Z.ltb_spec (c_error c0) 0).
  { left. rewrite H. failed_path. }
  destruct more eqn:Hmore.
  - right. right. rewrite H. cbn [fst snd]. split; [done|]. split; [done|].
    split; [done|]. by exists m2, entries.
  - right. left. rewrite H. split; [done|]. eexists. split; [done|]. right.
    split; [done|]. split; [done|]. by eexists.
Qed.

Lemma end_of_journal_frame j :
  j_entries (end_of_journal j) = j_entries j ∧
  j_changes (end_of_journal j) = j_changes j ∧
  j_fault (end_of_journal j) = j_fault j ∧ j_fd (end_of_journal j) = j_fd j.
Proof. unfold end_of_journal. by destruct (_ <? _)%nat. Qed.

(** The monitor of a stream after the handler, when nothing fails: it has
    read the records after the position [sd_journal_previous_skip] reached
    from the tail and is at the last record of a journal that is not
    empty. *)
Lemma handler_stream st cid c0 parameters flags userdata os_open files :
  epoll st !! j_fd files = None → calls st !! cid = Some c0 →
  (c_error c0 <? 0) = false → set_up_fails os_open files = false →
  (j_fault files In_previous_skip <? 0) = false → reads_work files →
  translatable (j_entries files) →
  let k := default 10 (parameters !! "initial_lines"%string) in
  0 ≤ k < INT_MAX →
  negb (Z.land flags VARLINK_CALL_MORE =? 0) = true →
  let m := length (j_entries files) in
  let p := fresh (dom (monitors st)) in
  let entries :=
    wire_entry <$> drop (m - Z.to_nat k `min` (m - 1)) (j_entries files) in
  ∃ mon j,
    com_redhat_logging_monitor st cid parameters flags userdata os_open files =
    (0, with_session st (j_fd files) p mon
          (<[cid := varlink_call_set_connection_closed_callback
                      (varlink_call_ref
                         (add_reply c0
                            (Reply_entries entries VARLINK_REPLY_CONTINUES)))
                      p]> (calls st))) ∧
    call mon = cid ∧ journal mon = Some j ∧
    j_entries j = j_entries files ∧ j_changes j = j_changes files ∧
    j_fault j = j_fault files ∧
    (m ≠ O → at_last_record j) ∧
    cursor mon = we_cursor <$> last entries.
Proof.
  intros Hfd Hc Herr Hup Hskip Hw Hall k Hk Hmore m p entries.
  rewrite (handler_paths st cid c0 parameters flags userdata os_open files
             Hfd Hc Hup) by (fold k; lia).
  fold k p. rewrite Hmore, Herr.
  assert ((k + 1) `mod` 2 ^ 64 = k + 1) as ->.
  { apply Z.mod_small. unfold INT_MAX in Hk.
    change (2 ^ 64) with 18446744073709551616. lia. }
  set (m0 := {| call := cid |}).
  set (j1 := match m with
             | O => set_location files LOCATION_TAIL
             | S _ => set_location files
                        (LOCATION_DISCRETE (m - Z.to_nat (k + 1) `min` m))
             end).
  assert (on_journal (λ j, sd_journal_previous_skip j (k + 1)) m0
          = (Z.of_nat (Z.to_nat (k + 1) `min` m), set_journal m0 (Some j1)))
    as ->.
  { unfold on_journal. cbn [m0 journal].
    by rewrite sd_journal_previous_skip_tail by (done || lia). }
  cbn [fst snd].
  destruct (Z.ltb_spec (Z.of_nat (Z.to_nat (k + 1) `min` m)) 0); [lia|].
  assert (next_index j1 = (m - Z.to_nat k `min` (m - 1))%nat ∧
          j_entries j1 = j_entries files ∧ j_fault j1 = j_fault files ∧
          j_changes j1 = j_changes files ∧
          (m ≠ O → ∃ i, j_location j1 = LOCATION_DISCRETE i ∧ (i < m)%nat))
    as (Hnext & Hes & Hfault & Hch & Hloc).
  { unfold j1. destruct m as [|m'] eqn:Hm;
      cbn [next_index set_location j_location j_entries j_fault j_changes];
      (split; [fold m; lia|]); (split; [done|]); (split; [done|]);
      (split; [done|]); [done|].
    intros _. eexists. split; [done|]. lia. }
  rewrite (monitor_read_entries_all (set_journal m0 (Some j1)) j1);
    [|done|by unfold reads_work; rewrite Hfault|by rewrite Hes].
  rewrite Hnext, Hes. fold m entries. cbn [fst snd].
  destruct (Z.ltb_spec (Z.of_nat (m - (m - Z.to_nat k `min` (m - 1)))) 0); [lia|].
  destruct (end_of_journal_frame j1) as (He & Hc' & Hf & _).
  eexists _, (end_of_journal j1). split; [done|].
  cbn [call journal cursor]. split; [done|]. split; [done|].
  split; [congruence|]. split; [congruence|]. split; [congruence|]. split.
  - intros Hm. destruct (Hloc Hm) as (i & Hi & Hlt).
    unfold end_of_journal. rewrite Hes. fold m.
    destruct (Nat.ltb_spec (next_index j1) m) as [Hn|Hn].
    + exists (m - 1)%nat. cbn [set_location j_location j_entries]. rewrite Hes.
      fold m. split; [done|]. lia.
    + exists i. rewrite Hes. fold m. split; [done|].
      unfold next_index in Hn. rewrite Hi in Hn. lia.
  - unfold entries. rewrite fmap_last. by destruct (last _).
Qed.

Lemma two_sessions_consistent : consistent two_sessions.
Proof.
  apply consistent_upcalls.
  - split.
    + intros fd p. cbn [epoll]. rewrite lookup_insert. case_decide; [done|].
      rewrite lookup_singleton. by case_decide.
    + intros p m. cbn [monitors]. by rewrite lookup_empty.
    + intros cid c p. cbn [calls]. by rewrite lookup_empty.
  - vm_compute. done.
Qed.

(** ** The loop and the command line *)

Lemma main_step_exit epfd st w status st' :
  main_step epfd st w = Exited status st' →
  (status = EXIT_SUCCESS ∧
   ∃ signo, w = Ready_signal sizeof_signalfd_siginfo signo ∧
            (signo = SIGTERM ∨ signo = SIGINT)) ∨
  (status = ERROR_PANIC ∧
   match w with
   | Wait_failed errno => errno ≠ EINTR
   | Wait_nothing => False
   | Ready_service _ r => r = - VARLINK_ERROR_PANIC
   | Ready_signal size signo =>
       ¬ (size = sizeof_signalfd_siginfo ∧ (signo = SIGTERM ∨ signo = SIGINT))
   | Ready_monitor p => (dispatch_at st p).1 = - VARLINK_ERROR_PANIC
   end).
Proof.
  destruct w as [errno | | work r | size signo | p]; cbn [main_step].
  - destruct (Z.eqb_spec errno EINTR); [done|]. intros [= <- _]. by right.
  - done.
  - unfold varlink_service_process_events.
    destruct (r =? 0); [done|].
    destruct (Z.eqb_spec r (- VARLINK_ERROR_PANIC)); [|done].
    intros [= <- _]. by right.
  - unfold read_signal.
    destruct (Z.eqb_spec size sizeof_signalfd_siginfo) as [->|Hsize]; cbn [negb].
    + destruct (Z.eqb_spec signo SIGTERM) as [->|Hterm]; cbn [orb].
      { intros [= <- _]. left. split; [done|]. eexists. split; [done|]. by left. }
      destruct (Z.eqb_spec signo SIGINT) as [->|Hint].
      { intros [= <- _]. left. split; [done|]. eexists. split; [done|]. by right. }
      intros [= <- _]. right. split; [done|]. intros [_ [?|?]]; done.
    + change ((- EIO =? SIGTERM) || (- EIO =? SIGINT)) with false.
      intros [= <- _]. right. split; [done|]. by intros [? _].
  - destruct (dispatch_at st p) as [r st1]. cbn [fst].
    destruct (r =? 0); [done|].
    destruct (Z.eqb_spec r (- VARLINK_ERROR_PANIC)); [|done].
    intros [= <- _]. by right.
Qed.

Lemma main_loop_exit_status epfd ws :
  ∀ st status st',
    main_loop epfd st ws = Exited status st' →
    status = EXIT_SUCCESS ∨ status = ERROR_PANIC.
Proof.
  induction ws as [|w ws IH]; intros st status st'; cbn [main_loop]; [done|].
  destruct (main_step epfd st w) as [st1|status1 st1] eqn:Hstep; [apply IH|].
  intros [= -> ->]. apply main_step_exit in Hstep as [[-> _] | [-> _]]; auto.
Qed.

(** No option character of [":vh"] takes an argument. *)
Lemma short_option_vh c : short_option ":vh" c ≠ Some true.
Proof. destruct c as [[] [] [] [] [] [] [] []]; by vm_compute. Qed.

Lemma getopt_short_vh cluster :
  (getopt_short ":vh" cluster).2 = None ∧
  Forall (λ r : getopt_result, r.2 = None) (getopt_short ":vh" cluster).1.
Proof.
  induction cluster as [|c cluster [IHw IHr]]; cbn [getopt_short]; [done|].
  pose proof (short_option_vh c) as Hc.
  destruct (short_option ":vh" c) as [[]|]; [done| |];
    destruct (getopt_short ":vh" cluster) as [results wants];
    cbn [fst snd] in *; (split; [done|]); by constructor.
Qed.

Lemma getopt_long_short_only args :
  Forall (λ arg, String.prefix "--" arg = false) args →
  Forall (λ r : getopt_result, r.2 = None) (getopt_long ":vh" options args).
Proof.
  induction 1 as [|arg args Harg _ IH]; cbn [getopt_long]; [done|].
  destruct (String.eqb_spec arg "--") as [->|_]; [done|]. rewrite Harg.
  destruct arg as [|a cluster0]; [done|].
  destruct a as [[] [] [] [] [] [] [] []]; try done.
  destruct cluster0 as [|c cluster]; [done|].
  destruct (getopt_short_vh (String c cluster)) as [Hw Hr].
  destruct (getopt_short ":vh" (String c cluster)) as [results wants].
  cbn [fst snd] in *. subst wants. by apply Forall_app.
Qed.

Lemma parse_options_no_argument results :
  Forall (λ r : getopt_result, r.2 = None) results →
  parse_options results None = None ∨ parse_options results None = Some None.
Proof.
  induction 1 as [|[c optarg] results Hr _ IH]; cbn [parse_options]; [by right|].
  cbn [snd] in Hr. subst optarg.
  destruct (Ascii.eqb c "h"); [by left|]. by destruct (Ascii.eqb c "v").
Qed.

(** * The claims *)

(** ** C1: a read that fails in the dispatch *)

(** C1, as the code has it, for a live monitor [m] at the address [p] and
    its call [c].  First part: [m2] is the monitor as [monitor_dispatch]
    hands it to the read-batch, that is the monitor after
    [sd_journal_process] on an append, and after the seek that worked on an
    invalidation.  When that read-batch fails, [monitor_dispatch] returns
    [-VARLINK_ERROR_PANIC] with nothing sent on the call, and on that value
    the loop of [main] leaves with the exit code [ERROR_PANIC]: the process
    ends, whatever wake-ups would follow.  At that [return] no error was
    replied to the client and neither the dispatch nor the loop has freed
    the monitor or removed it from the interest list: the interest list and
    the calls are as before the wake-up, the monitor is live with its
    journal open, and a session that was registered and streaming still is.
    Second part: this is what happens when records were appended and one of
    the records still to read, in the journal as [sd_journal_process] leaves
    it, cannot be translated. *)
Theorem read_failure_exits epfd st p m c :
  monitors st !! p = Some m → calls st !! call m = Some c →
  (∀ event m1 m2,
     on_journal sd_journal_process m = (event, m1) →
     (event = SD_JOURNAL_APPEND ∧ m2 = m1) ∨
     (event = SD_JOURNAL_INVALIDATE ∧
      ∃ r, 0 ≤ r ∧
           match cursor m1 with
           | Some cur => on_journal (λ j, sd_journal_seek_cursor j cur) m1
           | None => on_journal sd_journal_seek_tail m1
           end = (r, m2)) →
     (monitor_read_entries m2).1.1 < 0 →
     let m' := (monitor_read_entries m2).1.2 in
     monitor_dispatch m c = (- VARLINK_ERROR_PANIC, m', c) ∧
     ∃ st',
       main_step epfd st (Ready_monitor p) = Exited ERROR_PANIC st' ∧
       (∀ ws, main_loop epfd st (Ready_monitor p :: ws) = Exited ERROR_PANIC st') ∧
       epoll st' = epoll st ∧ calls st' = calls st ∧
       monitors st' = <[p := m']> (monitors st) ∧
       (∀ cid, replies_of st' cid = replies_of st cid) ∧
       (∀ fd, opened fd (call m) m → opened fd (call m) m') ∧
       (consistent st → registered st' p ∧ streaming st' p)) ∧
  (∀ j added rest k e,
     journal m = Some j → (j_fault j In_process <? 0) = false →
     j_changes j = Append added :: rest →
     let j1 := (sd_journal_process j).2 in
     (next_index j1 ≤ k)%nat → j_entries j1 !! k = Some e →
     translation_error e ≠ 0 →
     ∃ m' st',
       monitor_dispatch m c = (- VARLINK_ERROR_PANIC, m', c) ∧
       main_step epfd st (Ready_monitor p) = Exited ERROR_PANIC st' ∧
       (∀ ws, main_loop epfd st (Ready_monitor p :: ws) = Exited ERROR_PANIC st') ∧
       epoll st' = epoll st ∧ calls st' = calls st ∧
       monitors st' = <[p := m']> (monitors st) ∧
       (consistent st → registered st' p ∧ streaming st' p)).
Proof.
  intros Hm Hc.
  assert (∀ event m1 m2,
            on_journal sd_journal_process m = (event, m1) →
            (event = SD_JOURNAL_APPEND ∧ m2 = m1) ∨
            (event = SD_JOURNAL_INVALIDATE ∧
             ∃ r, 0 ≤ r ∧
                  match cursor m1 with
                  | Some cur => on_journal (λ j, sd_journal_seek_cursor j cur) m1
                  | None => on_journal sd_journal_seek_tail m1
                  end = (r, m2)) →
            (monitor_read_entries m2).1.1 < 0 →
            let m' := (monitor_read_entries m2).1.2 in
            monitor_dispatch m c = (- VARLINK_ERROR_PANIC, m', c) ∧
            ∃ st',
              main_step epfd st (Ready_monitor p) = Exited ERROR_PANIC st' ∧
              (∀ ws, main_loop epfd st (Ready_monitor p :: ws)
                     = Exited ERROR_PANIC st') ∧
              epoll st' = epoll st ∧ calls st' = calls st ∧
              monitors st' = <[p := m']> (monitors st) ∧
              (∀ cid, replies_of st' cid = replies_of st cid) ∧
              (∀ fd, opened fd (call m) m → opened fd (call m) m') ∧
              (consistent st → registered st' p ∧ streaming st' p)) as Hfirst.
  { intros event m1 m2 Hproc Hev Hread m'.
    assert (monitor_dispatch m c = (- VARLINK_ERROR_PANIC, m', c)) as Hdis.
    { unfold monitor_dispatch. rewrite Hproc.
      destruct Hev as [[-> ->] | (-> & r & Hr & Hseek)].
      - cbn [SD_JOURNAL_APPEND SD_JOURNAL_INVALIDATE Z.eqb Pos.eqb negb].
        by apply dispatch_read_failure.
      - cbn [SD_JOURNAL_INVALIDATE Z.eqb Pos.eqb]. rewrite Hseek.
        destruct (Z.ltb_spec r 0); [lia|]. by apply dispatch_read_failure. }
    split; [done|].
    assert (dispatch_at st p
            = (- VARLINK_ERROR_PANIC,
               set_calls (store st p m') (<[call m := c]> (calls st)))) as Hat.
    { unfold dispatch_at, deref. rewrite Hm. cbn [default id]. cbn zeta.
      by rewrite Hc, Hdis. }
    exists (set_calls (store st p m') (<[call m := c]> (calls st))).
    assert (main_step epfd st (Ready_monitor p)
            = Exited ERROR_PANIC
                (set_calls (store st p m') (<[call m := c]> (calls st)))) as Hstep
      by (by cbn [main_step]; rewrite Hat).
    split; [done|]. split; [by intros ws; cbn [main_loop]; rewrite Hstep|].
    cbn [set_calls store set_monitors epoll monitors calls].
    rewrite insert_id by done.
    split; [done|]. split; [done|]. split; [done|]. split.
    { intros cid. unfold replies_of. done. }
    split.
    { intros fd Ho.
      pose proof (monitor_dispatch_keeps fd (call m) m c Ho) as [H _].
      by rewrite Hdis in H. }
    intros Hcons.
    destruct (live_registered st Hcons p m Hm) as (j & c' & _ & Hep & _).
    assert (registered st p) as Hreg by (by exists (j_fd j)).
    pose proof (consistent_dispatch st p Hcons Hreg) as Hcons'.
    rewrite Hat in Hcons'. cbn [snd set_calls store set_monitors] in Hcons'.
    rewrite insert_id in Hcons' by done.
    assert (registered {| epoll := epoll st; monitors := <[p := m']> (monitors st);
                          calls := calls st |} p) as Hreg'
      by (by exists (j_fd j)).
    split; [done|]. by apply (consistent_iff _ p Hcons'). }
  split; [exact Hfirst|].
  intros j added rest k e Hj Hf Hch j1 Hk He Herr.
  assert (on_journal sd_journal_process m
          = (SD_JOURNAL_APPEND, set_journal m (Some j1))) as Hproc.
  { unfold j1, on_journal, sd_journal_process. by rewrite Hj, Hf, Hch. }
  assert ((monitor_read_entries (set_journal m (Some j1))).1.1 < 0) as Hread.
  { unfold monitor_read_entries. cbn [set_journal journal].
    pose proof (read_entries_loop_fails j1 [] 0 k e Hk He Herr) as Hneg.
    destruct (read_entries_loop j1 [] 0) as [[[r0 j0] batch] n_read].
    cbn [fst] in Hneg. by destruct (Z.ltb_spec r0 0); [|lia]. }
  destruct (Hfirst _ _ _ Hproc (or_introl (conj eq_refl eq_refl)) Hread)
    as (Hdis & st' & Hexit & Hloop & Hep & Hcalls & Hmon & _ & _ & Hstream).
  by eexists _, st'.
Qed.

(** C1 as stated fails: the read of the first session fails, and the
    process exits with [ERROR_PANIC] although a second session is being
    served; no error was replied on the call of the first, whose monitor is
    still registered. *)
Lemma read_failure_counterexample :
  let o := main_step 4 two_sessions (Ready_monitor 0) in
  is_Some (monitors two_sessions !! 0%nat) ∧
  is_Some (monitors two_sessions !! 1%nat) ∧
  exit_status o = Some ERROR_PANIC ∧
  replies_of (process_of o) 1 = replies_of two_sessions 1 ∧
  epoll (process_of o) !! 7 = Some (Ptr_monitor 0) ∧
  is_Some (monitors (process_of o) !! 0%nat).
Proof. vm_compute. repeat split; eauto. Qed.

Lemma read_failure_exits_witness :
  ∃ m' st',
    monitor_dispatch
      {| call := 1;
         journal := Some (set_location (tailing 7 [Append [no_message]])
                            (LOCATION_DISCRETE 2));
         cursor := Some "s=1;i=3"%string; epoll_fd := 4 |}
      {| c_refs := 2;
         c_replies := [Reply_entries [wire_entry disk_warn; wire_entry heartbeat]
                         VARLINK_REPLY_CONTINUES];
         c_closed_callback := Some O; c_error := 0 |}
    = (- VARLINK_ERROR_PANIC, m',
       {| c_refs := 2;
          c_replies := [Reply_entries [wire_entry disk_warn; wire_entry heartbeat]
                          VARLINK_REPLY_CONTINUES];
          c_closed_callback := Some O; c_error := 0 |}) ∧
    main_step 4 two_sessions (Ready_monitor 0) = Exited ERROR_PANIC st' ∧
    epoll st' = epoll two_sessions ∧ calls st' = calls two_sessions ∧
    monitors st' = <[0%nat := m']> (monitors two_sessions) ∧
    registered st' 0 ∧ streaming st' 0.
Proof.
  destruct (proj2 (read_failure_exits 4 two_sessions 0
                     {| call := 1;
                        journal := Some (set_location
                                           (tailing 7 [Append [no_message]])
                                           (LOCATION_DISCRETE 2));
                        cursor := Some "s=1;i=3"%string; epoll_fd := 4 |}
                     {| c_refs := 2;
                        c_replies := [Reply_entries
                                        [wire_entry disk_warn; wire_entry heartbeat]
                                        VARLINK_REPLY_CONTINUES];
                        c_closed_callback := Some O; c_error := 0 |}
                     eq_refl eq_refl)
              (set_location (tailing 7 [Append [no_message]]) (LOCATION_DISCRETE 2))
              [no_message] [] 3%nat no_message eq_refl eq_refl eq_refl)
    as (m' & st' & Hdis & Hexit & _ & Hep & Hcalls & Hmon & Hstream).
  - vm_compute. lia.
  - reflexivity.
  - vm_compute. discriminate.
  - exists m', st'. split; [exact Hdis|]. split; [exact Hexit|].
    split; [exact Hep|]. split; [exact Hcalls|]. split; [exact Hmon|].
    exact (Hstream two_sessions_consistent).
Defined.

(** ** C2: the cursor after an empty batch *)

(** C2, as the code has it: a read-batch that reads zero records returns an
    empty batch and leaves the monitor without a stored cursor, whatever
    cursor it held before. *)
Theorem empty_batch_clears_cursor monitor monitor' entries :
  monitor_read_entries monitor = (0, monitor', entries) →
  entries = [] ∧ cursor monitor' = None.
Proof.
  intros [[? _] | (Hlen & Hcur & _)]%monitor_read_entries_result; [done|].
  destruct entries; [done | simpl in Hlen; lia].
Qed.

(** C2 as stated fails: a monitor that holds the cursor of the last record
    reads an empty batch, and afterwards holds no cursor. *)
Lemma empty_batch_counterexample :
  let monitor :=
    sample_monitor three_records (LOCATION_DISCRETE 2) (Some "s=1;i=3"%string) in
  cursor monitor = Some "s=1;i=3"%string ∧
  (monitor_read_entries monitor).1.1 = 0 ∧
  (monitor_read_entries monitor).2 = [] ∧
  cursor (monitor_read_entries monitor).1.2 = None ∧
  cursor (monitor_read_entries monitor).1.2 ≠ cursor monitor.
Proof. by vm_compute. Qed.

Lemma empty_batch_clears_cursor_witness :
  let monitor :=
    sample_monitor three_records (LOCATION_DISCRETE 2) (Some "s=1;i=3"%string) in
  monitor_read_entries monitor
  = (0, sample_monitor three_records (LOCATION_DISCRETE 2) None, []) ∧
  cursor (sample_monitor three_records (LOCATION_DISCRETE 2) None) = None.
Proof.
  intros monitor.
  assert (monitor_read_entries monitor
          = (0, sample_monitor three_records (LOCATION_DISCRETE 2) None, []))
    as H by (vm_compute; reflexivity).
  split; [exact H|]. exact (proj2 (empty_batch_clears_cursor _ _ _ H)).
Defined.

(** ** C3: the initial reply *)

(** C3, as the code has it.  For [0 <= k <= INT_MAX - 1], when nothing
    fails, the handler sends one reply; when the journal has more records
    than requested ([k < m]) its entries are those of the last [k] records
    in the order of the journal, exactly [min k m = k] of them, and the
    reply is empty if and only if [k = 0]; the reply on an empty journal is
    empty.  For [k >= INT_MAX] the skip of [k + 1] records is refused with
    [-ERANGE]: the handler returns that code, sends no reply and leaves the
    process as it was. *)
Theorem initial_reply st cid c0 parameters flags userdata os_open files :
  epoll st !! j_fd files = None → calls st !! cid = Some c0 →
  (c_error c0 <? 0) = false → set_up_fails os_open files = false →
  (j_fault files In_previous_skip <? 0) = false → reads_work files →
  translatable (j_entries files) →
  let k := default 10 (parameters !! "initial_lines"%string) in
  0 ≤ k < INT64_MAX →
  let m := length (j_entries files) in
  let more := negb (Z.land flags VARLINK_CALL_MORE =? 0) in
  let res := com_redhat_logging_monitor st cid parameters flags userdata
               os_open files in
  (k < INT_MAX →
   res.1 = 0 ∧
   ∃ c' entries,
     calls res.2 !! cid = Some c' ∧
     c_replies c' = c_replies c0 ++
       [Reply_entries entries (if more then VARLINK_REPLY_CONTINUES else 0)] ∧
     (k < Z.of_nat m →
      entries = wire_entry <$> drop (m - Z.to_nat k) (j_entries files) ∧
      Z.of_nat (length entries) = Z.min k (Z.of_nat m) ∧
      (entries = [] ↔ k = 0)) ∧
     (m = O → entries = [])) ∧
  (INT_MAX ≤ k → res = (- ERANGE, st)).
Proof.
  intros Hfd Hc Herr Hup Hskip Hw Hall k Hk m more res. split.
  - intros Hint.
    destruct (handler_initial_batch st cid c0 parameters flags userdata os_open
                files Hfd Hc Herr Hup Hskip Hw Hall ltac:(fold k; lia))
      as (Hr & c' & Hc' & Hrep).
    split; [done|]. fold k m more in Hrep.
    set (n := (Z.to_nat k `min` (m - 1))%nat) in *.
    exists c', (wire_entry <$> drop (m - n) (j_entries files)).
    assert (length (wire_entry <$> drop (m - n) (j_entries files)) = n) as Hlen.
    { rewrite length_fmap, length_drop. fold m. lia. }
    split; [done|]. split; [done|]. split.
    + intros Hkm. assert (n = Z.to_nat k) as Hn by lia.
      split; [by rewrite Hn|]. split; [lia|]. split.
      * intros Hnil. rewrite Hnil in Hlen. simpl in Hlen. lia.
      * intros Hk0. apply length_zero_iff_nil. rewrite Hlen. lia.
    + intros Hm. apply length_zero_iff_nil. rewrite Hlen. lia.
  - intros Hint. subst res.
    rewrite (handler_paths st cid c0 parameters flags userdata os_open files
               Hfd Hc Hup) by (fold k; lia).
    fold k. unfold on_journal. cbn [journal]. unfold sd_journal_previous_skip.
    assert ((k + 1) `mod` 2 ^ 64 = k + 1) as ->.
    { apply Z.mod_small. unfold INT64_MAX in Hk.
      change (2 ^ 63) with 9223372036854775808 in Hk.
      change (2 ^ 64) with 18446744073709551616. lia. }
    destruct (Z.ltb_spec INT_MAX (k + 1)); [|lia]. done.
Qed.

(** C3 as stated fails.  With [initial_lines = 0] on a journal of one record
    the reply is empty although the journal is not.  On a journal of three
    records the default request of ten lines is answered with the last two,
    not with [min 10 3 = 3]: the step back from the tail stops at the first
    record and the read starts after it.  With [initial_lines = INT_MAX]
    there is no reply at all. *)
Lemma initial_reply_counterexample :
  (let res := com_redhat_logging_monitor idle_process 1
                {[ "initial_lines"%string := 0 ]} 0 4 0
                (sample_journal [heartbeat] LOCATION_HEAD) in
   res.1 = 0 ∧ replies_of res.2 1 = [Reply_entries [] 0] ∧
   length [heartbeat] ≠ O) ∧
  (let res := com_redhat_logging_monitor idle_process 1 ∅ 0 4 0
                (sample_journal three_records LOCATION_HEAD) in
   res.1 = 0 ∧
   replies_of res.2 1
   = [Reply_entries [wire_entry disk_warn; wire_entry heartbeat] 0] ∧
   Z.min 10 (Z.of_nat (length three_records)) = 3) ∧
  (let res := com_redhat_logging_monitor idle_process 1
                {[ "initial_lines"%string := INT_MAX ]} 0 4 0
                (sample_journal three_records LOCATION_HEAD) in
   res = (- ERANGE, idle_process) ∧ replies_of res.2 1 = []).
Proof. by vm_compute. Qed.

Lemma initial_reply_witness :
  replies_of
    (com_redhat_logging_monitor idle_process 1
       {[ "initial_lines"%string := 2 ]} 0 4 0
       (sample_journal three_records LOCATION_HEAD)).2 1
  = [Reply_entries [wire_entry disk_warn; wire_entry heartbeat] 0].
Proof.
  assert (reads_work (sample_journal three_records LOCATION_HEAD)) as Hwork
    by repeat split.
  assert (0 ≤ default 10 (({[ "initial_lines"%string := 2 ]} : gmap string Z)
                            !! "initial_lines"%string) < INT64_MAX) as Hk
    by (vm_compute; split; [discriminate | reflexivity]).
  destruct (proj1 (initial_reply idle_process 1
                     {| c_refs := 1; c_replies := []; c_closed_callback := None;
                        c_error := 0 |}
                     {[ "initial_lines"%string := 2 ]} 0 4 0
                     (sample_journal three_records LOCATION_HEAD)
                     eq_refl eq_refl eq_refl eq_refl eq_refl Hwork
                     three_records_translatable Hk))
    as (_ & c' & entries & Hc' & Hrep & Hkm & _); [vm_compute; reflexivity|].
  unfold replies_of. rewrite Hc'. cbn [fmap option_fmap option_map default].
  rewrite Hrep. destruct Hkm as (-> & _); [vm_compute; reflexivity|].
  reflexivity.
Defined.

(** ** C4: resuming at the stored cursor *)

(** C4 on the code: on an invalidation, a monitor that holds the cursor of
    a record the journal still has seeks to that cursor, and the read-batch
    starts at the record of the cursor itself: when nothing fails, the
    reply of the dispatch holds the records from that one on, so that its
    first entry carries the stored cursor again. *)
Theorem invalidate_repeats_cursor m c j cur now rest i :
  journal m = Some j → cursor m = Some cur →
  j_changes j = Invalidate now :: rest →
  (j_fault j In_process <? 0) = false →
  (j_fault j In_seek_cursor <? 0) = false → reads_work j →
  translatable now → find_cursor cur now = Some i →
  (c_error c <? 0) = false →
  ∃ m' entries,
    monitor_dispatch m c =
    (0, m', add_reply c (Reply_entries entries VARLINK_REPLY_CONTINUES)) ∧
    entries = wire_entry <$> drop i now ∧
    we_cursor <$> head entries = Some cur.
Proof.
  intros Hj Hcur Hch Hp Hs Hw Hall Hi Herr.
  destruct (find_cursor_Some _ _ _ Hi) as (e & He & Hec).
  unfold monitor_dispatch, on_journal at 1. rewrite Hj.
  unfold sd_journal_process. rewrite Hp, Hch.
  cbn [Z.eqb SD_JOURNAL_INVALIDATE Pos.eqb set_journal cursor].
  rewrite Hcur. unfold on_journal. cbn [journal set_journal].
  unfold sd_journal_seek_cursor. cbn [j_fault]. rewrite Hs.
  cbn [Z.ltb Z.compare set_journal call cursor epoll_fd journal].
  unfold dispatch_read.
  erewrite monitor_read_entries_all; [|done|done|done].
  cbn [next_index set_location j_location j_entries]. rewrite Hi.
  cbn [default id].
  pose proof (lookup_lt_Some _ _ _ He) as Hlt.
  destruct (Z.ltb_spec (Z.of_nat (length now - i)) 0); [lia|].
  destruct (Z.eqb_spec (Z.of_nat (length now - i)) 0); [lia|].
  unfold varlink_call_reply, send. rewrite Herr.
  eexists _, _. split; [done|]. split; [done|].
  rewrite (drop_S _ _ _ He). cbn. by rewrite Hec.
Qed.

(** The failing input of C4: the record of the stored cursor is delivered a
    second time, before the new one. *)
Lemma invalidate_repeats_cursor_example :
  c_replies (monitor_dispatch resumed_monitor open_call).2
  = [Reply_entries [wire_entry heartbeat; wire_entry odd_level]
       VARLINK_REPLY_CONTINUES] ∧
  we_cursor (wire_entry heartbeat) = "s=1;i=3"%string.
Proof. by vm_compute. Qed.

Lemma invalidate_repeats_cursor_witness :
  ∃ m' entries,
    monitor_dispatch resumed_monitor open_call =
    (0, m', add_reply open_call (Reply_entries entries VARLINK_REPLY_CONTINUES)) ∧
    entries = wire_entry <$> drop 1 [disk_warn; heartbeat; odd_level] ∧
    we_cursor <$> head entries = Some "s=1;i=3"%string.
Proof.
  apply (invalidate_repeats_cursor resumed_monitor open_call _ _ _ [] 1%nat
           eq_refl eq_refl eq_refl eq_refl eq_refl); try reflexivity.
  - repeat split.
  - intros k e He. destruct k as [|[|[|k]]]; simpl in He; by simplify_eq.
Defined.

(** ** C5: registration and streaming *)

(** C5, as the code has it.  Whenever the loop of [main] is about to wait
    (and when it has left), a monitor is registered with the epoll instance
    if and only if it is live with its reader open and its session
    negotiated continuous streaming (the call it holds has the
    closed-connection callback set for it, which the handler does for a call
    that asked for more replies).  Inside the handler the registration does
    not depend on streaming: [monitor_new] registers the descriptor of every
    monitor it creates, and the handler removes it again before it returns
    from a call that did not ask for more replies. *)
Theorem registration_lifecycle :
  (∀ epfd service_fd signal_fd ws,
     wakeups_ok epfd (started service_fd signal_fd) ws →
     ∀ p,
       let st := process_of (main_loop epfd (started service_fd signal_fd) ws) in
       registered st p ↔ streaming st p) ∧
  (∀ st cid parameters flags userdata os_open files,
     epoll st !! j_fd files = None →
     let p := fresh (dom (monitors st)) in
     let more := negb (Z.land flags VARLINK_CALL_MORE =? 0) in
     let created := (monitor_new st cid userdata os_open files).2 in
     let res := com_redhat_logging_monitor st cid parameters flags userdata
                  os_open files in
     (set_up_fails os_open files = false →
      epoll created !! j_fd files = Some (Ptr_monitor p) ∧
      ∃ m, monitors created !! p = Some m ∧ opened (j_fd files) cid m) ∧
     (more = false → epoll res.2 = epoll st ∧ monitors res.2 = monitors st)).
Proof.
  split.
  - intros epfd service_fd signal_fd ws Hok p st.
    apply consistent_iff, consistent_loop; [|done]. apply started_consistent.
  - intros st cid parameters flags userdata os_open files Hfd.
    destruct (handler_registration st cid parameters flags userdata os_open
                files Hfd) as (Hnew & _ & _ & Hless).
    done.
Qed.

(** C5 as stated fails: in a call that did not ask for more replies
    ([flags = 0]) the descriptor of the journal is registered, with the
    journal open, from [monitor_new] on; it is removed before the handler
    returns. *)
Lemma registration_counterexample :
  let files := sample_journal three_records LOCATION_HEAD in
  let created := (monitor_new idle_process 1 4 0 files).2 in
  let res := com_redhat_logging_monitor idle_process 1 ∅ 0 4 0 files in
  Z.land 0 VARLINK_CALL_MORE = 0 ∧
  epoll created !! 7 = Some (Ptr_monitor 0) ∧
  (journal <$> monitors created !! 0%nat)
  = Some (Some (sample_journal three_records LOCATION_TAIL)) ∧
  res.1 = 0 ∧ epoll res.2 !! 7 = None ∧ monitors res.2 !! 0%nat = None.
Proof. by vm_compute. Qed.

Lemma registration_lifecycle_witness :
  wakeups_ok 4 (started 3 5) sample_run ∧
  (registered (process_of (main_loop 4 (started 3 5) sample_run)) 0 ↔
   streaming (process_of (main_loop 4 (started 3 5) sample_run)) 0) ∧
  monitors (com_redhat_logging_monitor idle_process 1 ∅ 0 4 0
              (sample_journal three_records LOCATION_HEAD)).2
  = monitors idle_process.
Proof.
  assert (wakeups_ok 4 (started 3 5) sample_run) as Hok.
  { vm_compute. repeat split. by exists 7. }
  destruct registration_lifecycle as [Hloop Hhandler].
  split; [exact Hok|]. split; [exact (Hloop 4 3 5 sample_run Hok 0%nat)|].
  destruct (Hhandler idle_process 1%nat ∅ 0 4 0
              (sample_journal three_records LOCATION_HEAD) eq_refl)
    as [_ Hless].
  exact (proj2 (Hless eq_refl)).
Defined.

(** ** C6: a negative [initial_lines] *)

(** C6, as the code has it: on a negative [initial_lines] the handler leaves
    no monitor, no registration and no reference behind; when the monitor
    could be set up and the connection takes the reply, the reply is the
    invalid-parameter error naming [initial_lines] and the handler returns
    0; when the set-up of the monitor fails, the handler returns the
    negative code of the failure and the process is as before: nothing is
    sent. *)
Theorem negative_initial_lines st cid c0 parameters flags userdata os_open files :
  epoll st !! j_fd files = None → calls st !! cid = Some c0 →
  default 10 (parameters !! "initial_lines"%string) < 0 →
  let res := com_redhat_logging_monitor st cid parameters flags userdata
               os_open files in
  (epoll res.2 = epoll st ∧ monitors res.2 = monitors st ∧
   c_refs <$> calls res.2 !! cid = Some (c_refs c0)) ∧
  (set_up_fails os_open files = false → (c_error c0 <? 0) = false →
   res.1 = 0 ∧
   replies_of res.2 cid =
     c_replies c0 ++ [Reply_invalid_parameter "initial_lines"]) ∧
  (set_up_fails os_open files = true → res.1 < 0 ∧ res.2 = st).
Proof.
  intros Hfd Hc Hk res.
  pose proof (handler_invalid_parameter st cid c0 parameters flags userdata
                os_open files Hfd Hc Hk) as H.
  cbn zeta in H. fold res in H. unfold replies_of.
  destruct (set_up_fails os_open files).
  { destruct H as [Hr ->]. rewrite Hc. done. }
  destruct (c_error c0 <? 0).
  { rewrite H. cbn [fst snd]. rewrite Hc. done. }
  rewrite H. cbn [fst snd set_calls epoll monitors calls].
  rewrite lookup_insert_eq. done.
Qed.

(** C6 as stated fails: when the journal cannot be opened (here with
    [-ENOMEM]), the call with [initial_lines = -1] gets no reply at all; the
    handler returns the code of the failure. *)
Lemma negative_initial_lines_counterexample :
  let res := com_redhat_logging_monitor idle_process 1
               {[ "initial_lines"%string := -1 ]} 0 4 (-12)
               (sample_journal three_records LOCATION_HEAD) in
  res.1 = -12 ∧ replies_of res.2 1 = [] ∧
  replies_of res.2 1 ≠ [Reply_invalid_parameter "initial_lines"].
Proof. by vm_compute. Qed.

Lemma negative_initial_lines_witness :
  let res := com_redhat_logging_monitor idle_process 1
               {[ "initial_lines"%string := -1 ]} 0 4 0
               (sample_journal three_records LOCATION_HEAD) in
  res.1 = 0 ∧
  replies_of res.2 1 = [Reply_invalid_parameter "initial_lines"] ∧
  epoll res.2 = epoll idle_process ∧ monitors res.2 = monitors idle_process.
Proof.
  intros res.
  assert (default 10 (({[ "initial_lines"%string := -1 ]} : gmap string Z)
                        !! "initial_lines"%string) < 0) as Hk
    by (vm_compute; reflexivity).
  destruct (negative_initial_lines idle_process 1
              {| c_refs := 1; c_replies := []; c_closed_callback := None;
                 c_error := 0 |}
              {[ "initial_lines"%string := -1 ]} 0 4 0
              (sample_journal three_records LOCATION_HEAD)
              eq_refl eq_refl Hk)
    as ((Hep & Hmon & _) & Hreply & _).
  destruct (Hreply eq_refl eq_refl) as [Hr Hrep]. done.
Defined.

(** ** C7: the cursor after a batch *)

(** C7: after a read-batch that reads at least one record, the batch has
    that many entries and the stored cursor of the monitor is the cursor of
    the last entry of the batch.  And the read-batch does read: when no call
    fails and the records after the read pointer can be translated, it
    returns their entries, as many as there are records, and where there is
    at least one the monitor then holds the cursor of the last of them,
    whatever cursor it held before. *)
Theorem cursor_of_last_entry monitor :
  (∀ r monitor' entries,
     monitor_read_entries monitor = (r, monitor', entries) → 0 < r →
     r = Z.of_nat (length entries) ∧
     ∃ w, last entries = Some w ∧ cursor monitor' = Some (we_cursor w)) ∧
  (∀ j, journal monitor = Some j → reads_work j →
        (∀ k e, (next_index j ≤ k)%nat → j_entries j !! k = Some e →
                translation_error e = 0) →
        (next_index j < length (j_entries j))%nat →
        let batch := drop (next_index j) (j_entries j) in
        ∃ monitor' e,
          monitor_read_entries monitor
          = (Z.of_nat (length batch), monitor', wire_entry <$> batch) ∧
          0 < Z.of_nat (length batch) ∧
          last batch = Some e ∧
          last (wire_entry <$> batch) = Some (wire_entry e) ∧
          cursor monitor' = Some (we_cursor (wire_entry e))).
Proof.
  split.
  - intros r monitor' entries
      [[-> _] | (Hlen & Hcur & _)]%monitor_read_entries_result Hr; [done|].
    split; [done|]. destruct (last entries) as [w|] eqn:Hlast; [by eauto|].
    apply last_None in Hlast as ->. simpl in Hlen. lia.
  - intros j Hj Hw Hall Hlt batch.
    rewrite (monitor_read_entries_from monitor j Hj Hw Hall). fold batch.
    assert (length batch = (length (j_entries j) - next_index j)%nat) as Hlen
      by apply length_drop.
    destruct (last batch) as [e|] eqn:Hlast.
    2:{ apply last_None in Hlast. rewrite Hlast in Hlen. simpl in Hlen. lia. }
    eexists _, e. rewrite Hlen. split; [done|]. split; [lia|].
    split; [done|]. split; [by rewrite fmap_last, Hlast|]. done.
Qed.

Lemma cursor_of_last_entry_witness :
  let monitor :=
    sample_monitor three_records (LOCATION_DISCRETE 0) (Some "s=1;i=1"%string) in
  cursor monitor = Some "s=1;i=1"%string ∧
  ∃ monitor',
    monitor_read_entries monitor
    = (2, monitor', [wire_entry disk_warn; wire_entry heartbeat]) ∧
    cursor monitor' = Some "s=1;i=3"%string.
Proof.
  intros monitor. split; [reflexivity|].
  destruct (proj2 (cursor_of_last_entry monitor)
              (sample_journal three_records (LOCATION_DISCRETE 0)) eq_refl)
    as (monitor' & e & Hread & _ & Hlast & _ & Hcur).
  - repeat split.
  - intros k e _ He. exact (three_records_translatable k e He).
  - vm_compute. lia.
  - injection Hlast as <-. exists monitor'. split; [exact Hread | exact Hcur].
Defined.

(** ** C8: the severity names *)



(** ** C9: the process name *)

(** C9: the [process] of the entry of a translated record is the text of
    SYSLOG_IDENTIFIER when the record has that field, else the text of _COMM
    when it has that one, and absent when it has neither; a text is what the
    C string holds, the field itself when it has no NUL byte.  And the
    record is translated in each of the three cases: which of the two fields
    it has decides nothing but the [process] of its entry. *)
Theorem process_resolution j :
  (∀ r j' w,
     journal_read_next_entry j = (r, j', Some w) →
     ∃ e, j_entries j !! next_index j = Some e ∧ current_entry j' = Some e ∧
          we_process w =
          match find_field "SYSLOG_IDENTIFIER" (e_data e),
                find_field "_COMM" (e_data e) with
          | Some identifier, _ => Some (c_string identifier)
          | None, Some comm => Some (c_string comm)
          | None, None => None
          end ∧
          (∀ v, find_field "SYSLOG_IDENTIFIER" (e_data e) = Some v →
                nul_free v = true → we_process w = Some v) ∧
          (∀ v, find_field "SYSLOG_IDENTIFIER" (e_data e) = None →
                find_field "_COMM" (e_data e) = Some v →
                nul_free v = true → we_process w = Some v)) ∧
  (∀ e, reads_work j → j_entries j !! next_index j = Some e → entry_wf e →
        is_Some (find_field "MESSAGE" (e_data e)) →
        (∀ text, find_field "PRIORITY" (e_data e) = Some text →
                 snd (strtoll (c_string text)) ≠ O) →
        ∃ w, journal_read_next_entry j =
             (1, set_location j (LOCATION_DISCRETE (next_index j)), Some w) ∧
             we_process w =
             match find_field "SYSLOG_IDENTIFIER" (e_data e),
                   find_field "_COMM" (e_data e) with
             | Some identifier, _ => Some (c_string identifier)
             | None, Some comm => Some (c_string comm)
             | None, None => None
             end).
Proof.
  split.
  - intros r j' w (e & He & -> & _ & Herr & -> & _)%journal_read_next_entry_inv.
    exists e. split; [done|]. split.
    { unfold current_entry. cbn [set_location j_location j_entries]. done. }
    cbn [wire_entry we_process]. unfold record_process.
    split; [by repeat case_match|]. split.
    + intros v -> Hv. by rewrite c_string_nul_free.
    + intros v -> -> Hv. by rewrite c_string_nul_free.
  - intros e Hw He Hwf Hmsg Hprio. exists (wire_entry e).
    split; [by apply journal_read_next_entry_translates|].
    cbn [wire_entry we_process]. unfold record_process. by repeat case_match.
Qed.

(** The three cases on the sample records: [disk_warn] has both fields,
    [boot_ok] has _COMM only and [heartbeat] has neither. *)
Lemma process_resolution_witness :
  (∃ w, journal_read_next_entry (sample_journal three_records (LOCATION_DISCRETE 0))
        = (1, sample_journal three_records (LOCATION_DISCRETE 1), Some w) ∧
        we_process w = Some "smartd"%string) ∧
  (∃ w, journal_read_next_entry (sample_journal three_records LOCATION_HEAD)
        = (1, sample_journal three_records (LOCATION_DISCRETE 0), Some w) ∧
        we_process w = Some "systemd"%string) ∧
  (∃ w, journal_read_next_entry (sample_journal three_records (LOCATION_DISCRETE 1))
        = (1, sample_journal three_records (LOCATION_DISCRETE 2), Some w) ∧
        we_process w = None).
Proof.
  assert (∀ l, reads_work (sample_journal three_records l)) as Hw
    by (intros l; repeat split).
  split; [|split].
  - apply (proj2 (process_resolution
                    (sample_journal three_records (LOCATION_DISCRETE 0)))
             disk_warn (Hw _) eq_refl).
    + unfold entry_wf. simpl. lia.
    + by eexists.
    + intros text [= <-]. vm_compute. discriminate.
  - apply (proj2 (process_resolution (sample_journal three_records LOCATION_HEAD))
             boot_ok (Hw _) eq_refl).
    + unfold entry_wf. simpl. lia.
    + by eexists.
    + intros text [= <-]. vm_compute. discriminate.
  - apply (proj2 (process_resolution
                    (sample_journal three_records (LOCATION_DISCRETE 1)))
             heartbeat (Hw _) eq_refl).
    + unfold entry_wf. simpl. lia.
    + by eexists.
    + intros text [=].
Defined.

(** ** C10: the text of the PRIORITY field *)

(** C10: a PRIORITY text that starts with decimal digits is read as the
    number of these digits, whatever follows them ("3extra" is level 3,
    "warning"); at a record with a PRIORITY field, [journal_get_int] fails,
    with [-EINVAL], exactly when [strtoll] converts nothing; a record with
    such a field anywhere among the records still to read makes the
    read-batch return [-VARLINK_ERROR_PANIC] with no batch; and a record with
    a message whose PRIORITY starts with a number is translated. *)
Theorem priority_parsing :
  (∀ ds rest,
     ds ≠ EmptyString → all_digits ds = true → starts_with_digit rest = false →
     strtoll (ds +:+ rest) = (clamp_int64 (digits_value ds 0), String.length ds)) ∧
  (strtoll "3extra" = (3, 1%nat) ∧
   (journal_read_next_entry (sample_journal [odd_level] LOCATION_HEAD)).2
   = Some (wire_entry odd_level) ∧
   we_priority (wire_entry odd_level) = Some "warning"%string) ∧
  (∀ j e text number0,
     current_entry j = Some e → (j_fault j In_get_data <? 0) = false →
     find_field "PRIORITY" (e_data e) = Some text →
     journal_get_int j "PRIORITY" number0 =
     if (snd (strtoll (c_string text)) =? 0)%nat then (- EINVAL, number0)
     else (0, fst (strtoll (c_string text)))) ∧
  (∀ monitor j k e text,
     journal monitor = Some j → (next_index j ≤ k)%nat →
     j_entries j !! k = Some e →
     find_field "PRIORITY" (e_data e) = Some text →
     snd (strtoll (c_string text)) = O →
     (monitor_read_entries monitor).1.1 = - VARLINK_ERROR_PANIC ∧
     (monitor_read_entries monitor).2 = []) ∧
  (∀ j e,
     reads_work j → j_entries j !! next_index j = Some e → entry_wf e →
     is_Some (find_field "MESSAGE" (e_data e)) →
     (∀ text, find_field "PRIORITY" (e_data e) = Some text →
              snd (strtoll (c_string text)) ≠ O) →
     ∃ j', journal_read_next_entry j = (1, j', Some (wire_entry e))).
Proof.
  split; [exact strtoll_leading_digits|]. split; [by vm_compute|]. split.
  { intros j e text number0 Hcur Hd Ht.
    by rewrite (journal_get_int_current j e Hcur Hd), Ht. }
  split.
  - intros monitor j k e text Hj Hk He Ht Hend.
    assert (translation_error e ≠ 0) as Herr.
    { unfold translation_error. rewrite Ht, Hend. cbn [Nat.eqb].
      destruct (_ <? 0); [done|]. by destruct (find_field "MESSAGE" _). }
    pose proof (read_entries_loop_fails j [] 0 k e Hk He Herr) as Hneg.
    unfold monitor_read_entries. rewrite Hj.
    destruct (read_entries_loop j [] 0) as [[[r0 j0] batch] n_read].
    cbn [fst] in Hneg. by destruct (Z.ltb_spec r0 0); [|lia].
  - intros j e Hw He Hwf Hm Hp. eexists.
    by apply journal_read_next_entry_translates.
Qed.

Lemma priority_parsing_witness :
  (monitor_read_entries
     (sample_monitor [boot_ok; no_level; heartbeat] LOCATION_HEAD None)).1.1
  = - VARLINK_ERROR_PANIC ∧
  journal_get_int (sample_journal [odd_level] (LOCATION_DISCRETE 0)) "PRIORITY" (-1)
  = (0, 3).
Proof.
  destruct priority_parsing as (_ & _ & Hint & Hpanic & _). split.
  - apply (Hpanic _ (sample_journal [boot_ok; no_level; heartbeat] LOCATION_HEAD)
             1%nat no_level "high"%string); try reflexivity.
    vm_compute. lia.
  - exact (Hint (sample_journal [odd_level] (LOCATION_DISCRETE 0)) odd_level
             "3extra"%string (-1) eq_refl eq_refl eq_refl).
Defined.

(** * Further properties of the code *)

(** ** The helpers of the translator *)

(** X1: [journal_get_string] returns the very code [sd_journal_get_data]
    returns: the library hands out the item as [FIELD=value], so the check
    of the length never fires and the function adds no failure of its own.
    When the call works, the string is the text after [FIELD=] up to its
    first NUL byte: the whole value when it has none, and the part before
    the NUL byte when it has one. *)
Theorem journal_get_string_code j field :
  (journal_get_string j field).1 = (sd_journal_get_data j field).1.1 ∧
  (∀ data len,
     sd_journal_get_data j field = (0, data, len) →
     ∃ v, data = field +:+ "=" +:+ v ∧
          journal_get_string j field = (0, c_string v) ∧
          (nul_free v = true → c_string v = v) ∧
          (∀ a b, nul_free a = true → v = a +:+ String "000" b →
                  c_string v = a)).
Proof.
  assert (∀ data len,
            sd_journal_get_data j field = (0, data, len) →
            ∃ v, data = field +:+ "=" +:+ v ∧
                 journal_get_string j field = (0, c_string v)) as Hok.
  { intros data len H.
    destruct (sd_journal_get_data_inv _ _ _ _ H) as (e & v & Hcur & Hv & -> & ->).
    exists v. split; [done|]. unfold journal_get_string. rewrite H.
    cbn [Z.ltb Z.compare]. unfold strlen.
    change ("=" +:+ v) with (String "=" v).
    rewrite string_length_append. cbn [String.length].
    destruct (_ <? _)%nat eqn:Hlt; [apply Nat.ltb_lt in Hlt; lia|].
    rewrite string_drop_field. unfold c_string. do 2 f_equal. lia. }
  split.
  - destruct (sd_journal_get_data j field) as [[r data] len] eqn:H. cbn [fst].
    destruct (Z.lt_trichotomy r 0) as [Hr|[->|Hr]].
    + unfold journal_get_string. rewrite H. by destruct (Z.ltb_spec r 0); [|lia].
    + destruct (Hok _ _ eq_refl) as (v & _ & ->). done.
    + exfalso. revert H. unfold sd_journal_get_data.
      destruct (Z.ltb_spec (j_fault j In_get_data) 0); [intros [= ? ? ?]; lia|].
      destruct (current_entry j) as [e|]; [|intros [= ? _ _]; subst r; done].
      destruct (find_field field (e_data e)); intros [= ? _ _]; subst r; done.
  - intros data len H. destruct (Hok _ _ H) as (v & Hd & Hs).
    exists v. split; [done|]. split; [done|]. split.
    + apply c_string_nul_free.
    + intros a b Ha ->. by apply c_string_cut.
Qed.

Lemma journal_get_string_code_witness :
  ∃ v, ("MESSAGE=fan" : string) = "MESSAGE" +:+ "=" +:+ v ∧
       journal_get_string (sample_journal [odd_level] (LOCATION_DISCRETE 0)) "MESSAGE"
       = (0, c_string v).
Proof.
  destruct (proj2 (journal_get_string_code
                     (sample_journal [odd_level] (LOCATION_DISCRETE 0)) "MESSAGE")
              "MESSAGE=fan"%string 11%nat eq_refl) as (v & Hd & Hs & _).
  by exists v.
Defined.

(** X2: [journal_get_int] reads a number the way [strtoll] does: white
    space before it is skipped, a sign is taken, the digits are converted
    and whatever follows them is ignored; a number outside the range of
    [int64_t] is not an error, the result is the nearest bound of the
    range. *)
Theorem journal_get_int_signed j e field number0 ws sg neg ds rest :
  current_entry j = Some e → (j_fault j In_get_data <? 0) = false →
  find_field field (e_data e) = Some (ws +:+ sg +:+ ds +:+ rest) →
  all_space ws = true → sign_text sg neg →
  ds ≠ EmptyString → all_digits ds = true → starts_with_digit rest = false →
  let number := if neg then - digits_value ds 0 else digits_value ds 0 in
  journal_get_int j field number0 = (0, clamp_int64 number) ∧
  INT64_MIN ≤ clamp_int64 number ≤ INT64_MAX ∧
  (INT64_MIN ≤ number ≤ INT64_MAX → clamp_int64 number = number).
Proof.
  intros Hcur Hd Hf Hws Hsg Hne Hds Hrest number.
  split; [|split; [apply clamp_int64_range|unfold clamp_int64; lia]].
  rewrite (journal_get_int_current j e Hcur Hd), Hf.
  rewrite !c_string_append
    by eauto using all_space_nul_free, sign_text_nul_free, all_digits_nul_free.
  rewrite (strtoll_signed ws sg neg ds (c_string rest))
    by eauto using starts_with_digit_c_string.
  cbn [fst snd]. destruct ds as [|c ds]; [done|].
  destruct (Nat.eqb_spec (String.length ws + String.length sg
                          + String.length (String c ds)) 0) as [H0|]; [|done].
  cbn [String.length] in H0. lia.
Qed.

Lemma journal_get_int_signed_witness :
  journal_get_int
    (sample_journal [Entry "c" 0 [("PRIORITY", " -3 dB")]%string]
       (LOCATION_DISCRETE 0)) "PRIORITY" (-1)
  = (0, -3).
Proof.
  exact (proj1 (journal_get_int_signed
                  (sample_journal [Entry "c" 0 [("PRIORITY", " -3 dB")]%string]
                     (LOCATION_DISCRETE 0))
                  (Entry "c" 0 [("PRIORITY", " -3 dB")]%string)
                  "PRIORITY" (-1) " " "-" true "3" " dB"
                  eq_refl eq_refl eq_refl eq_refl sign_minus
                  ltac:(discriminate) eq_refl eq_refl)).
Defined.

(** X3: for every [uint64_t] of microseconds [format_time_rfc3339]
    returns 0, and the text is shorter than the buffer of 50 bytes the one
    caller passes, so that [strftime], whose result the function does not
    look at, never finds the buffer too small.  Before the year 10000 the
    text has the form [YYYY-MM-DD hh:mm:ssZ], 20 characters.  The text
    depends on the whole seconds only. *)
Theorem format_time_rfc3339_text usec :
  0 ≤ usec < 2 ^ 64 →
  ∃ s, format_time_rfc3339 usec = (0, s) ∧
       (String.length s < 50)%nat ∧
       (usec < 253402300800000000 → timestamp_text s = true) ∧
       (∀ usec', usec' / 1000000 = usec / 1000000 →
                 format_time_rfc3339 usec' = (0, s)).
Proof.
  intros Hu. unfold format_time_rfc3339.
  assert (0 ≤ usec / 1000000 ≤ 18446744073709) as Htime.
  { change (2 ^ 64) with 18446744073709551616 in Hu.
    Z.div_mod_to_equations. lia. }
  destruct (gmtime_r_fields _ Htime)
    as (t & Hg & Hy & Hy' & Hmon & Hday & Hh & Hmin & Hsec).
  rewrite Hg. eexists. split; [done|].
  destruct (two_digit_text_inv _ (two_digits_text (tm_mon t) ltac:(lia)))
    as (m1 & m2 & Hm & Hm1 & Hm2).
  destruct (two_digit_text_inv _ (two_digits_text (tm_mday t) ltac:(lia)))
    as (d1 & d2 & Hd & Hd1 & Hd2).
  destruct (two_digit_text_inv _ (two_digits_text (tm_hour t) ltac:(lia)))
    as (h1 & h2 & Hhh & Hh1 & Hh2).
  destruct (two_digit_text_inv _ (two_digits_text (tm_min t) ltac:(lia)))
    as (n1 & n2 & Hn & Hn1 & Hn2).
  destruct (two_digit_text_inv _ (two_digits_text (tm_sec t) ltac:(lia)))
    as (s1 & s2 & Hs & Hs1 & Hs2).
  unfold strftime. rewrite Hm, Hd, Hhh, Hn, Hs.
  split; [|split].
  - rewrite !string_length_append. cbn [String.length].
    pose proof (pretty_Z_length 6 (tm_year t)) as Hlen.
    change (10 ^ Z.of_nat 7) with 10000000 in Hlen.
    change (2 ^ 20) with 1048576 in Hy. lia.
  - intros Hlt.
    destruct (four_digit_text_inv (pretty (tm_year t))) as (y1 & y2 & y3 & y4 & -> & ? & ? & ? & ?).
    { apply pretty_four_digits. split; [lia|]. apply Hy'.
      clear - Hlt Hu. Z.div_mod_to_equations. lia. }
    rewrite !append_String, !append_empty. cbn [timestamp_text forallb].
    repeat match goal with H : isdigit _ = true |- _ => rewrite H; clear H end.
    done.
  - intros usec' ->. by rewrite Hg, Hm, Hd, Hhh, Hn, Hs.
Qed.

Lemma format_time_rfc3339_text_witness :
  ∃ s, format_time_rfc3339 1700000001500000 = (0, s) ∧
       (String.length s < 50)%nat ∧
       (1700000001500000 < 253402300800000000 → timestamp_text s = true) ∧
       (∀ usec', usec' / 1000000 = 1700000001500000 / 1000000 →
                 format_time_rfc3339 usec' = (0, s)).
Proof.
  apply (format_time_rfc3339_text 1700000001500000). split; [lia|reflexivity].
Defined.

(** X4: the time text identifies the second of the time stamp: two time
    stamps get the same text if and only if they lie in the same second. *)
Theorem time_text_identifies_second usec usec' :
  0 ≤ usec < 2 ^ 64 → 0 ≤ usec' < 2 ^ 64 →
  format_time_rfc3339 usec = format_time_rfc3339 usec' ↔
  usec / 1000000 = usec' / 1000000.
Proof.
  intros Hu Hu'. unfold format_time_rfc3339. split; [|by intros ->].
  assert (∀ u, 0 ≤ u < 2 ^ 64 → 0 ≤ u / 1000000 ≤ 18446744073709) as Htime.
  { intros u Hr. change (2 ^ 64) with 18446744073709551616 in Hr.
    Z.div_mod_to_equations. lia. }
  destruct (gmtime_r_fields _ (Htime _ Hu))
    as (t & Hg & Hy & _ & Hmon & Hday & Hh & Hmin & Hsec).
  destruct (gmtime_r_fields _ (Htime _ Hu'))
    as (t' & Hg' & Hy' & _ & Hmon' & Hday' & Hh' & Hmin' & Hsec').
  rewrite Hg, Hg'. intros [= Heq].
  apply strftime_inj in Heq; [|unfold tm_valid; lia..]. subst t'.
  apply timegm_gmtime_r in Hg, Hg'. congruence.
Qed.

Lemma time_text_identifies_second_witness :
  format_time_rfc3339 1700000001500000 = format_time_rfc3339 1700000001999999.
Proof.
  apply (time_text_identifies_second 1700000001500000 1700000001999999);
    [split; [lia|reflexivity].. | reflexivity].
Defined.

(** X5: the three results of [journal_read_next_entry], on a handle
    whose read pointer is not a cursor whose record is gone.  It returns 1
    together with the entry of the record [sd_journal_next] moves to (the
    first one from the head, the last one from the tail, the record of the
    cursor after a seek, the following one from a record), which is then
    the current one; or a negative code and no entry; or 0 and no entry,
    which it does only when there is no such record, and then the handle is
    as it was.  At the tail it returns 0 on an empty journal only.  In every
    case the handle differs from the one passed in by the read pointer at
    most. *)
Theorem journal_read_next_entry_contract j :
  cursor_known j →
  let '(r, j', o) := journal_read_next_entry j in
  (∃ l, j' = set_location j l) ∧
  ((r = 1 ∧ ∃ e, j_entries j !! next_index j = Some e ∧
                 current_entry j' = Some e ∧ o = Some (wire_entry e)) ∨
   (r < 0 ∧ o = None) ∨
   (r = 0 ∧ o = None ∧ j' = j ∧ j_entries j !! next_index j = None)) ∧
  (j_location j = LOCATION_TAIL → r = 0 → j_entries j = []) ∧
  (∀ c, j_location j = LOCATION_SEEK c →
        find_cursor c (j_entries j) = Some (next_index j)).
Proof.
  intros Hknown.
  destruct (journal_read_next_entry j) as [[r j'] o] eqn:H.
  split; [by eapply journal_read_next_entry_frame|].
  split; [|split].
  - destruct (journal_read_next_entry_cases _ _ _ _ H)
      as [[-> [w ->]] | [[Hr ->] | (-> & -> & -> & Hlen)]].
    + left. split; [done|].
      apply journal_read_next_entry_inv in H as (e & He & -> & _ & _ & -> & _).
      by exists e.
    + right. by left.
    + right. right. split; [done|]. split; [done|]. split; [done|].
      by apply lookup_ge_None.
  - intros Hl ->.
    destruct (journal_read_next_entry_cases _ _ _ _ H)
      as [[? _] | [[? _] | (_ & _ & _ & Hlen)]]; [done|lia|].
    unfold next_index in Hlen. rewrite Hl in Hlen.
    destruct (j_entries j); [done|]. simpl in Hlen. lia.
  - intros c Hl. destruct (Hknown c Hl) as [i Hi].
    unfold next_index. by rewrite Hl, Hi.
Qed.

(** Right after a seek to the tail the last record is read. *)
Lemma journal_read_next_entry_contract_witness :
  journal_read_next_entry (sample_journal three_records LOCATION_TAIL)
  = (1, sample_journal three_records (LOCATION_DISCRETE 2),
     Some (wire_entry heartbeat)) ∧
  ∃ l, sample_journal three_records (LOCATION_DISCRETE 2)
       = set_location (sample_journal three_records LOCATION_TAIL) l.
Proof.
  assert (journal_read_next_entry (sample_journal three_records LOCATION_TAIL)
          = (1, sample_journal three_records (LOCATION_DISCRETE 2),
             Some (wire_entry heartbeat))) as Heq by (vm_compute; reflexivity).
  split; [exact Heq|].
  pose proof (journal_read_next_entry_contract
                (sample_journal three_records LOCATION_TAIL)) as H.
  rewrite Heq in H. apply H. intros c. discriminate.
Defined.

(** X6: a record without a MESSAGE field is not translated.
    [journal_read_next_entry] returns [-ENOENT] for it, the code it lets
    pass for a missing PRIORITY, and the read-batch that meets the record
    returns [-VARLINK_ERROR_PANIC] with no entries. *)
Theorem record_without_message j e :
  reads_work j → j_entries j !! next_index j = Some e → entry_wf e →
  find_field "MESSAGE" (e_data e) = None →
  journal_read_next_entry j =
  (- ENOENT, set_location j (LOCATION_DISCRETE (next_index j)), None) ∧
  (∀ monitor, journal monitor = Some j →
              (monitor_read_entries monitor).1.1 = - VARLINK_ERROR_PANIC ∧
              (monitor_read_entries monitor).2 = []).
Proof.
  intros Hw He Hwf Hm.
  assert (translation_error e = - ENOENT) as Herr.
  { unfold translation_error. by rewrite (format_time_rfc3339_ok _ Hwf), Hm. }
  split.
  - rewrite (journal_read_next_entry_spec _ Hw), He. cbn zeta. by rewrite Herr.
  - intros monitor Hj.
    pose proof (read_entries_loop_fails j [] 0 (next_index j) e (le_n _) He
                  ltac:(by rewrite Herr)) as Hneg.
    unfold monitor_read_entries. rewrite Hj.
    destruct (read_entries_loop j [] 0) as [[[r0 j0] batch] n_read].
    cbn [fst] in Hneg. by destruct (Z.ltb_spec r0 0); [|lia].
Qed.

Lemma record_without_message_witness :
  journal_read_next_entry (sample_journal [no_message] LOCATION_HEAD)
  = (- ENOENT, sample_journal [no_message] (LOCATION_DISCRETE 0), None).
Proof.
  apply (record_without_message (sample_journal [no_message] LOCATION_HEAD)
           no_message).
  - repeat split.
  - reflexivity.
  - unfold entry_wf. simpl. lia.
  - reflexivity.
Defined.

(** ** The read-batch procedure *)

(** X7: a record that cannot be translated, anywhere among the records
    still to read, makes [monitor_read_entries] return
    [-VARLINK_ERROR_PANIC] with no entries: the entries translated before
    it are dropped with the array.  The function returns before it touches
    the stored cursor, which is as before; only the read pointer has
    moved. *)
Theorem failed_batch_keeps_cursor monitor j k e :
  journal monitor = Some j → (next_index j ≤ k)%nat →
  j_entries j !! k = Some e → translation_error e ≠ 0 →
  ∃ l, monitor_read_entries monitor =
       (- VARLINK_ERROR_PANIC, set_journal monitor (Some (set_location j l)), []) ∧
       cursor (monitor_read_entries monitor).1.2 = cursor monitor.
Proof.
  intros Hj Hk He Herr.
  pose proof (read_entries_loop_fails j [] 0 k e Hk He Herr) as Hneg.
  unfold monitor_read_entries. rewrite Hj.
  destruct (read_entries_loop j [] 0) as [[[r0 j0] batch] n_read] eqn:Hloop.
  apply read_entries_loop_frame in Hloop as [l ->].
  cbn [fst] in Hneg. destruct (Z.ltb_spec r0 0); [|lia].
  by exists l.
Qed.

Lemma failed_batch_keeps_cursor_witness :
  ∃ l, monitor_read_entries
         (sample_monitor [boot_ok; no_message; heartbeat] LOCATION_HEAD
            (Some "s=1;i=0"%string)) =
       (- VARLINK_ERROR_PANIC,
        set_journal
          (sample_monitor [boot_ok; no_message; heartbeat] LOCATION_HEAD
             (Some "s=1;i=0"%string))
          (Some (set_location
                   (sample_journal [boot_ok; no_message; heartbeat] LOCATION_HEAD)
                   l)), []) ∧
       cursor (monitor_read_entries
                 (sample_monitor [boot_ok; no_message; heartbeat] LOCATION_HEAD
                    (Some "s=1;i=0"%string))).1.2
       = Some "s=1;i=0"%string.
Proof.
  apply (failed_batch_keeps_cursor
           (sample_monitor [boot_ok; no_message; heartbeat] LOCATION_HEAD
              (Some "s=1;i=0"%string))
           (sample_journal [boot_ok; no_message; heartbeat] LOCATION_HEAD)
           1%nat no_message); [reflexivity | vm_compute; lia | reflexivity |].
  vm_compute. discriminate.
Defined.

(** X8: after a read-batch that did not fail the read pointer is at the
    end of the journal: a second read-batch right after it returns 0 with
    no entries, and leaves the monitor without a stored cursor. *)
Theorem second_batch_is_empty monitor r monitor' entries :
  monitor_read_entries monitor = (r, monitor', entries) → 0 ≤ r →
  monitor_read_entries monitor' = (0, set_cursor monitor' None, []).
Proof.
  unfold monitor_read_entries at 1.
  destruct (journal monitor) as [j|] eqn:Hj; [|intros [= <- _ _]; done].
  destruct (read_entries_loop j [] 0) as [[[r0 j'] batch] n_read] eqn:Hloop.
  pose proof (read_entries_loop_batch _ _ _ _ _ _ _ Hloop) as [Hle _].
  destruct (Z.ltb_spec r0 0); [intros [= <- _ _]; done|].
  assert (r0 = 0) as -> by lia.
  apply read_entries_loop_end in Hloop.
  assert (∀ c, monitor_read_entries (set_cursor (set_journal monitor (Some j')) c)
               = (0, set_cursor (set_journal monitor (Some j')) None, [])) as Hsecond.
  { intros c. unfold monitor_read_entries. cbn [journal set_cursor set_journal].
    rewrite read_entries_loop_step, Hloop. cbn [Z.ltb Z.eqb Z.compare]. done. }
  destruct (0 <? n_read).
  - destruct (sd_journal_get_cursor j') as [rc c]. destruct (rc <? 0).
    + intros [= <- _ _]. done.
    + intros [= _ <- _] _. apply Hsecond.
  - intros [= _ <- _] _. apply Hsecond.
Qed.

Lemma second_batch_is_empty_witness :
  let monitor' := sample_monitor three_records (LOCATION_DISCRETE 2)
                    (Some "s=1;i=3"%string) in
  monitor_read_entries monitor' = (0, set_cursor monitor' None, []).
Proof.
  apply (second_batch_is_empty (sample_monitor three_records LOCATION_HEAD None) 3
           _ (wire_entry <$> three_records)); [vm_compute; reflexivity | lia].
Defined.

(** ** The streaming dispatch *)

(** X9: one call of [monitor_dispatch] sends one reply or none.  A reply
    it sends carries at least one entry and the flag
    [VARLINK_REPLY_CONTINUES]; the function then returns 0 and the stored
    cursor is the cursor of the last entry sent.  When it sends nothing the
    call is untouched, and the value returned is 0,
    [-VARLINK_ERROR_PANIC] or the error of the reply function.  The monitor
    keeps its call and its epoll descriptor. *)
Theorem dispatch_sends_no_empty_batch m c :
  let '(r, m', c') := monitor_dispatch m c in
  call m' = call m ∧ epoll_fd m' = epoll_fd m ∧
  ((c' = c ∧ (r = 0 ∨ r = - VARLINK_ERROR_PANIC ∨ (r = c_error c ∧ c_error c < 0))) ∨
   ∃ entries, entries ≠ [] ∧ r = 0 ∧
     c' = add_reply c (Reply_entries entries VARLINK_REPLY_CONTINUES) ∧
     cursor m' = we_cursor <$> last entries).
Proof.
  unfold monitor_dispatch.
  pose proof (on_journal_frame sd_journal_process m) as (Hc1 & Hf1 & _).
  destruct (on_journal sd_journal_process m) as [event m1]. cbn [snd] in Hc1, Hf1.
  destruct (event =? SD_JOURNAL_INVALIDATE).
  - assert (call (match cursor m1 with
                  | Some cur => on_journal (λ j, sd_journal_seek_cursor j cur) m1
                  | None => on_journal sd_journal_seek_tail m1
                  end).2 = call m1 ∧
            epoll_fd (match cursor m1 with
                      | Some cur => on_journal (λ j, sd_journal_seek_cursor j cur) m1
                      | None => on_journal sd_journal_seek_tail m1
                      end).2 = epoll_fd m1) as [Hc2 Hf2].
    { destruct (cursor m1); split; apply on_journal_frame. }
    destruct (match cursor m1 with Some _ => _ | None => _ end) as [r2 m2].
    cbn [snd] in Hc2, Hf2. destruct (r2 <? 0).
    { split; [congruence|]. split; [congruence|]. left. auto. }
    pose proof (dispatch_read_reply m2 c) as H.
    destruct (dispatch_read m2 c) as [[r m'] c']. destruct H as (? & ? & H).
    split; [congruence|]. split; [congruence|]. done.
  - destruct (negb _).
    { split; [done|]. split; [done|]. left. auto. }
    pose proof (dispatch_read_reply m1 c) as H.
    destruct (dispatch_read m1 c) as [[r m'] c']. destruct H as (? & ? & H).
    split; [congruence|]. split; [congruence|]. done.
Qed.

(** X10: [monitor_dispatch] compares the result of [sd_journal_process]
    with [SD_JOURNAL_INVALIDATE] and [SD_JOURNAL_APPEND] only.  A failure of
    that call (a negative code, also for a NULL handle) is therefore treated
    like a wake-up without news: the function returns 0, reads and sends
    nothing, and the monitor is as before. *)
Theorem dispatch_ignores_process_failure m c :
  (∀ j, journal m = Some j →
        j_fault j In_process < 0 ∨
        ((j_fault j In_process <? 0) = false ∧ j_changes j = [])) →
  monitor_dispatch m c = (0, m, c).
Proof.
  intros H. unfold monitor_dispatch, on_journal.
  destruct (journal m) as [j|] eqn:Hj; [|done].
  unfold sd_journal_process.
  destruct (H j eq_refl) as [Hf | [Hf Hch]].
  - destruct (Z.ltb_spec (j_fault j In_process) 0); [|lia].
    rewrite set_journal_id by done.
    destruct (Z.eqb_spec (j_fault j In_process) SD_JOURNAL_INVALIDATE) as [He|_];
      [unfold SD_JOURNAL_INVALIDATE in He; lia|].
    destruct (Z.eqb_spec (j_fault j In_process) SD_JOURNAL_APPEND) as [He|_];
      [unfold SD_JOURNAL_APPEND in He; lia|].
    done.
  - rewrite Hf, Hch. cbn. by rewrite set_journal_id.
Qed.

Lemma dispatch_ignores_process_failure_witness :
  let m := {| call := 1;
              journal := Some {| j_entries := three_records;
                                 j_location := LOCATION_DISCRETE 0; j_fd := 7;
                                 j_changes := [Append [odd_level]];
                                 j_fault := λ c, match c with
                                                 | In_process => - EIO
                                                 | _ => 0
                                                 end |};
              cursor := Some "s=1;i=1"%string; epoll_fd := 4 |} in
  monitor_dispatch m open_call = (0, m, open_call).
Proof.
  intros m. apply dispatch_ignores_process_failure.
  intros j [= <-]. left. cbn. reflexivity.
Defined.

(** X11: a monitor whose read pointer is at the last record delivers
    what is appended exactly once and in order.  Over a run of wake-ups,
    each for records appended to the journal, every dispatch returns 0, a
    reply is sent for each batch that is not empty and for no other, and
    the entries of the replies, one after the other, are the entries of the
    appended records.  Afterwards the read pointer is at the last record
    again, and the stored cursor is that of the last record of the last
    batch (none when that batch was empty). *)
Theorem appended_records_delivered_once m c j batches :
  journal m = Some j → at_last_record j →
  j_changes j = Append <$> batches →
  (j_fault j In_process <? 0) = false → reads_work j →
  translatable (concat batches) → (c_error c <? 0) = false →
  ∃ m' c' j' sent,
    dispatches (length batches) m c = (0, m', c') ∧
    c_replies c' = c_replies c ++ sent ∧
    sent = concat (batch_reply <$> batches) ∧
    reply_entries sent = wire_entry <$> concat batches ∧
    journal m' = Some j' ∧ at_last_record j' ∧
    j_entries j' = j_entries j ++ concat batches ∧ j_changes j' = [] ∧
    (batches ≠ [] → cursor m' = e_cursor <$> (last batches ≫= last)).
Proof.
  intros Hj Hlast Hch Hp Hw Hall Herr.
  destruct (dispatches_appends batches m c j Hj Hlast Hch Hp Hw Hall Herr)
    as (m' & j' & Hd & Hj' & Hlast' & He & Hch' & Hcur).
  exists m', (foldl add_reply c (concat (batch_reply <$> batches))), j',
    (concat (batch_reply <$> batches)).
  split; [done|]. split; [apply foldl_add_reply|]. split; [done|].
  split; [apply reply_entries_batches|]. done.
Qed.

Lemma appended_records_delivered_once_witness :
  let j := {| j_entries := three_records; j_location := LOCATION_DISCRETE 2;
              j_fd := 7;
              j_changes := Append <$> [[odd_level]; []; [boot_ok; disk_warn]];
              j_fault := no_fault |} in
  let m := {| call := 1; journal := Some j; cursor := Some "s=1;i=3"%string;
              epoll_fd := 4 |} in
  ∃ m' c' j' sent,
    dispatches 3 m open_call = (0, m', c') ∧
    c_replies c' = c_replies open_call ++ sent ∧
    sent = concat (batch_reply <$> [[odd_level]; []; [boot_ok; disk_warn]]) ∧
    reply_entries sent
    = wire_entry <$> concat [[odd_level]; []; [boot_ok; disk_warn]] ∧
    journal m' = Some j' ∧ at_last_record j' ∧
    j_entries j' = j_entries j ++ concat [[odd_level]; []; [boot_ok; disk_warn]] ∧
    j_changes j' = [] ∧
    ([[odd_level]; []; [boot_ok; disk_warn]] ≠ [] →
     cursor m' = e_cursor <$> (last [[odd_level]; []; [boot_ok; disk_warn]] ≫= last)).
Proof.
  intros j m.
  apply (appended_records_delivered_once m open_call j
           [[odd_level]; []; [boot_ok; disk_warn]]).
  - reflexivity.
  - exists 2%nat. split; reflexivity.
  - reflexivity.
  - reflexivity.
  - repeat split.
  - intros k e He. destruct k as [|[|[|k]]]; simpl in He; by simplify_eq.
  - reflexivity.
Defined.

(** X12: when the reply of a dispatch fails, [monitor_dispatch] returns
    the error of [varlink_call_reply] with the batch already read: the
    stored cursor is that of its last record and the next read-batch is
    empty, so these records are not sent again.  Unless the error is
    [-VARLINK_ERROR_PANIC] the loop of [main] goes on. *)
Theorem failed_reply_loses_batch m c j batch rest :
  journal m = Some j → at_last_record j →
  j_changes j = Append batch :: rest → batch ≠ [] →
  (j_fault j In_process <? 0) = false → reads_work j →
  translatable batch → c_error c < 0 →
  ∃ m', monitor_dispatch m c = (c_error c, m', c) ∧
        cursor m' = e_cursor <$> last batch ∧
        monitor_read_entries m' = (0, set_cursor m' None, []) ∧
        (∀ epfd st p,
           monitors st !! p = Some m → calls st !! call m = Some c →
           c_error c ≠ - VARLINK_ERROR_PANIC →
           ∃ st', main_step epfd st (Ready_monitor p) = Running st' ∧
                  monitors st' !! p = Some m' ∧
                  replies_of st' (call m) = replies_of st (call m)).
Proof.
  intros Hj Hlast Hch Hne Hp Hw Hall Herr.
  destruct (dispatch_append_read m c j batch rest Hj Hlast Hch Hp Hw Hall)
    as (m' & j' & Hd & Hj' & (i & Hloc & Hi) & He & Hch' & Hf & Hcur & Hcall).
  assert (monitor_dispatch m c = (c_error c, m', c)) as Hdis.
  { rewrite Hd. destruct batch; [done|]. unfold varlink_call_reply, send.
    by destruct (Z.ltb_spec (c_error c) 0); [|lia]. }
  exists m'. split; [done|]. split; [done|]. split.
  - rewrite (monitor_read_entries_from _ j'); [|done|by unfold reads_work; rewrite Hf|].
    2:{ intros k e Hk Hlook. apply lookup_lt_Some in Hlook.
        unfold next_index in Hk. rewrite Hloc in Hk. lia. }
    unfold next_index, end_of_journal, next_index. rewrite Hloc, Hi, Nat.sub_diag.
    rewrite Nat.ltb_irrefl, drop_all. cbn. do 2 f_equal.
    destruct m'. cbn in *. by subst.
  - intros epfd st p Hm Hc Hpanic. cbn [main_step]. unfold dispatch_at, deref.
    rewrite Hm. cbn [default id]. cbn zeta. rewrite Hc, Hdis.
    destruct (Z.eqb_spec (c_error c) 0); [lia|].
    destruct (Z.eqb_spec (c_error c) (- VARLINK_ERROR_PANIC)); [done|].
    eexists. split; [done|]. unfold replies_of.
    cbn [set_calls store set_monitors monitors calls].
    by rewrite !lookup_insert_eq, Hc.
Qed.

Lemma failed_reply_loses_batch_witness :
  let j := {| j_entries := three_records; j_location := LOCATION_DISCRETE 2;
              j_fd := 7; j_changes := [Append [odd_level]];
              j_fault := no_fault |} in
  let m := {| call := 1; journal := Some j; cursor := Some "s=1;i=3"%string;
              epoll_fd := 4 |} in
  let c := {| c_refs := 2; c_replies := []; c_closed_callback := Some O;
              c_error := -2 |} in
  ∃ m', monitor_dispatch m c = (-2, m', c) ∧
        cursor m' = Some "s=1;i=4"%string ∧
        monitor_read_entries m' = (0, set_cursor m' None, []).
Proof.
  intros j m c.
  destruct (failed_reply_loses_batch m c j [odd_level] []) as (m' & H1 & H2 & H3 & _).
  - reflexivity.
  - exists 2%nat. split; reflexivity.
  - reflexivity.
  - discriminate.
  - reflexivity.
  - repeat split.
  - intros k e He. destruct k as [|k]; simpl in He; by simplify_eq.
  - reflexivity.
  - exists m'. split; [exact H1|]. split; [exact H2 | exact H3].
Defined.

(** ** Monitors and the handler *)

(** X13: [monitor_new] on a descriptor that is not registered returns
    the code of the first step that fails (that of [sd_journal_open],
    [-EBADF] from the registration of an invalid descriptor, that of
    [sd_journal_seek_tail]) and leaves the process as it found it: the
    object is freed, the descriptor removed from the interest list and the
    reference to the call given back.  When every step works it returns 0
    and the new monitor, at the tail of its journal, registered, holding one
    more reference to the call. *)
Theorem monitor_new_first_failure st cid epfd os_open files :
  epoll st !! j_fd files = None →
  let p := fresh (dom (monitors st)) in
  let m := {| call := cid; journal := Some (set_location files LOCATION_TAIL);
              cursor := None; epoll_fd := epfd |} in
  monitor_new st cid epfd os_open files =
  if os_open <? 0 then (os_open, None, st)
  else if j_fd files <? 0 then (- EBADF, None, st)
  else if j_fault files In_seek_tail <? 0
       then (j_fault files In_seek_tail, None, st)
       else (0, Some p,
             with_session st (j_fd files) p m
               (alter varlink_call_ref cid (calls st))).
Proof. apply monitor_new_result. Qed.

Lemma monitor_new_first_failure_witness :
  monitor_new idle_process 1 4 0
    {| j_entries := three_records; j_location := LOCATION_HEAD; j_fd := 7;
       j_changes := [];
       j_fault := λ c, match c with In_seek_tail => - EIO | _ => 0 end |}
  = (- EIO, None, idle_process).
Proof.
  exact (monitor_new_first_failure idle_process 1 4 0
           {| j_entries := three_records; j_location := LOCATION_HEAD; j_fd := 7;
              j_changes := [];
              j_fault := λ c, match c with In_seek_tail => - EIO | _ => 0 end |}
           eq_refl).
Defined.

(** X14: a call of the method that the handler answers with a negative
    value leaves no trace: the process is exactly as before the call, with
    no monitor, no registration, no reference and no reply.  The value is
    the code of the step that failed, passed on as it is ([-ERANGE] is that
    of [sd_journal_previous_skip] for an [initial_lines] of [INT_MAX] or
    more); only a failure of the read-batch is turned into
    [-VARLINK_ERROR_PANIC]. *)
Theorem failed_call_leaves_no_trace st cid c0 parameters flags userdata os_open files :
  epoll st !! j_fd files = None → calls st !! cid = Some c0 →
  let res := com_redhat_logging_monitor st cid parameters flags userdata
               os_open files in
  res.1 < 0 →
  res.2 = st ∧
  (res.1 = os_open ∨ res.1 = - EBADF ∨ res.1 = j_fault files In_seek_tail ∨
   (res.1 = - ERANGE ∧
    INT_MAX ≤ default 10 (parameters !! "initial_lines"%string)) ∨
   res.1 = j_fault files In_previous_skip ∨ res.1 = - VARLINK_ERROR_PANIC ∨
   res.1 = c_error c0).
Proof.
  intros Hfd Hc res Hr.
  destruct (handler_shape st cid c0 parameters flags userdata os_open files Hfd Hc)
    as [(_ & ? & ?) | [(H0 & _) | (H0 & _)]]; [done|fold res in H0; lia..].
Qed.

Lemma failed_call_leaves_no_trace_witness :
  let files := {| j_entries := three_records; j_location := LOCATION_HEAD;
                  j_fd := 7; j_changes := [];
                  j_fault := λ c, match c with
                                  | In_previous_skip => - EIO
                                  | _ => 0
                                  end |} in
  (com_redhat_logging_monitor idle_process 1 ∅ 1 4 0 files).2 = idle_process ∧
  (com_redhat_logging_monitor idle_process 1 ∅ 1 4 0 files).1 = - EIO.
Proof.
  intros files.
  assert ((com_redhat_logging_monitor idle_process 1 ∅ 1 4 0 files).1 = - EIO)
    as Hr by (vm_compute; reflexivity).
  split; [|exact Hr].
  apply (failed_call_leaves_no_trace idle_process 1
           {| c_refs := 1; c_replies := []; c_closed_callback := None;
              c_error := 0 |} ∅ 1 4 0 files eq_refl eq_refl).
  rewrite Hr. reflexivity.
Defined.

(** X15: a call the handler answers with 0 got exactly one reply and no
    other call was touched.  The reply is the invalid-parameter error
    exactly when [initial_lines] is negative, and else an array of entries
    flagged [VARLINK_REPLY_CONTINUES] exactly when the call asked for more.
    A call that asked for more with a valid parameter is referenced once
    more, by the monitor that now exists, and has the closed-connection
    callback set for that monitor; every other call has the references and
    the callback it had, and the monitors and the interest list are as
    before. *)
Theorem one_reply_one_reference st cid c0 parameters flags userdata os_open files :
  epoll st !! j_fd files = None → calls st !! cid = Some c0 →
  let k := default 10 (parameters !! "initial_lines"%string) in
  let p := fresh (dom (monitors st)) in
  let more := negb (Z.land flags VARLINK_CALL_MORE =? 0) in
  let res := com_redhat_logging_monitor st cid parameters flags userdata
               os_open files in
  res.1 = 0 →
  (∀ cid', cid' ≠ cid → calls res.2 !! cid' = calls st !! cid') ∧
  ∃ c' reply,
    calls res.2 !! cid = Some c' ∧
    c_replies c' = c_replies c0 ++ [reply] ∧
    (reply = Reply_invalid_parameter "initial_lines" ↔ k < 0) ∧
    (∀ entries reply_flags,
       reply = Reply_entries entries reply_flags →
       reply_flags = if more then VARLINK_REPLY_CONTINUES else 0) ∧
    if (0 <=? k) && more
    then c_refs c' = S (c_refs c0) ∧ c_closed_callback c' = Some p ∧
         is_Some (monitors res.2 !! p)
    else c_refs c' = c_refs c0 ∧ c_closed_callback c' = c_closed_callback c0 ∧
         monitors res.2 = monitors st ∧ epoll res.2 = epoll st.
Proof.
  intros Hfd Hc k p more res Hr.
  pose proof (handler_shape st cid c0 parameters flags userdata os_open files
                Hfd Hc) as H.
  cbn zeta in H. fold k p more in H. fold res in H.
  destruct H as [(Hneg & _) | [(_ & reply & Hres & Hreply) |
                               (_ & Hk & Hmore & m & entries & Ho & Hres)]].
  - lia.
  - rewrite Hres. cbn [set_calls calls monitors epoll]. split.
    { intros cid' Hne. by rewrite lookup_insert_ne. }
    exists (add_reply c0 reply), reply. rewrite lookup_insert_eq.
    split; [done|]. split; [done|].
    destruct Hreply as [[Hk ->] | (Hk & Hmore & entries & ->)].
    + split; [done|]. split; [done|].
      destruct (Z.leb_spec 0 k); [lia|]. done.
    + split; [split; [done|lia]|]. split.
      { intros ? ? [= _ <-]. by rewrite Hmore. }
      rewrite Hmore, andb_false_r. done.
  - rewrite Hres. cbn [with_session calls monitors epoll]. split.
    { intros cid' Hne. by rewrite lookup_insert_ne. }
    eexists _, (Reply_entries entries VARLINK_REPLY_CONTINUES).
    rewrite lookup_insert_eq. split; [done|]. split; [done|].
    split; [split; [done|lia]|]. split.
    { intros ? ? [= _ <-]. by rewrite Hmore. }
    destruct (Z.leb_spec 0 k); [|lia]. rewrite Hmore. cbn [andb].
    by rewrite lookup_insert_eq.
Qed.

Lemma one_reply_one_reference_witness :
  let res := com_redhat_logging_monitor idle_process 1 ∅ 1 4 0
               (sample_journal three_records LOCATION_HEAD) in
  ∃ c', calls res.2 !! 1%nat = Some c' ∧ c_refs c' = 2%nat ∧
        length (c_replies c') = 1%nat.
Proof.
  intros res.
  destruct (one_reply_one_reference idle_process 1
              {| c_refs := 1; c_replies := []; c_closed_callback := None;
                 c_error := 0 |} ∅ 1 4 0
              (sample_journal three_records LOCATION_HEAD) eq_refl eq_refl)
    as (_ & c' & reply & Hc' & Hrep & _ & _ & Hrefs); [vm_compute; reflexivity|].
  exists c'. split; [exact Hc'|]. split.
  - exact (proj1 Hrefs).
  - rewrite Hrep. reflexivity.
Defined.

(** X16: whatever a new call of the method leads to, once the connection
    is closed the interest list and the monitors of the process are what
    they were before the call, no other call was touched, and the call
    itself is left with the one reference of the transport, no callback and
    the replies sent on it. *)
Theorem session_round_trip epfd st cid error parameters flags os_open files :
  calls st !! cid = None → epoll st !! j_fd files = None →
  let st1 := run_upcall epfd st
               (Incoming cid error parameters flags os_open files) in
  let st2 := run_upcall epfd st1 (Closed cid) in
  epoll st2 = epoll st ∧ monitors st2 = monitors st ∧
  (∀ cid', cid' ≠ cid → calls st2 !! cid' = calls st !! cid') ∧
  ∃ c, calls st2 !! cid = Some c ∧ c_refs c = 1%nat ∧
       c_closed_callback c = None ∧ c_replies c = replies_of st1 cid.
Proof.
  intros Hcid Hfd st1 st2. subst st2 st1. cbn [run_upcall].
  set (c0 := {| c_refs := 1; c_replies := []; c_closed_callback := None;
                c_error := error |}).
  set (st0 := set_calls st (<[cid := c0]> (calls st))).
  assert (calls st0 !! cid = Some c0) as Hc0 by apply lookup_insert_eq.
  assert (∀ cid', cid' ≠ cid → calls st0 !! cid' = calls st !! cid') as Hother.
  { intros cid' Hne. cbn [st0 set_calls calls]. by rewrite lookup_insert_ne. }
  pose proof (fresh_monitor st0) as Hp.
  pose proof (handler_shape st0 cid c0 parameters flags epfd os_open files
                Hfd Hc0) as H.
  cbn zeta in H.
  destruct (com_redhat_logging_monitor st0 cid parameters flags epfd os_open files)
    as [r st1].
  cbn [fst snd] in *. unfold replies_of.
  destruct H as [(_ & -> & _) | [(_ & reply & -> & _) |
                                 (_ & _ & _ & m & entries & Ho & ->)]].
  - rewrite Hc0. assert (c_closed_callback c0 = None) as -> by done.
    split; [done|]. split; [done|].
    split; [done|]. by exists c0.
  - cbn [set_calls calls]. rewrite lookup_insert_eq.
    assert (c_closed_callback (add_reply c0 reply) = None) as -> by done.
    cbn [set_calls epoll monitors calls]. split; [done|]. split; [done|].
    split.
    { intros cid' Hne. rewrite lookup_insert_ne by done. by apply Hother. }
    eexists. rewrite lookup_insert_eq. done.
  - cbn [with_session calls]. rewrite lookup_insert_eq.
    cbn [varlink_call_set_connection_closed_callback c_closed_callback].
    destruct Ho as (Hcall & j & Hj & Hjfd).
    unfold monitor_canceled, monitor_free, deref, set_calls, with_session.
    cbn [epoll monitors calls]. rewrite lookup_insert_eq. cbn [default id].
    rewrite Hj, Hcall. unfold epoll_ctl_del, sd_journal_get_fd. rewrite Hjfd.
    rewrite !delete_insert_id by done. rewrite !insert_insert_eq, alter_insert_eq.
    cbn [epoll monitors calls]. split; [done|]. split; [done|]. split.
    { intros cid' Hne. rewrite lookup_insert_ne by done. by apply Hother. }
    eexists. rewrite lookup_insert_eq. done.
Qed.

Lemma session_round_trip_witness :
  let st := started 3 5 in
  let st1 := run_upcall 4 st (Incoming 1 0 ∅ 1 0 (tailing 7 [])) in
  let st2 := run_upcall 4 st1 (Closed 1) in
  is_Some (monitors st1 !! 0%nat) ∧
  epoll st2 = epoll st ∧ monitors st2 = monitors st.
Proof.
  intros st st1 st2. split; [vm_compute; eauto|].
  destruct (session_round_trip 4 st 1 0 ∅ 1 0 (tailing 7 []) eq_refl eq_refl)
    as (Hep & Hmon & _).
  split; [exact Hep | exact Hmon].
Defined.

(** X17: a stream from the call on.  On a journal that is not empty, when
    nothing fails, a call that asks for more replies with an
    [initial_lines] [k] below [INT_MAX] is answered with the
    entries of the last [min k (m - 1)] of the [m] records, and the monitor
    it leaves is at the last record; the dispatches for the records
    appended afterwards then send each of them once, in order.  The entries
    of all replies, one after the other, are those of the records of the
    first reply followed by those of all appended records: nothing is left
    out and nothing sent twice between the first reply and the stream. *)
Theorem stream_from_the_call_on st cid c0 parameters flags userdata os_open files
    batches :
  epoll st !! j_fd files = None → calls st !! cid = Some c0 →
  (c_error c0 <? 0) = false → set_up_fails os_open files = false →
  (j_fault files In_previous_skip <? 0) = false →
  (j_fault files In_process <? 0) = false → reads_work files →
  translatable (j_entries files) → j_entries files ≠ [] →
  j_changes files = Append <$> batches → translatable (concat batches) →
  let k := default 10 (parameters !! "initial_lines"%string) in
  0 ≤ k < INT_MAX →
  negb (Z.land flags VARLINK_CALL_MORE =? 0) = true →
  let m := length (j_entries files) in
  let p := fresh (dom (monitors st)) in
  let res := com_redhat_logging_monitor st cid parameters flags userdata
               os_open files in
  ∃ mon c1 mon' c2,
    res.1 = 0 ∧ monitors res.2 !! p = Some mon ∧ call mon = cid ∧
    calls res.2 !! cid = Some c1 ∧
    dispatches (length batches) mon c1 = (0, mon', c2) ∧
    reply_entries (c_replies c2) =
    reply_entries (c_replies c0) ++
    (wire_entry <$> drop (m - Z.to_nat k `min` (m - 1)) (j_entries files)
                    ++ concat batches).
Proof.
  intros Hfd Hc Herr Hup Hskip Hp Hw Hall Hne Hch Hnew k Hk Hmore m p res.
  destruct (handler_stream st cid c0 parameters flags userdata os_open files
              Hfd Hc Herr Hup Hskip Hw Hall Hk Hmore)
    as (mon & j & Hres & Hcall & Hj & He & Hch' & Hf & Hlast & _).
  fold k m p res in Hres.
  set (c1 := varlink_call_set_connection_closed_callback _ p) in Hres.
  destruct (dispatches_appends batches mon c1 j) as (mon' & j' & Hd & _);
    [done| |congruence|by rewrite Hf|by unfold reads_work; rewrite Hf|done|done|].
  { apply Hlast. subst m. by destruct (j_entries files). }
  exists mon, c1, mon', (foldl add_reply c1 (concat (batch_reply <$> batches))).
  rewrite Hres. cbn [fst snd with_session monitors calls].
  rewrite !lookup_insert_eq. split; [done|]. split; [done|]. split; [done|].
  split; [done|]. split; [done|].
  destruct (foldl_add_reply c1 (concat (batch_reply <$> batches))) as (-> & _).
  rewrite reply_entries_app, reply_entries_batches.
  cbn [c1 varlink_call_set_connection_closed_callback varlink_call_ref add_reply
         c_replies].
  rewrite reply_entries_app, fmap_app, <- app_assoc. f_equal. f_equal.
  unfold reply_entries. cbn. by rewrite app_nil_r.
Qed.

Lemma stream_from_the_call_on_witness :
  let files := tailing 7 (Append <$> [[odd_level]; []]) in
  let res := com_redhat_logging_monitor idle_process 1
               {[ "initial_lines"%string := 1 ]} 1 4 0 files in
  ∃ mon c1 mon' c2,
    res.1 = 0 ∧ monitors res.2 !! 0%nat = Some mon ∧ call mon = 1%nat ∧
    calls res.2 !! 1%nat = Some c1 ∧
    dispatches 2 mon c1 = (0, mon', c2) ∧
    reply_entries (c_replies c2) = [wire_entry heartbeat; wire_entry odd_level].
Proof.
  intros files res.
  assert (0 ≤ default 10 (({[ "initial_lines"%string := 1 ]} : gmap string Z)
                            !! "initial_lines"%string) < INT_MAX) as Hk
    by (vm_compute; split; [discriminate | reflexivity]).
  destruct (stream_from_the_call_on idle_process 1
              {| c_refs := 1; c_replies := []; c_closed_callback := None;
                 c_error := 0 |}
              {[ "initial_lines"%string := 1 ]} 1 4 0 files [[odd_level]; []])
    as (mon & c1 & mon' & c2 & Hr & Hmon & Hcall & Hc1 & Hd & Hrep);
    [reflexivity | reflexivity | reflexivity | reflexivity | reflexivity
    | reflexivity | repeat split | exact three_records_translatable
    | discriminate | reflexivity | | exact Hk | reflexivity |].
  - intros i e He. destruct i as [|i]; simpl in He; by simplify_eq.
  - exists mon, c1, mon', c2. split; [exact Hr|]. split; [exact Hmon|].
    split; [exact Hcall|]. split; [exact Hc1|]. split; [exact Hd|].
    rewrite Hrep. vm_compute. reflexivity.
Defined.

(** X18: in a process that satisfies the invariant of the loop, the
    dispatch of one monitor leaves every other monitor and its call as they
    were, and the interest list too; only the call of the dispatched monitor
    can change. *)
Theorem dispatch_touches_one_session st p q mp mq :
  consistent st → monitors st !! p = Some mp → monitors st !! q = Some mq →
  p ≠ q →
  let st' := (dispatch_at st p).2 in
  epoll st' = epoll st ∧ monitors st' !! q = Some mq ∧
  calls st' !! call mq = calls st !! call mq ∧
  (∀ cid, cid ≠ call mp → calls st' !! cid = calls st !! cid).
Proof.
  intros [H1 H2 H3] Hp Hq Hne st'. subst st'.
  assert (call mq ≠ call mp) as Hcalls.
  { intros Heq.
    destruct (H2 _ _ Hp) as (_ & cp & _ & _ & Hcp & Hcbp).
    destruct (H2 _ _ Hq) as (_ & cq & _ & _ & Hcq & Hcbq).
    rewrite Heq in Hcq. congruence. }
  unfold dispatch_at, deref. rewrite Hp. cbn [default id]. cbn zeta.
  destruct (calls st !! call mp) as [c|]; [|done].
  destruct (monitor_dispatch mp c) as [[r m'] c'].
  cbn [snd set_calls store set_monitors epoll monitors calls].
  split; [done|]. split; [by rewrite lookup_insert_ne|].
  split; [by rewrite lookup_insert_ne|].
  intros cid Hcid. by rewrite lookup_insert_ne.
Qed.

Lemma dispatch_touches_one_session_witness :
  ∃ mq, monitors two_sessions !! 1%nat = Some mq ∧
        monitors (dispatch_at two_sessions 0).2 !! 1%nat = Some mq ∧
        epoll (dispatch_at two_sessions 0).2 = epoll two_sessions.
Proof.
  destruct (monitors two_sessions !! 0%nat) as [mp|] eqn:Hp;
    [|vm_compute in Hp; discriminate].
  destruct (monitors two_sessions !! 1%nat) as [mq|] eqn:Hq;
    [|vm_compute in Hq; discriminate].
  exists mq. split; [reflexivity|].
  destruct (dispatch_touches_one_session two_sessions 0 1 mp mq
              two_sessions_consistent Hp Hq ltac:(discriminate))
    as (Hep & Hmon & _).
  split; [exact Hmon | exact Hep].
Defined.

(** ** The loop and the start of the service *)

(** X19: why the loop of [main] ends.  When it returns, the wake-ups
    before the last one left it running, and the last one is either a full
    read of SIGTERM or SIGINT from the signal descriptor, and the status is
    [EXIT_SUCCESS]; or the status is [ERROR_PANIC] and the last wake-up is
    a failure of [epoll_wait] other than EINTR, or the value
    [-VARLINK_ERROR_PANIC] from the service or from a dispatch, or a read
    of the signal descriptor that was short or gave another signal.  No
    other error ends the loop. *)
Theorem loop_exit epfd st ws status st' :
  main_loop epfd st ws = Exited status st' →
  ∃ before w after st1,
    ws = before ++ w :: after ∧
    main_loop epfd st before = Running st1 ∧
    main_step epfd st1 w = Exited status st' ∧
    ((status = EXIT_SUCCESS ∧
      ∃ signo, w = Ready_signal sizeof_signalfd_siginfo signo ∧
               (signo = SIGTERM ∨ signo = SIGINT)) ∨
     (status = ERROR_PANIC ∧
      match w with
      | Wait_failed errno => errno ≠ EINTR
      | Wait_nothing => False
      | Ready_service _ r => r = - VARLINK_ERROR_PANIC
      | Ready_signal size signo =>
          ¬ (size = sizeof_signalfd_siginfo ∧ (signo = SIGTERM ∨ signo = SIGINT))
      | Ready_monitor p => (dispatch_at st1 p).1 = - VARLINK_ERROR_PANIC
      end)).
Proof.
  revert st. induction ws as [|w ws IH]; intros st; cbn [main_loop]; [done|].
  destruct (main_step epfd st w) as [st1|status1 st1] eqn:Hstep.
  - intros (before & w' & after & st2 & -> & Hrun & Hexit & Hwhy)%IH.
    exists (w :: before), w', after, st2. cbn [main_loop app]. rewrite Hstep.
    done.
  - intros [= -> ->]. exists [], w, ws, st. split; [done|]. split; [done|].
    split; [done|]. by eapply main_step_exit.
Qed.

Lemma loop_exit_witness :
  ∃ before w after st1,
    [Wait_failed EINTR; Wait_nothing; Ready_signal 128 SIGTERM; Wait_nothing]
    = before ++ w :: after ∧
    main_loop 4 (started 3 5) before = Running st1 ∧
    main_step 4 st1 w = Exited EXIT_SUCCESS (started 3 5).
Proof.
  destruct (loop_exit 4 (started 3 5)
              [Wait_failed EINTR; Wait_nothing; Ready_signal 128 SIGTERM;
               Wait_nothing]
              EXIT_SUCCESS (started 3 5) eq_refl)
    as (before & w & after & st1 & Hws & Hrun & Hexit & _).
  by exists before, w, after, st1.
Defined.

(** X20: the signals [make_signalfd] puts in the mask are the ones the
    loop takes for a request to stop: a read of the signal descriptor ends
    the loop with [EXIT_SUCCESS] if and only if it is a full
    [signalfd_siginfo] for a signal of the mask. *)
Theorem masked_signals_end_cleanly signalfd epfd st size signo :
  main_step epfd st (Ready_signal size signo) = Exited EXIT_SUCCESS st ↔
  size = sizeof_signalfd_siginfo ∧ signo ∈ (make_signalfd signalfd).1.
Proof.
  cbn [make_signalfd fst]. unfold sigaddset, sigemptyset.
  rewrite !elem_of_cons, elem_of_nil. split.
  - intros H. apply main_step_exit in H as [(_ & signo' & [= -> ->] & Hs) | [H _]].
    + split; [done|]. destruct Hs; auto.
    + done.
  - intros [-> [-> | [-> | []]]]; done.
Qed.

Lemma masked_signals_end_cleanly_witness :
  main_step 4 idle_process (Ready_signal 128 15) = Exited EXIT_SUCCESS idle_process.
Proof.
  apply (masked_signals_end_cleanly (λ _, 5) 4 idle_process 128 15).
  split; [reflexivity|]. unfold make_signalfd, sigaddset, sigemptyset.
  cbn [fst]. apply elem_of_cons. right. apply elem_of_cons. left. reflexivity.
Defined.

(** X21: the option string [":vh"] declares [-v] without an argument,
    so only the long option [--varlink] gives an address: a command line
    with no argument that starts with two dashes (for instance
    [-v ADDRESS], or the bare [ADDRESS] of the usage text) never starts the
    service; [main] prints the help or returns [ERROR_MISSING_ADDRESS],
    before it has created anything. *)
Theorem short_option_gives_no_address argv sys ws :
  Forall (λ arg, String.prefix "--" arg = false) (tail argv) →
  main argv sys ws = Exited EXIT_SUCCESS no_process ∨
  main argv sys ws = Exited ERROR_MISSING_ADDRESS no_process.
Proof.
  intros Hargs. unfold main.
  destruct (parse_options_no_argument _ (getopt_long_short_only _ Hargs))
    as [-> | ->]; auto.
Qed.

Lemma short_option_gives_no_address_witness :
  main ["com.redhat.logging"; "-v"; "unix:/run/logging"]%string
    {| sys_read3 := -1; sys_service_new := λ _ _, (0, 3);
       sys_signalfd := λ _, 5; sys_epoll_create1 := 4; sys_add_interface := 0 |}
    sample_run
  = Exited ERROR_MISSING_ADDRESS no_process.
Proof.
  destruct (short_option_gives_no_address
              ["com.redhat.logging"; "-v"; "unix:/run/logging"]%string
              {| sys_read3 := -1; sys_service_new := λ _ _, (0, 3);
                 sys_signalfd := λ _, 5; sys_epoll_create1 := 4;
                 sys_add_interface := 0 |}
              sample_run)
    as [H | H].
  - repeat constructor.
  - discriminate H.
  - exact H.
Defined.

(** X22: the loop over the options in one formula: a help option
    anywhere among the options ends it, whatever address was given; else the
    address is the argument of the last [--varlink] or [-v], which is NULL
    for [-v], and NULL when there was none. *)
Theorem parse_options_result results address :
  parse_options results address =
  if existsb (is_option "h") results then None
  else Some (default address
               (snd <$> last (List.filter (is_option "v") results))).
Proof.
  revert address. induction results as [|[c optarg] results IH]; intros address;
    cbn [parse_options existsb List.filter]; [done|].
  unfold is_option at 1 3. cbn [fst].
  destruct (Ascii.eqb_spec c "h") as [->|Hh]; [done|]. cbn [orb].
  destruct (Ascii.eqb_spec c "v") as [->|Hv]; rewrite IH;
    destruct (existsb _ results); try done.
  destruct (List.filter (is_option "v") results) as [|r rs] eqn:Hf; [done|].
  rewrite last_cons_cons. destruct (last (r :: rs)) eqn:Hlast; [done|].
  by apply last_None in Hlast.
Qed.

Lemma parse_options_result_witness :
  parse_options
    (getopt_long ":vh" options
       ["--varlink=unix:/run/a"; "--varlink"; "unix:/run/b"]%string) None
  = Some (Some "unix:/run/b"%string).
Proof.
  rewrite parse_options_result. reflexivity.
Defined.

(** X23: [main] exits with [EXIT_SUCCESS], [ERROR_PANIC] or
    [ERROR_MISSING_ADDRESS] and nothing else; with [ERROR_MISSING_ADDRESS]
    exactly when the options leave no address, whatever the system would
    answer, and then nothing was created. *)
Theorem main_exit_status argv sys ws status :
  exit_status (main argv sys ws) = Some status →
  (status = EXIT_SUCCESS ∨ status = ERROR_PANIC ∨ status = ERROR_MISSING_ADDRESS) ∧
  (status = ERROR_MISSING_ADDRESS ↔
   parse_options (getopt_long ":vh" options (tail argv)) None = Some None) ∧
  (status = ERROR_MISSING_ADDRESS → main argv sys ws = Exited status no_process).
Proof.
  unfold main.
  destruct (parse_options _ None) as [[address|]|].
  2:{ intros [= <-]. split; [auto|]. done. }
  2:{ intros [= <-]. split; [auto|]. split; [|done]. split; done. }
  assert (∀ o : outcome,
            (∀ s st, o = Exited s st → s = EXIT_SUCCESS ∨ s = ERROR_PANIC) →
            exit_status o = Some status →
            (status = EXIT_SUCCESS ∨ status = ERROR_PANIC
             ∨ status = ERROR_MISSING_ADDRESS) ∧
            (status = ERROR_MISSING_ADDRESS ↔ Some (Some address) = Some None) ∧
            (status = ERROR_MISSING_ADDRESS → o = Exited status no_process))
    as Hcodes.
  { intros [st|s st] Ho; [done|]. intros [= ->].
    destruct (Ho _ _ eq_refl) as [-> | ->]; (split; [auto|]); split; done. }
  assert (∀ st s st', Exited (exit_error ERROR_PANIC) st = Exited s st' →
                      s = EXIT_SUCCESS ∨ s = ERROR_PANIC) as Hpanic.
  { intros st s st' [= <- _]. by right. }
  destruct (sys_service_new sys address _) as [r service_fd].
  destruct (r <? 0); [by eapply Hcodes, Hpanic|].
  cbn [make_signalfd].
  destruct (_ <? 0); [by eapply Hcodes, Hpanic|].
  destruct (_ <? 0); [by eapply Hcodes, Hpanic|].
  destruct (epoll_add no_process service_fd Ptr_service) as [[r1 e1] st1].
  destruct (r1 <? 0); [by eapply Hcodes, Hpanic|].
  destruct (epoll_add st1 _ Ptr_null) as [[r2 e2] st2].
  destruct (r2 <? 0); [by eapply Hcodes, Hpanic|].
  destruct (_ <? 0); [by eapply Hcodes, Hpanic|].
  apply Hcodes. intros s st. apply main_loop_exit_status.
Qed.

Lemma main_exit_status_witness :
  let sys := {| sys_read3 := -1; sys_service_new := λ _ _, (0, 3);
                sys_signalfd := λ _, 5; sys_epoll_create1 := 4;
                sys_add_interface := 0 |} in
  exit_status (main ["com.redhat.logging"; "unix:/run/logging"]%string sys []) =
  Some ERROR_MISSING_ADDRESS ∧
  main ["com.redhat.logging"; "unix:/run/logging"]%string sys []
  = Exited ERROR_MISSING_ADDRESS no_process.
Proof.
  intros sys. split; [reflexivity|].
  exact (proj2 (proj2 (main_exit_status
                         ["com.redhat.logging"; "unix:/run/logging"]%string sys []
                         ERROR_MISSING_ADDRESS eq_refl)) eq_refl).
Defined.

(** X24: from the set-up to the loop.  With an address, [main] enters its
    loop exactly when the service is created, the signal descriptor and the
    epoll instance are there, both descriptors can be registered and the
    interface is added; the loop then starts with these two registrations
    and nothing else, and from there on a monitor is registered if and only
    if it is live, open and streaming whenever the loop waits.  If any of
    the steps fails [main] exits with [ERROR_PANIC], with no monitor and no
    call. *)
Theorem main_starts_loop argv sys ws address r service_fd :
  parse_options (getopt_long ":vh" options (tail argv)) None = Some (Some address) →
  sys_service_new sys address (if sys_read3 sys =? 0 then 3 else -1)
  = (r, service_fd) →
  let signal_fd := sys_signalfd sys [SIGINT; SIGTERM] in
  let epoll_fd := sys_epoll_create1 sys in
  if (0 <=? r) && (0 <=? signal_fd) && (0 <=? epoll_fd) && (0 <=? service_fd)
     && negb (signal_fd =? service_fd) && (0 <=? sys_add_interface sys)
  then
    main argv sys ws = main_loop epoll_fd (started service_fd signal_fd) ws ∧
    (wakeups_ok epoll_fd (started service_fd signal_fd) ws →
     ∀ p, registered (process_of (main argv sys ws)) p ↔
          streaming (process_of (main argv sys ws)) p)
  else
    ∃ st, main argv sys ws = Exited ERROR_PANIC st ∧ monitors st = ∅ ∧ calls st = ∅.
Proof.
  intros Hparse Hnew signal_fd epoll_fd. unfold main. rewrite Hparse, Hnew.
  cbn [make_signalfd]. unfold sigaddset, sigemptyset. fold signal_fd epoll_fd.
  destruct (Z.ltb_spec r 0) as [Hr|Hr].
  { destruct (Z.leb_spec 0 r); [lia|]. by exists no_process. }
  destruct (Z.leb_spec 0 r); [|lia]. cbn [andb].
  destruct (Z.ltb_spec signal_fd 0).
  { destruct (Z.leb_spec 0 signal_fd); [lia|]. by exists no_process. }
  destruct (Z.leb_spec 0 signal_fd); [|lia]. cbn [andb].
  destruct (Z.ltb_spec epoll_fd 0).
  { destruct (Z.leb_spec 0 epoll_fd); [lia|]. by exists no_process. }
  destruct (Z.leb_spec 0 epoll_fd); [|lia]. cbn [andb].
  unfold epoll_add, epoll_ctl_add, set_epoll. cbn [no_process epoll monitors calls].
  destruct (Z.ltb_spec service_fd 0).
  { destruct (Z.leb_spec 0 service_fd); [lia|]. cbn. by eexists. }
  destruct (Z.leb_spec 0 service_fd); [|lia]. cbn [andb].
  rewrite lookup_empty. cbn [Z.ltb Z.compare epoll monitors calls].
  destruct (Z.ltb_spec signal_fd 0); [lia|].
  rewrite lookup_insert. destruct (Z.eqb_spec signal_fd service_fd) as [Heq|Hne].
  { rewrite decide_True by done. cbn. by eexists. }
  rewrite decide_False by done. rewrite lookup_empty.
  cbn [Z.ltb Z.compare negb andb].
  destruct (Z.ltb_spec (sys_add_interface sys) 0).
  { destruct (Z.leb_spec 0 (sys_add_interface sys)); [lia|]. cbn. by eexists. }
  destruct (Z.leb_spec 0 (sys_add_interface sys)); [|lia].
  assert ({| epoll := <[signal_fd := Ptr_null]> (<[service_fd := Ptr_service]> ∅);
             monitors := ∅; calls := ∅ |} = started service_fd signal_fd) as ->.
  { unfold started. by rewrite insert_empty. }
  split; [done|]. intros Hok p.
  apply consistent_iff, consistent_loop; [|done]. apply started_consistent.
Qed.

Lemma main_starts_loop_witness :
  let sys := {| sys_read3 := -1; sys_service_new := λ _ _, (0, 3);
                sys_signalfd := λ _, 5; sys_epoll_create1 := 4;
                sys_add_interface := 0 |} in
  main ["com.redhat.logging"; "--varlink=unix:/run/logging"]%string sys sample_run
  = main_loop 4 (started 3 5) sample_run.
Proof.
  intros sys.
  exact (proj1 (main_starts_loop
                  ["com.redhat.logging"; "--varlink=unix:/run/logging"]%string
                  sys sample_run "unix:/run/logging" 0 3 eq_refl eq_refl
                : _ ∧ _)).
Defined.
